(** * Movie_Management: the movie query, filter, sort and mutation pipeline

    A shallow embedding of the client component [MovieList] (derived view,
    mutation folding) and of the server controller [movieController.js]
    (query building, pagination, statistics, owner counters, watchlist),
    with the properties the specification states about them. *)

From Stdlib Require Import Ascii QArith Qround Lqa.
From Stdlib Require Import Qminmax.
From stdpp Require Import gmap strings list fin_maps sorting.
From stdpp Require Import pretty.

Set Warnings "-register-all".

(** ** JavaScript values

    The client keeps whatever the fetch layer handed it, so the component
    guards every access with [Array.isArray], [typeof] and [||].  Values are
    therefore modelled untyped.  Numbers are exact rationals (no NaN, no
    infinities, no rounding): a numeral is read only up to 2^53 - 1, the
    whole numbers a double holds without rounding.  Strings are sequences
    of 8-bit characters (the bytes of the text); what depends on the
    host's Unicode tables, [toLowerCase] and [localeCompare], is a
    parameter.  Objects are finite maps from property names to values,
    without identity. *)

Module Js.

Inductive Value : Type :=
| VUndefined
| VNull
| VBool (b : bool)
| VNum (q : Q)
| VStr (s : string)
| VObj (fields : gmap string Value)
| VArr (items : list Value).

(** An object literal [{k1: v1, ...}]. *)
Definition obj (l : list (string * Value)) : Value := VObj (list_to_map l).

(** The only exception the modelled code can raise by itself. *)
Inductive Exn : Type := TypeError.

Inductive Res (A : Type) : Type :=
| Ok (a : A)
| Throw (e : Exn).
Arguments Ok {A} a.
Arguments Throw {A} e.

Definition bind {A B} (r : Res A) (k : A -> Res B) : Res B :=
  match r with
  | Ok a => k a
  | Throw e => Throw e
  end.

Declare Scope js_scope.
Delimit Scope js_scope with js.
Notation "x <- c1 ;; c2" := (bind c1 (fun x => c2))
  (at level 100, c1 at next level, right associativity) : js_scope.

(** ToBoolean. *)
Definition truthy (v : Value) : bool :=
  match v with
  | VUndefined | VNull => false
  | VBool b => b
  | VNum q => negb (Qeq_bool q 0)
  | VStr s => negb (String.eqb s "")
  | VObj _ | VArr _ => true
  end.

(** [a || b]. *)
Definition orElse (a b : Value) : Value := if truthy a then a else b.

(** [typeof v === 'object'] ([typeof null] is ['object'] too). *)
Definition typeofObject (v : Value) : bool :=
  match v with
  | VNull | VObj _ | VArr _ => true
  | _ => false
  end.

(** [typeof v === 'string']. *)
Definition typeofString (v : Value) : bool :=
  match v with
  | VStr _ => true
  | _ => false
  end.

Definition isArray (v : Value) : bool :=
  match v with
  | VArr _ => true
  | _ => false
  end.

(** [v.k] for a data property name [k] (none of the names the component reads
    is a built-in property of a string, an array or a number): reading a
    property of [null] or [undefined] raises, a primitive or an array has no
    such property. *)
Definition getProp (v : Value) (k : string) : Res Value :=
  match v with
  | VUndefined | VNull => Throw TypeError
  | VObj fields => Ok (default VUndefined (fields !! k))
  | _ => Ok VUndefined
  end.

(** [v?.k]. *)
Definition getPropOpt (v : Value) (k : string) : Value :=
  match getProp v k with
  | Ok x => x
  | Throw _ => VUndefined
  end.

(** [v === s] for a string [s]: strict equality never coerces. *)
Definition strictEqStr (v : Value) (s : string) : bool :=
  match v with
  | VStr t => String.eqb t s
  | _ => false
  end.

(** *** Strings *)

(** Lower-casing within ASCII: the letters A to Z are folded, every other
    character is kept.  On text that is all ASCII this is what
    [String.prototype.toLowerCase] does; beyond ASCII the host folds by its
    Unicode tables. *)
Definition lowerChar (c : ascii) : ascii :=
  let n := N_of_ascii c in
  if (65 <=? n)%N && (n <=? 90)%N then ascii_of_N (n + 32) else c.

Fixpoint asciiLowerCase (s : string) : string :=
  match s with
  | EmptyString => EmptyString
  | String c t => String (lowerChar c) (asciiLowerCase t)
  end.

(** Text all of whose characters are ASCII. *)
Fixpoint isAscii (s : string) : bool :=
  match s with
  | EmptyString => true
  | String c t => (N_of_ascii c <? 128)%N && isAscii t
  end.

Fixpoint startsWith (s p : string) {struct p} : bool :=
  match p, s with
  | EmptyString, _ => true
  | String _ _, EmptyString => false
  | String a p', String b s' => Ascii.eqb a b && startsWith s' p'
  end.

(** [hay.includes(needle)]. *)
Fixpoint includes (hay needle : string) : bool :=
  startsWith hay needle ||
  match hay with
  | EmptyString => false
  | String _ t => includes t needle
  end.

(** [v.toLowerCase()], for the host's [toLowerCase]: only a string has the
    method; on any other value the property is [undefined] (or not
    callable) and the call raises. *)
Definition callToLowerCase (toLowerCase : string -> string) (v : Value)
  : Res string :=
  match v with
  | VStr s => Ok (toLowerCase s)
  | _ => Throw TypeError
  end.

(** [arr.filter(f)] with a callback that may raise: the first exception
    aborts the whole call. *)
Fixpoint filterM (f : Value -> Res bool) (l : list Value) : Res (list Value) :=
  match l with
  | [] => Ok []
  | x :: t =>
      (keep <- f x ;;
       rest <- filterM f t ;;
       Ok (if keep then x :: rest else rest))%js
  end.

(** [arr.map(f)] with a callback that may raise. *)
Fixpoint mapM (f : Value -> Res Value) (l : list Value) : Res (list Value) :=
  match l with
  | [] => Ok []
  | x :: t =>
      (y <- f x ;;
       rest <- mapM f t ;;
       Ok (y :: rest))%js
  end.

(** *** Numbers *)

Definition digitOf (c : ascii) : option Z :=
  let n := Z.of_N (N_of_ascii c) in
  if (48 <=? n)%Z && (n <=? 57)%Z then Some (n - 48)%Z else None.

Fixpoint parseDigits (acc : Z) (s : string) : option Z :=
  match s with
  | EmptyString => Some acc
  | String c t =>
      match digitOf c with
      | Some d => parseDigits (10 * acc + d)%Z t
      | None => None
      end
  end.

(** [Number.MAX_SAFE_INTEGER], 2^53 - 1. *)
Definition maxSafeInteger : Z := 9007199254740991.

(** The number a string of decimal digits denotes, up to 2^53 - 1: a longer
    numeral is read with rounding, which the number model does not
    cover. *)
Definition decimal (s : string) : option Z :=
  match s with
  | EmptyString => None
  | _ =>
      n ← parseDigits 0 s;
      if (n <=? maxSafeInteger)%Z then Some n else None
  end.

(** ToNumber, as [a - b], [a * b] and [a / b] apply it to their operands.
    Only coercions with an exact rational result are covered: [None] stands
    for a value outside the number model (NaN, or the numeric reading of an
    object or of a string that is not a plain decimal numeral). *)
Definition toNumber (v : Value) : option Q :=
  match v with
  | VNum q => Some q
  | VBool b => Some (if b then 1 else 0)%Q
  | VNull => Some 0%Q
  | VStr s => inject_Z <$> decimal s
  | _ => None
  end.

(** The integer a rational is, if it is one. *)
Definition asInteger (q : Q) : option Z :=
  if Qeq_bool q (inject_Z (Qfloor q)) then Some (Qfloor q) else None.

(** [parseInt(v)] on a decimal numeral, or on a number that prints as one
    (a non-negative whole number), both up to 2^53 - 1; [None] otherwise. *)
Definition parseInt (v : Value) : option Z :=
  match v with
  | VStr s => decimal s
  | VNum q =>
      match asInteger q with
      | Some n =>
          if (0 <=? n)%Z && (n <=? maxSafeInteger)%Z then Some n else None
      | None => None
      end
  | _ => None
  end.

End Js.

Import Js.
Local Open Scope js_scope.

(** ** The client component [MovieList] *)

Module MovieList.

(** *** Derived view: the filter (lines 126-145) *)

Section Host.

(** [String.prototype.toLowerCase] of the host. *)
Variable toLowerCase : string -> string.

(** The callback of [movies.filter].  [||] and [&&] evaluate left to right
    and stop early, so a later operand cannot raise once an earlier one
    decided. *)
Definition filterCallback (searchTerm filterGenre : string) (movie : Value)
  : Res bool :=
  if negb (truthy movie) || negb (typeofObject movie) then Ok false else
  name <- getProp movie "name" ;;
  description <- getProp movie "description" ;;
  genre <- getProp movie "genre" ;;
  let movieName := orElse name (VStr "") in
  let movieDescription := orElse description (VStr "") in
  let movieGenre := orElse genre (VStr "") in
  matchesSearch <-
    (if String.eqb searchTerm "" then Ok true else
     lowName <- callToLowerCase toLowerCase movieName ;;
     if includes lowName (toLowerCase searchTerm) then Ok true else
     lowDescription <- callToLowerCase toLowerCase movieDescription ;;
     Ok (includes lowDescription (toLowerCase searchTerm))) ;;
  let matchesGenre :=
    String.eqb filterGenre "all" || strictEqStr movieGenre filterGenre in
  Ok (matchesSearch && matchesGenre).

(** The [filtered] array of [filteredAndSortedMovies]. *)
Definition filteredMovies (movies : Value) (searchTerm filterGenre : string)
  : Res (list Value) :=
  match movies with
  | VArr items =>
      if (length items =? 0)%nat then Ok []
      else filterM (filterCallback searchTerm filterGenre) items
  | _ => Ok []
  end.

End Host.

(** *** Derived view: the sort (lines 148-173) *)

(** What a comparator call can do: return a number, raise, or leave the
    value model. *)
Inductive Cmp : Type :=
| CmpNum (q : Q)
| CmpThrow
| CmpBeyond.

Definition nullish (v : Value) : bool :=
  match v with
  | VUndefined | VNull => true
  | _ => false
  end.

Section Sorting.

(** [String.prototype.toLowerCase] of the host, and
    [String.prototype.localeCompare] in the host's default locale:
    negative, zero or positive. *)
Variable toLowerCase : string -> string.
Variable localeCompare : string -> string -> Z.

(** [aName.localeCompare(bName)]: the receiver must be a string (any other
    value has no such method, the call raises); a non-string argument would
    be converted by ToString, which the value model does not cover. *)
Definition callLocaleCompare (aName bName : Value) : Cmp :=
  match aName with
  | VStr a =>
      match bName with
      | VStr b => CmpNum (inject_Z (localeCompare a b))
      | _ => CmpBeyond
      end
  | _ => CmpThrow
  end.

Definition subtract (a b : Value) : Cmp :=
  match toNumber a, toNumber b with
  | Some x, Some y => CmpNum (x - y)%Q
  | _, _ => CmpBeyond
  end.

(** The [comparison] the comparator computes.  The six property reads come
    first; they raise on [null] or [undefined], which [filtered] never
    holds. *)
Definition comparisonOf (sortBy : string) (a b : Value) : Cmp :=
  if nullish a || nullish b then CmpThrow else
  let aName := orElse (getPropOpt a "name") (VStr "") in
  let bName := orElse (getPropOpt b "name") (VStr "") in
  let aYear := orElse (getPropOpt a "releaseYear") (VNum 0) in
  let bYear := orElse (getPropOpt b "releaseYear") (VNum 0) in
  let aRating := orElse (getPropOpt a "rating") (VNum 0) in
  let bRating := orElse (getPropOpt b "rating") (VNum 0) in
  if String.eqb sortBy "name" then callLocaleCompare aName bName
  else if String.eqb sortBy "year" then subtract aYear bYear
  else if String.eqb sortBy "rating" then subtract aRating bRating
  else CmpNum 0.

(** [-comparison]. *)
Definition negated (c : Cmp) : Cmp :=
  match c with
  | CmpNum q => CmpNum (- q)%Q
  | other => other
  end.

(** The comparator passed to [filtered.sort]. *)
Definition compareMovies (sortBy sortOrder : string) (a b : Value) : Cmp :=
  let comparison := comparisonOf sortBy a b in
  if String.eqb sortOrder "asc" then comparison else negated comparison.

(** [Array.prototype.sort] is a stable sort (ECMAScript 2019): elements that
    compare equal keep their order.  For a consistent comparator every stable
    sort returns the same array; it is computed here by insertion, each
    element going in front of the first later element it does not exceed.
    Which pairs an engine asks the comparator about is its own choice, so
    the outcome is only given when every pair asked has a number for an
    answer: [None] when a comparison raises or leaves the value model. *)
Fixpoint insertSorted (cmp : Value -> Value -> Cmp) (x : Value)
    (sorted : list Value) : option (list Value) :=
  match sorted with
  | [] => Some [x]
  | y :: t =>
      match cmp x y with
      | CmpNum c =>
          if Qle_bool c 0 then Some (x :: y :: t)
          else rest ← insertSorted cmp x t; Some (y :: rest)
      | _ => None
      end
  end.

Fixpoint arraySort (cmp : Value -> Value -> Cmp) (l : list Value)
  : option (list Value) :=
  match l with
  | [] => Some []
  | x :: t => sorted ← arraySort cmp t; insertSorted cmp x sorted
  end.

(** [filteredAndSortedMovies]: the array the memo returns, or the exception
    the filter raises; [None] when the sort has no modelled outcome. *)
Definition filteredAndSortedMovies
    (movies : Value) (searchTerm filterGenre sortBy sortOrder : string)
  : option (Res (list Value)) :=
  match filteredMovies toLowerCase movies searchTerm filterGenre with
  | Ok filtered => Ok <$> arraySort (compareMovies sortBy sortOrder) filtered
  | Throw e => Some (Throw e)
  end.

End Sorting.

(** The sort controls: [sortBy] and [sortOrder] of the component state. *)
Record SortState : Type := { sortBy : string; sortOrder : string }.

(** [handleSort] (lines 177-184). *)
Definition handleSort (field : string) (st : SortState) : SortState :=
  if String.eqb (sortBy st) field then
    {| sortBy := sortBy st;
       sortOrder := if String.eqb (sortOrder st) "asc" then "desc" else "asc" |}
  else {| sortBy := field; sortOrder := "asc" |}.

(** What the component renders for the sort controls [st]. *)
Definition view (toLowerCase : string -> string)
    (localeCompare : string -> string -> Z) (movies : Value)
    (searchTerm filterGenre : string) (st : SortState)
  : option (Res (list Value)) :=
  filteredAndSortedMovies toLowerCase localeCompare movies
                          searchTerm filterGenre (sortBy st) (sortOrder st).

(** The comparator tells [a] and [b] apart: it returns a non-zero number. *)
Definition apart (cmp : Value -> Value -> Cmp) (a b : Value) : bool :=
  match cmp a b with
  | CmpNum c => negb (Qeq_bool c 0)
  | _ => false
  end.

(** No two entries of the list compare equal. *)
Fixpoint noTies (cmp : Value -> Value -> Cmp) (l : list Value) : bool :=
  match l with
  | [] => true
  | x :: t => forallb (apart cmp x) t && noTies cmp t
  end.

(** A comparator with its result negated. *)
Definition flipped (cmp : Value -> Value -> Cmp) : Value -> Value -> Cmp :=
  fun a b => negated (cmp a b).

(** The comparator puts [a] strictly before [b]. *)
Definition precedes (cmp : Value -> Value -> Cmp) (a b : Value) : Prop :=
  exists c, cmp a b = CmpNum c /\ (c < 0)%Q.

(** The comparator does not put [a] after [b]: it returns a number that is
    not positive. *)
Definition notAfter (cmp : Value -> Value -> Cmp) (a b : Value) : Prop :=
  exists c, cmp a b = CmpNum c /\ (c <= 0)%Q.

(** The comparator returns 0 on [a] and [b]. *)
Definition tied (cmp : Value -> Value -> Cmp) (a b : Value) : bool :=
  match cmp a b with
  | CmpNum c => Qeq_bool c 0
  | _ => false
  end.

(** A collation for worked examples: plain character-code order. *)
Definition codeCompare (a b : string) : Z :=
  match String.compare a b with
  | Eq => 0
  | Lt => -1
  | Gt => 1
  end.

(** *** Genre options (lines 113-123) *)

(** [new Set(iterable)] keeps the first occurrence of each element, in
    insertion order. *)
Definition setAdd (acc : list string) (x : string) : list string :=
  if bool_decide (x ∈ acc) then acc else acc ++ [x].

Definition newSet (l : list string) : list string := foldl setAdd [] l.

(** The strings among values all of which passed [typeof g === 'string']. *)
Definition stringsOf (l : list Value) : list string :=
  omap (fun v => match v with VStr s => Some s | _ => None end) l.

Definition uniqueGenres (movies : Value) : list string :=
  match movies with
  | VArr items =>
      if (length items =? 0)%nat then ["all"]
      else
        let genres :=
          List.filter (fun genre => truthy genre && typeofString genre)
                      (map (fun movie => getPropOpt movie "genre") items) in
        "all" :: newSet (stringsOf genres)
  | _ => ["all"]
  end.

(** *** Mutation folding (lines 78-110) *)

(** The state updater of [handleDelete], for the identifier string [id]. *)
Definition deleteUpdater (id : string) (prev : Value) : Res Value :=
  match prev with
  | VArr items =>
      kept <- filterM (fun movie =>
                _id <- getProp movie "_id" ;;
                Ok (negb (strictEqStr _id id))) items ;;
      Ok (VArr kept)
  | _ => Ok (VArr [])
  end.

(** The state updater of [handleUpdate]. *)
Definition updateUpdater (id : string) (updatedMovie : Value) (prev : Value)
  : Res Value :=
  match prev with
  | VArr items =>
      mapped <- mapM (fun movie =>
                  _id <- getProp movie "_id" ;;
                  Ok (if strictEqStr _id id then updatedMovie else movie)) items ;;
      Ok (VArr mapped)
  | _ => Ok (VArr [])
  end.

(** [movie._id === id] for an entry that is not [null] or [undefined]. *)
Definition hasId (id : string) (movie : Value) : bool :=
  strictEqStr (getPropOpt movie "_id") id.

(** The entries of a collection value; a value that is not an array has
    none. *)
Definition entries (movies : Value) : list Value :=
  match movies with
  | VArr items => items
  | _ => []
  end.

(** Two movies of the specification's examples. *)
Definition dune : Value :=
  obj [("_id", VStr "m1"); ("name", VStr "Dune"); ("genre", VStr "Sci-Fi");
       ("releaseYear", VNum 2021); ("rating", VNum 8)].

Definition arrival : Value :=
  obj [("_id", VStr "m2"); ("name", VStr "Arrival"); ("genre", VStr "Sci-Fi");
       ("description", VStr "Linguist meets heptapods");
       ("releaseYear", VNum 2016); ("rating", VNum (79 # 10))].

(** *** What the specification says, in its own words *)

(** The text of a field for matching: a missing field counts as the empty
    string. *)
Definition textOf (v : Value) : string :=
  match v with
  | VStr s => s
  | _ => ""
  end.

(** Two characters that are the same letter: the same character, or the
    upper-case and the lower-case form of one of the letters A to Z. *)
Definition sameLetter (c d : ascii) : bool :=
  let m := N_of_ascii c in
  let n := N_of_ascii d in
  ((m =? n) || ((65 <=? m) && (m <=? 90) && (n =? m + 32))
            || ((65 <=? n) && (n <=? 90) && (m =? n + 32)))%N.

(** Two texts that differ at most in the case of their letters. *)
Fixpoint sameText (a b : string) : bool :=
  match a, b with
  | EmptyString, EmptyString => true
  | String c a', String d b' => sameLetter c d && sameText a' b'
  | _, _ => false
  end.

(** [s] occurs in [hay] when letter case is ignored. *)
Definition ciSubstring (s hay : string) : Prop :=
  exists pre mid post,
    hay = pre +:+ mid +:+ post /\ sameText mid s = true.

(** The inclusion rule of the specification. *)
Definition specIncluded (s g : string) (m : Value) : Prop :=
  (s = "" \/ ciSubstring s (textOf (getPropOpt m "name"))
          \/ ciSubstring s (textOf (getPropOpt m "description")))
  /\ (g = "all" \/ g = textOf (getPropOpt m "genre")).

(** A text field as the data model has it: a string, or missing ([undefined],
    [null] or any other value that [||] replaces). *)
Definition optionalText (v : Value) : bool :=
  typeofString v || negb (truthy v).

(** An entry the filter looks into: an object (or array), not a primitive. *)
Definition isRecord (v : Value) : bool :=
  match v with
  | VObj _ | VArr _ => true
  | _ => false
  end.

Definition textFieldsOk (m : Value) : bool :=
  optionalText (getPropOpt m "name")
  && optionalText (getPropOpt m "description")
  && optionalText (getPropOpt m "genre").

(** The test the callback computes on such an entry, for the host's
    [toLowerCase]. *)
Definition includedb (toLowerCase : string -> string) (s g : string)
    (m : Value) : bool :=
  (String.eqb s ""
   || includes (toLowerCase (textOf (getPropOpt m "name"))) (toLowerCase s)
   || includes (toLowerCase (textOf (getPropOpt m "description"))) (toLowerCase s))
  && (String.eqb g "all" || String.eqb (textOf (getPropOpt m "genre")) g).

(** An entry whose name and description are ASCII text. *)
Definition asciiFields (m : Value) : bool :=
  isAscii (textOf (getPropOpt m "name"))
  && isAscii (textOf (getPropOpt m "description")).

End MovieList.

Import MovieList.

(** ** The server controller [movieController.js] *)

Module Server.

(** Document identifiers (ObjectIds, written as strings). *)
Definition Id : Type := string.

(** A stored movie, typed by the schema of [models/Movie.js]; its [_id] is
    the key under which the collection holds it.  [updatedAt] is the stamp
    the schema option [timestamps] renews on every write of the document;
    [others] holds the paths the controller never names ([poster],
    [backdrop], [trailer], [cast], [personalRating], [review], [tags],
    [isPublic]). *)
Record Movie : Type := mkMovie {
  title : string;
  description : string;
  director : string;
  year : Z;
  genres : list string;
  duration : Z;
  rating : Q;
  addedBy : Id;
  watched : bool;
  watchDate : option Z;
  createdAt : Z;
  updatedAt : Z;
  others : gmap string Value
}.

(** Modelled from the spec: [models/User.js] is not among the sources; a user
    holds the running counters [movieCount] and [totalWatchTime] and the
    ordered [watchlist] of movie references, the three fields the controller
    reads and writes. *)
Record User : Type := mkUser {
  movieCount : Z;
  totalWatchTime : Z;
  watchlist : list Id
}.

(** The two collections, each keyed by [_id]. *)
Record Db : Type := mkDb {
  movies : gmap Id Movie;
  users : gmap Id User
}.

(** *** Handlers as state-passing programs

    A handler runs against the database and a fault schedule: every storage
    call consumes one flag and raises when the flag is set.  A failure is a
    rejected storage call, an exception of the handler's own code, or a step
    outside the value model. *)

Inductive Failure : Type := StorageError | ScriptError | Beyond.

Record World : Type := mkWorld { db : Db; faults : list bool }.

Definition M (A : Type) : Type := World -> (Failure + A) * World.

Definition ret {A} (a : A) : M A := fun w => (inr a, w).

Definition fail {A} (f : Failure) : M A := fun w => (inl f, w).

Definition bindM {A B} (m : M A) (k : A -> M B) : M B :=
  fun w =>
    match m w with
    | (inr a, w') => k a w'
    | (inl f, w') => (inl f, w')
    end.

Notation "'let*' x ':=' c 'in' k" := (bindM c (fun x => k))
  (at level 10, x name, c at level 100, k at level 200).

(** A value the model must be able to compute. *)
Definition within {A} (o : option A) : M A :=
  match o with
  | Some a => ret a
  | None => fail Beyond
  end.

(** One awaited storage call. *)
Definition storage {A} (op : Db -> Failure + A * Db) : M A :=
  fun w =>
    match faults w with
    | true :: rest => (inl StorageError, mkWorld (db w) rest)
    | _ =>
        match op (db w) with
        | inr (a, d) => (inr a, mkWorld d (tail (faults w)))
        | inl f => (inl f, mkWorld (db w) (tail (faults w)))
        end
    end.

(** The response envelope: the HTTP status and, on success, the [data]. *)
Record Response (A : Type) : Type := mkResponse {
  status : Z;
  data : option A
}.
Arguments mkResponse {A} status data.
Arguments status {A} r.
Arguments data {A} r.

(** [try { ... } catch (error) { res.status(500)... }]. *)
Definition tryCatch {A} (body : M (Response A)) : M (Response A) :=
  fun w =>
    match body w with
    | (inl StorageError, w') | (inl ScriptError, w') =>
        (inr (mkResponse 500 None), w')
    | other => other
    end.

(** *** Queries *)

Section Engine.

(** What the storage engine makes of a condition on a field other than
    [_id] and [addedBy] (membership in [genres], the cast [year], [watched],
    the [$text] index), and how it orders a result for a [sort] argument. *)
Variable fieldClause : string -> Value -> Movie -> bool.
Variable orderBy : Value -> list (Id * Movie) -> list (Id * Movie).

(** Whether a document that matches a filter still matches it when the
    filter is evaluated without the cast to the schema. *)
Variable uncast : gmap string Value -> Id * Movie -> bool.

(** One condition of a query object against one document. *)
Definition clauseHolds (doc : Id * Movie) (kv : string * Value) : bool :=
  if String.eqb kv.1 "_id" then strictEqStr kv.2 doc.1
  else if String.eqb kv.1 "addedBy" then strictEqStr kv.2 (addedBy doc.2)
  else fieldClause kv.1 kv.2 doc.2.

(** A query object is the conjunction of its conditions. *)
Definition matches (q : gmap string Value) (doc : Id * Movie) : bool :=
  forallb (clauseHolds doc) (map_to_list q).

Definition matching (q : gmap string Value) (d : Db) : list (Id * Movie) :=
  List.filter (matches q) (map_to_list (movies d)).

(** [Movie.find(q).sort(sort).skip(skip).limit(limit)], for a whole
    non-negative [skip] and [limit]; a limit of 0 is no limit. *)
Definition Movie_find (q : gmap string Value) (sort : Value) (skip limit : Z)
  : M (list (Id * Movie)) :=
  storage (fun d =>
    if (0 <=? skip)%Z && (0 <=? limit)%Z then
      let rest := drop (Z.to_nat skip) (orderBy sort (matching q d)) in
      inr (if (limit =? 0)%Z then rest else take (Z.to_nat limit) rest, d)
    else inl Beyond).

Definition Movie_countDocuments (q : gmap string Value) : M Z :=
  storage (fun d => inr (Z.of_nat (length (matching q d)), d)).

Definition Movie_findOne (q : gmap string Value) : M (option (Id * Movie)) :=
  storage (fun d => inr (head (matching q d), d)).

(** [Movie.create]: the driver draws the [_id]; a taken [_id] is a
    duplicate-key error. *)
Definition Movie_create (newId : Id) (m : Movie) : M (Id * Movie) :=
  storage (fun d =>
    match movies d !! newId with
    | Some _ => inl StorageError
    | None => inr ((newId, m), mkDb (<[newId := m]> (movies d)) (users d))
    end).

Definition Movie_findOneAndUpdate (q : gmap string Value)
    (update : Movie -> Movie) : M (option (Id * Movie)) :=
  storage (fun d =>
    match head (matching q d) with
    | Some (i, m) =>
        inr (Some (i, update m), mkDb (<[i := update m]> (movies d)) (users d))
    | None => inr (None, d)
    end).

Definition Movie_findOneAndDelete (q : gmap string Value)
  : M (option (Id * Movie)) :=
  storage (fun d =>
    match head (matching q d) with
    | Some (i, m) => inr (Some (i, m), mkDb (delete i (movies d)) (users d))
    | None => inr (None, d)
    end).

Definition Movie_save (i : Id) (m : Movie) : M unit :=
  storage (fun d => inr (tt, mkDb (<[i := m]> (movies d)) (users d))).

Definition User_findById (uid : Id) : M (option User) :=
  storage (fun d => inr (users d !! uid, d)).

(** [User.findByIdAndUpdate(uid, { $inc: { movieCount, totalWatchTime } })]. *)
Definition User_findByIdAndUpdate_inc (uid : Id) (dCount dTime : Z) : M unit :=
  storage (fun d =>
    inr (tt, mkDb (movies d)
               (alter (fun u => mkUser (movieCount u + dCount)
                                       (totalWatchTime u + dTime)
                                       (watchlist u)) uid (users d)))).

Definition User_save (uid : Id) (u : User) : M unit :=
  storage (fun d => inr (tt, mkDb (movies d) (<[uid := u]> (users d)))).

(** *** [getMovies] *)

(** A destructured request parameter with its default. *)
Definition param (reqQuery : gmap string Value) (k : string) (dflt : Value)
  : Value :=
  match reqQuery !! k with
  | Some VUndefined | None => dflt
  | Some v => v
  end.

(** The query object (lines 21-41). *)
Definition buildQuery (uid : Id) (reqQuery : gmap string Value)
  : gmap string Value :=
  let genre := param reqQuery "genre" VUndefined in
  let year := param reqQuery "year" VUndefined in
  let search := param reqQuery "search" VUndefined in
  let watched := param reqQuery "watched" VUndefined in
  let query := {[ "addedBy" := VStr uid ]} in
  let query := if truthy genre then <["genres" := genre]> query else query in
  let query := if truthy year then <["year" := year]> query else query in
  let query :=
    match watched with
    | VUndefined => query
    | _ => <["watched" := VBool (strictEqStr watched "true")]> query
    end in
  if truthy search then <["$text" := obj [("$search", search)]]> query
  else query.

(** [(page - 1) * limit]. *)
Definition skipOf (page limit : Value) : option Q :=
  p ← toNumber page; l ← toNumber limit; Some ((p - 1) * l)%Q.

(** The number of pages of the envelope: a whole number, or what a
    division by zero leaves, which JSON prints as [null]. *)
Inductive Pages : Type :=
| Whole (n : Z)
| Infinity
| NaN.

(** [Math.ceil(total / limit)], for a [total] that is a count. *)
Definition pagesOf (total : Z) (limit : Value) : option Pages :=
  l ← toNumber limit;
  if Qeq_bool l 0
  then Some (if (total =? 0)%Z then NaN else Infinity)
  else Some (Whole (Qceiling (inject_Z total / l))).

Definition sumZ (l : list Z) : Z := foldr Z.add 0%Z l.
Definition sumQ (l : list Q) : Q := foldr Qplus 0%Q l.

(** [$avg] over a non-empty group. *)
Definition average (l : list Q) : Q := (sumQ l / inject_Z (Z.of_nat (length l)))%Q.

Definition genreArray (gs : list string) : Value := VArr (VStr <$> gs).

(** The [$group] stage with [_id: null]: one group when there is at least
    one input document, none otherwise. *)
Definition groupSummary (docs : list (Id * Movie)) : list Value :=
  match docs with
  | [] => []
  | _ =>
      [obj [("_id", VNull);
            ("totalMovies", VNum (inject_Z (Z.of_nat (length docs))));
            ("avgRating", VNum (average ((fun d => rating d.2) <$> docs)));
            ("totalRuntime", VNum (inject_Z (sumZ ((fun d => duration d.2) <$> docs))));
            ("genres", VArr (genreArray <$>
                               remove_dups ((fun d => genres d.2) <$> docs)))]]
  end.

(** What the [$match] stage of a pipeline selects.  The filter of a query
    is cast to the schema before it is sent; a pipeline is sent as it is,
    so a condition whose value has another type than the stored path (an
    identifier given as a string against an [ObjectId], a year given as a
    string against a number) selects nothing in [$match] where it selects
    in [find].  [$match] therefore keeps, of the documents [find] would
    select, those the engine still matches without the cast. *)
Definition aggregated (q : gmap string Value) (d : Db) : list (Id * Movie) :=
  List.filter (uncast q) (matching q d).

(** [Movie.aggregate([{ $match: q }, ...stages])]. *)
Definition Movie_aggregate {A} (q : gmap string Value)
    (pipeline : list (Id * Movie) -> A) : M A :=
  storage (fun d => inr (pipeline (aggregated q d), d)).

Definition statsDefault : Value :=
  obj [("totalMovies", VNum 0); ("avgRating", VNum 0);
       ("totalRuntime", VNum 0); ("genres", VArr [])].

(** [arr[0]]. *)
Definition first (l : list Value) : Value := default VUndefined (head l).

Record Pagination : Type := mkPagination {
  page : Z; limit : Z; total : Z; pages : Pages
}.

Record ListData : Type := mkListData {
  listMovies : list (Id * Movie);
  pagination : Pagination;
  stats : Value
}.

Definition getMovies (uid : Id) (reqQuery : gmap string Value)
  : M (Response ListData) :=
  tryCatch (
    let page := param reqQuery "page" (VNum 1) in
    let limit := param reqQuery "limit" (VNum 10) in
    let sort := param reqQuery "sort" (VStr "-createdAt") in
    let query := buildQuery uid reqQuery in
    let* skip := within (skipOf page limit ≫= asInteger) in
    let* limitN := within (parseInt limit) in
    let* found := Movie_find query sort skip limitN in
    let* total := Movie_countDocuments query in
    let* stats := Movie_aggregate query groupSummary in
    let* pageN := within (parseInt page) in
    let* pages := within (pagesOf total limit) in
    ret (mkResponse 200 (Some
      (mkListData found (mkPagination pageN limitN total pages)
                  (orElse (first stats) statsDefault))))).

(** *** Single-movie handlers *)

(** [{ _id: req.params.id, addedBy: req.user.id }]. *)
Definition ownedQuery (uid id : Id) : gmap string Value :=
  <["addedBy" := VStr uid]> {[ "_id" := VStr id ]}.

Definition getMovie (uid id : Id) : M (Response (Id * Movie)) :=
  tryCatch (
    let* movie := Movie_findOne (ownedQuery uid id) in
    match movie with
    | None => ret (mkResponse 404 None)
    | Some m => ret (mkResponse 200 (Some m))
    end).

(** [movie.duration || 0]. *)
Definition orZero (n : Z) : Z := if (n =? 0)%Z then 0%Z else n.

(** [{ ...req.body, addedBy: req.user.id }]: an [addedBy] sent in the
    body is overwritten. *)
Definition withOwner (body : Movie) (uid : Id) : Movie :=
  mkMovie (title body) (description body) (director body) (year body)
          (genres body) (duration body) (rating body) uid
          (watched body) (watchDate body) (createdAt body) (updatedAt body)
          (others body).

(** [createMovie]; [errors] is what the route's validation chain reported,
    [body] the request body read through the schema, [newId] the [_id] the
    driver draws. *)
Definition createMovie (uid : Id) (errors : list string) (body : Movie)
    (newId : Id) : M (Response (Id * Movie)) :=
  tryCatch (
    match errors with
    | _ :: _ => ret (mkResponse 400 None)
    | [] =>
        let movieData := withOwner body uid in
        let* movie := Movie_create newId movieData in
        let* _ := User_findByIdAndUpdate_inc uid 1 (orZero (duration movie.2)) in
        ret (mkResponse 201 (Some movie))
    end).

(** [updateMovie]; [update] is the effect of the request body, and of the
    stamp the write renews, on the fields of a document. *)
Definition updateMovie (uid id : Id) (errors : list string)
    (update : Movie -> Movie) : M (Response (Id * Movie)) :=
  tryCatch (
    match errors with
    | _ :: _ => ret (mkResponse 400 None)
    | [] =>
        let* movie := Movie_findOneAndUpdate (ownedQuery uid id) update in
        match movie with
        | None => ret (mkResponse 404 None)
        | Some m => ret (mkResponse 200 (Some m))
        end
    end).

Definition deleteMovie (uid id : Id) : M (Response unit) :=
  tryCatch (
    let* movie := Movie_findOneAndDelete (ownedQuery uid id) in
    match movie with
    | None => ret (mkResponse 404 None)
    | Some m =>
        let* _ := User_findByIdAndUpdate_inc uid (-1) (- orZero (duration m.2)) in
        ret (mkResponse 200 (Some tt))
    end).

(** [toggleWatchStatus]; [now] is [Date.now()], [stamp] the time
    [movie.save()] writes to [updatedAt]. *)
Definition toggleWatchStatus (uid id : Id) (now stamp : Z)
  : M (Response (Id * Movie)) :=
  tryCatch (
    let* movie := Movie_findOne (ownedQuery uid id) in
    match movie with
    | None => ret (mkResponse 404 None)
    | Some (i, m) =>
        let w := negb (watched m) in
        let m' :=
          mkMovie (title m) (description m) (director m) (year m) (genres m)
                  (duration m) (rating m) (addedBy m) w
                  (if w then Some now else None) (createdAt m) stamp
                  (others m) in
        let* _ := Movie_save i m' in
        ret (mkResponse 200 (Some (i, m')))
    end).

(** [addToWatchlist] (lines 289-315). *)
Definition addToWatchlist (uid id : Id) : M (Response unit) :=
  tryCatch (
    let* found := User_findById uid in
    match found with
    | None => fail ScriptError
    | Some user =>
        if bool_decide (id ∈ watchlist user) then ret (mkResponse 400 None)
        else
          let user' := mkUser (movieCount user) (totalWatchTime user)
                              (watchlist user ++ [id]) in
          let* _ := User_save uid user' in
          ret (mkResponse 200 (Some tt))
    end).

(** *** [getOverviewStats] *)

Definition countIf {A} (p : A -> bool) (l : list A) : Z :=
  Z.of_nat (length (List.filter p l)).

Definition groupOverview (docs : list (Id * Movie)) : list Value :=
  match docs with
  | [] => []
  | _ =>
      [obj [("_id", VNull);
            ("totalMovies", VNum (inject_Z (Z.of_nat (length docs))));
            ("avgRating", VNum (average ((fun d => rating d.2) <$> docs)));
            ("totalRuntime", VNum (inject_Z (sumZ ((fun d => duration d.2) <$> docs))));
            ("watchedCount", VNum (inject_Z (countIf (fun d => watched d.2) docs)))]]
  end.

(** [$group] by a key with [count: {$sum: 1}]: one group per distinct key. *)
Definition groupCount {K} `{EqDecision K} (keys : list K) : list (K * Z) :=
  (fun k => (k, countIf (fun k' => bool_decide (k' = k)) keys))
    <$> remove_dups keys.

(** [$sort] on a numeric rank, descending. *)
Fixpoint insertDesc {A} (rank : A -> Z) (x : A) (l : list A) : list A :=
  match l with
  | [] => [x]
  | y :: t => if (rank y <=? rank x)%Z then x :: y :: t
              else y :: insertDesc rank x t
  end.

Definition sortDesc {A} (rank : A -> Z) (l : list A) : list A :=
  foldr (insertDesc rank) [] l.

(** [$unwind genres], [$group], [$sort count desc], [$limit 5]. *)
Definition genrePipeline (docs : list (Id * Movie)) : list Value :=
  (fun g => obj [("_id", VStr g.1); ("count", VNum (inject_Z g.2))])
    <$> take 5 (sortDesc snd
                  (groupCount (docs ≫= (fun d => genres d.2)))).

(** [$group] by year, [$sort _id desc], [$limit 5]. *)
Definition yearPipeline (docs : list (Id * Movie)) : list Value :=
  (fun g => obj [("_id", VNum (inject_Z g.1)); ("count", VNum (inject_Z g.2))])
    <$> take 5 (sortDesc fst (groupCount ((fun d => year d.2) <$> docs))).

Definition overviewDefault : Value :=
  obj [("totalMovies", VNum 0); ("avgRating", VNum 0);
       ("totalRuntime", VNum 0); ("watchedCount", VNum 0)].

Record OverviewData : Type := mkOverviewData {
  overview : Value;
  topGenres : list Value;
  recentYears : list Value
}.

Definition getOverviewStats (uid : Id) : M (Response OverviewData) :=
  tryCatch (
    let match_ := {[ "addedBy" := VStr uid ]} in
    let* stats := Movie_aggregate match_ groupOverview in
    let* genreStats := Movie_aggregate match_ genrePipeline in
    let* yearStats := Movie_aggregate match_ yearPipeline in
    ret (mkResponse 200 (Some
      (mkOverviewData (orElse (first stats) overviewDefault)
                      genreStats yearStats)))).

End Engine.

(** *** Ownership and the owner's counters, as the specification words them *)

(** The query carries the condition "owned by [uid]". *)
Definition scoped (uid : Id) (q : gmap string Value) : Prop :=
  q !! "addedBy" = Some (VStr uid).

(** The owned-movie set of [uid]. *)
Definition owned (uid : Id) (d : Db) : list (Id * Movie) :=
  filter (fun doc => addedBy doc.2 = uid) (map_to_list (movies d)).

(** The counters of every user track that user's owned-movie set. *)
Definition tracks (d : Db) : Prop :=
  forall uid u, users d !! uid = Some u ->
    movieCount u = Z.of_nat (length (owned uid d))
    /\ totalWatchTime u = sumZ ((fun doc => duration doc.2) <$> owned uid d).

(** [addToWatchlist] for each identifier of a list in turn, whatever each
    call answers. *)
Fixpoint addAllToWatchlist (uid : Id) (ids : list Id) (w : World) : World :=
  match ids with
  | [] => w
  | id :: rest => addAllToWatchlist uid rest (addToWatchlist uid id w).2
  end.

(** *** An engine and a database for worked examples *)

Definition plainClause (k : string) (v : Value) (m : Movie) : bool :=
  if String.eqb k "genres" then
    match v with
    | VStr g => bool_decide (g ∈ genres m)
    | _ => false
    end
  else if String.eqb k "year" then
    match toNumber v with
    | Some y => Qeq_bool y (inject_Z (year m))
    | None => false
    end
  else if String.eqb k "watched" then
    match v with
    | VBool b => Bool.eqb b (watched m)
    | _ => false
    end
  else false.

(** Newest first, whatever the [sort] argument. *)
Definition newestFirst (sort : Value) (l : list (Id * Movie))
  : list (Id * Movie) :=
  sortDesc (fun doc => createdAt doc.2) l.

(** An engine that matches in a pipeline what it matches in a query (the
    pipeline is given values of the stored types), and one that is handed
    the owner as a string against stored [ObjectId]s. *)
Definition sameTypes (q : gmap string Value) (doc : Id * Movie) : bool := true.

Definition stringOwner (q : gmap string Value) (doc : Id * Movie) : bool :=
  match q !! "addedBy" with
  | Some _ => false
  | None => true
  end.

Definition sampleMovie (owner : Id) (n : Z) : Movie :=
  mkMovie "Sample" "A sample movie" "Somebody" (2000 + n) ["Drama"] 100 7
          owner false None n n ∅.

Definition sampleDb : Db :=
  mkDb (list_to_map
          [("m01", sampleMovie "u1" 1); ("m02", sampleMovie "u1" 2);
           ("m03", sampleMovie "u1" 3); ("m04", sampleMovie "u1" 4);
           ("m05", sampleMovie "u1" 5); ("m06", sampleMovie "u1" 6);
           ("m07", sampleMovie "u1" 7); ("m08", sampleMovie "u1" 8);
           ("m09", sampleMovie "u1" 9); ("m10", sampleMovie "u1" 10);
           ("m11", sampleMovie "u1" 11); ("m12", sampleMovie "u1" 12);
           ("m13", sampleMovie "u1" 13); ("m14", sampleMovie "u1" 14);
           ("m15", sampleMovie "u1" 15); ("x01", sampleMovie "u2" 16)])
       (list_to_map
          [("u1", mkUser 15 1500 ["m03"]); ("u2", mkUser 1 100 []);
           ("u3", mkUser 0 0 [])]).

End Server.

Import Server.

(** ** More of the client component [MovieList] *)

Module MovieListMore.

(** *** [fetchMovies] (lines 17-71) *)

(** What [await movieAPI.getAllMovies()] does: it hands over a value, or
    it raises; what is raised is any value (an [Error] object is an object
    with a [message]). *)
Inductive ApiOutcome : Type :=
| Resolved (data : Value)
| Rejected (reason : Value).

(** The three pieces of state the function sets. *)
Record FetchState : Type := mkFetchState {
  moviesState : Value;
  loadingState : bool;
  errorState : string
}.

(** The state once the function has run to its [finally], and whether the
    function itself ended by raising. *)
Record FetchResult : Type := mkFetchResult {
  stateAfter : FetchState;
  raised : bool
}.

(** [typeof v]. *)
Definition typeofName (v : Value) : string :=
  match v with
  | VUndefined => "undefined"
  | VNull | VObj _ | VArr _ => "object"
  | VBool _ => "boolean"
  | VNum _ => "number"
  | VStr _ => "string"
  end.

(** How a template literal prints a truthy value, for the values whose
    text the model has: a string and [true]. *)
Definition templateText (v : Value) : option string :=
  match v with
  | VStr s => Some s
  | VBool true => Some "true"
  | _ => None
  end.

(** The banner text of the [catch] block for the caught value [err]:
    reading [err.message] raises when [err] is [null] or [undefined];
    [None] when the message prints outside the model. *)
Definition failureText (err : Value) : Res (option string) :=
  message <- getProp err "message" ;;
  Ok (text ← templateText (orElse message (VStr "Please try again later."));
      Some ("Failed to load movies: " +:+ text)).

(** The [catch] block and the [finally] after it, from the state [prev] in
    which the function was called: [setError('')] has run, so a [catch]
    that raises leaves the banner empty and the movies as they were. *)
Definition caught (prev : FetchState) (err : Value) : option FetchResult :=
  match failureText err with
  | Throw _ =>
      Some (mkFetchResult (mkFetchState (moviesState prev) false "") true)
  | Ok None => None
  | Ok (Some text) =>
      Some (mkFetchResult (mkFetchState (VArr []) false text) false)
  end.

Section Fetch.

(** [Object.values] lists the values in property order, which the object
    model does not keep: the listing is left to the host. *)
Variable objectValues : gmap string Value -> list Value.

(** The body of the [try] block up to [setMovies]: the array to store, or
    the message of the error it throws. *)
Definition extractMovies (data : Value) : string + Value :=
  let moviesArray :=
    if isArray data then inr data
    else if truthy data && typeofObject data then
      if isArray (getPropOpt data "data") then inr (getPropOpt data "data")
      else if isArray (getPropOpt data "movies") then inr (getPropOpt data "movies")
      else if isArray (getPropOpt data "results") then inr (getPropOpt data "results")
      else inr (VArr (objectValues
                        match data with VObj fields => fields | _ => ∅ end))
    else if nullish data then inr (VArr [])
    else inl ("Unexpected response format: " +:+ typeofName data) in
  match moviesArray with
  | inr arr => if isArray arr then inr arr else inr (VArr [])
  | inl message => inl message
  end.

(** [fetchMovies] called in the state [prev]. *)
Definition fetchMovies (prev : FetchState) (outcome : ApiOutcome)
  : option FetchResult :=
  match outcome with
  | Resolved data =>
      match extractMovies data with
      | inr arr => Some (mkFetchResult (mkFetchState arr false "") false)
      | inl message => caught prev (obj [("message", VStr message)])
      end
  | Rejected reason => caught prev reason
  end.

End Fetch.

(** *** The footer (lines 323-338) *)

(** ToNumber of every argument of [Math.min] or [Math.max]. *)
Fixpoint numbersOf (vs : list Value) : option (list Q) :=
  match vs with
  | [] => Some []
  | v :: t => x ← toNumber v; xs ← numbersOf t; Some (x :: xs)
  end.

(** [Math.min(...vs)] and [Math.max(...vs)] of at least one argument. *)
Definition mathMin (vs : list Value) : option Q :=
  xs ← numbersOf vs;
  match xs with
  | [] => None
  | x :: t => Some (foldl Qmin x t)
  end.

Definition mathMax (vs : list Value) : option Q :=
  xs ← numbersOf vs;
  match xs with
  | [] => None
  | x :: t => Some (foldl Qmax x t)
  end.

(** The year range of the footer, shown when the view is not empty;
    [None] when the view is empty or a year is outside the number model. *)
Definition yearRange (visible : list Value) : option (Q * Q) :=
  let years :=
    map (fun m => orElse (getPropOpt m "releaseYear") (VNum 0)) visible in
  lo ← mathMin years;
  hi ← mathMax years;
  Some (lo, hi).

(** The year of a movie as the footer reads it. *)
Definition yearOf (m : Value) : option Q :=
  toNumber (orElse (getPropOpt m "releaseYear") (VNum 0)).

(** *** Words for the properties of the filter and the folds *)

(** [movieGenre === filterGenre], with [movieGenre = movie.genre || '']. *)
Definition genreMatches (g : string) (m : Value) : bool :=
  String.eqb g "all" || strictEqStr (orElse (getPropOpt m "genre") (VStr "")) g.

(** *** Words for the properties of the sort *)

(** The number a movie is sorted by under the keys "year" and "rating". *)
Definition sortKey (sortBy : string) (m : Value) : option Q :=
  if String.eqb sortBy "year"
  then toNumber (orElse (getPropOpt m "releaseYear") (VNum 0))
  else if String.eqb sortBy "rating"
  then toNumber (orElse (getPropOpt m "rating") (VNum 0))
  else None.

Definition hasSortKey (sortBy : string) (m : Value) : bool :=
  match sortKey sortBy m with
  | Some _ => true
  | None => false
  end.

(** [a] may stand before [b] when sorting ascending by [sortBy]. *)
Definition keyLe (sortBy : string) (a b : Value) : Prop :=
  exists x y, sortKey sortBy a = Some x /\ sortKey sortBy b = Some y /\ (x <= y)%Q.

(** The movies whose key is [k]. *)
Definition keyIs (sortBy : string) (k : Q) (m : Value) : bool :=
  match sortKey sortBy m with
  | Some x => Qeq_bool x k
  | None => false
  end.

End MovieListMore.

Import MovieListMore.

(** ** Words for more properties of the controller *)

Module ServerMore.

(** A handler that leaves the database as it found it. *)
Definition readOnly {A} (c : M A) : Prop := forall w, db (c w).2 = db w.

(** Every user's watchlist is in [d'] what it is in [d]. *)
Definition keepsWatchlists (d d' : Db) : Prop :=
  forall uid, watchlist <$> users d' !! uid = watchlist <$> users d !! uid.

(** A movie with another [watchDate] and another [updatedAt]. *)
Definition restamped (m : Movie) (wd : option Z) (stamp : Z) : Movie :=
  mkMovie (title m) (description m) (director m) (year m) (genres m)
          (duration m) (rating m) (addedBy m) (watched m) wd (createdAt m)
          stamp (others m).



(** *** The virtual [formattedDuration] of [models/Movie.js] (lines 130-134)

    [Math.floor(duration / 60)] is the floor quotient and [duration % 60]
    the remainder with the sign of the dividend; a whole number prints in
    decimal. *)
Definition formattedDuration (m : Movie) : string :=
  let hours := (duration m / 60)%Z in
  let minutes := Z.rem (duration m) 60 in
  if (0 <? hours)%Z
  then pretty hours +:+ "h " +:+ pretty minutes +:+ "m"
  else pretty minutes +:+ "m".

(** A decimal digit, and a string of decimal digits. *)
Definition isDigit (c : ascii) : bool :=
  match digitOf c with
  | Some _ => true
  | None => false
  end.

Fixpoint allDigits (s : string) : bool :=
  match s with
  | EmptyString => true
  | String c t => isDigit c && allDigits t
  end.

End ServerMore.

Import ServerMore.

(** * Properties *)

(** ** Strings *)

Module StringFacts.

Lemma startsWith_spec (s p : string) :
  startsWith s p = true <-> exists rest, s = p +:+ rest.
Proof.
  revert s. induction p as [|a p IH]; intros s; simpl.
  - split; [intros _; by exists s | done].
  - destruct s as [|b s].
    + split; [done | intros [rest Hrest]; discriminate].
    + rewrite andb_true_iff, IH. split.
      * intros [Hab [rest ->]]. apply Ascii.eqb_eq in Hab as ->. by exists rest.
      * intros [rest Hrest]. injection Hrest as -> ->.
        split; [apply Ascii.eqb_refl | by exists rest].
Qed.

Lemma includes_spec (hay needle : string) :
  includes hay needle = true <-> exists pre post, hay = pre +:+ needle +:+ post.
Proof.
  induction hay as [|c hay IH]; simpl.
  - rewrite orb_false_r, startsWith_spec. split.
    + intros [rest ->]. by exists "", rest.
    + intros [pre [post H]]. destruct pre; [by exists post | discriminate].
  - rewrite orb_true_iff, startsWith_spec, IH. split.
    + intros [[rest ->] | [pre [post ->]]].
      * by exists "", rest.
      * by exists (String c pre), post.
    + intros [pre [post H]]. destruct pre as [|c' pre]; simpl in H.
      * left. by exists post.
      * right. injection H as -> ->. by exists pre, post.
Qed.

Lemma asciiLowerCase_app (a b : string) :
  asciiLowerCase (a +:+ b) = asciiLowerCase a +:+ asciiLowerCase b.
Proof. induction a as [|c a IH]; simpl; [done | by rewrite IH]. Qed.

Lemma asciiLowerCase_split (h p q : string) :
  asciiLowerCase h = p +:+ q ->
  exists a b, h = a +:+ b /\ asciiLowerCase a = p /\ asciiLowerCase b = q.
Proof.
  revert h. induction p as [|c p IH]; intros h H; simpl in H.
  - by exists "", h.
  - destruct h as [|d h]; [discriminate |]. simpl in H. injection H as Hc Hh.
    destruct (IH h Hh) as (a & b & -> & <- & <-).
    exists (String d a), b. simpl. by rewrite Hc.
Qed.

Lemma N_of_ascii_bound (c : ascii) : (N_of_ascii c < 256)%N.
Proof. by destruct c as [[] [] [] [] [] [] [] []]. Qed.

Lemma N_of_lowerChar (c : ascii) :
  N_of_ascii (lowerChar c)
  = (if (65 <=? N_of_ascii c) && (N_of_ascii c <=? 90)
     then N_of_ascii c + 32 else N_of_ascii c)%N.
Proof.
  unfold lowerChar.
  destruct ((65 <=? N_of_ascii c)%N && (N_of_ascii c <=? 90)%N) eqn:Hc; [| done].
  apply N_ascii_embedding. apply andb_true_iff in Hc as [_ Hc].
  apply N.leb_le in Hc. lia.
Qed.

(** Two characters fold to the same character exactly when they are the
    same letter. *)
Lemma sameLetter_spec (c d : ascii) :
  sameLetter c d = true <-> lowerChar c = lowerChar d.
Proof.
  split.
  - intros H. rewrite <- (ascii_N_embedding (lowerChar c)),
      <- (ascii_N_embedding (lowerChar d)). f_equal.
    rewrite !N_of_lowerChar. unfold sameLetter in H.
    repeat match goal with
    | |- context [(?a <=? ?b)%N] => destruct (N.leb_spec a b)
    | H : context [(?a <=? ?b)%N] |- _ => destruct (N.leb_spec a b)
    | H : context [(?a =? ?b)%N] |- _ => destruct (N.eqb_spec a b)
    end; simpl in *; try done; lia.
  - intros H. apply (f_equal N_of_ascii) in H. rewrite !N_of_lowerChar in H.
    unfold sameLetter.
    repeat match goal with
    | |- context [(?a <=? ?b)%N] => destruct (N.leb_spec a b)
    | H : context [(?a <=? ?b)%N] |- _ => destruct (N.leb_spec a b)
    | |- context [(?a =? ?b)%N] => destruct (N.eqb_spec a b)
    end; simpl in *; try done; lia.
Qed.

Lemma sameText_spec (a b : string) :
  sameText a b = true <-> asciiLowerCase a = asciiLowerCase b.
Proof.
  revert b. induction a as [|c a IH]; intros [|d b]; simpl; try done.
  rewrite andb_true_iff, sameLetter_spec, IH. split.
  - by intros [-> ->].
  - by intros [= -> ->].
Qed.

(** The test of the source, on ASCII folding, decides containment with the
    case of letters ignored. *)
Lemma includes_lower_spec (s hay : string) :
  includes (asciiLowerCase hay) (asciiLowerCase s) = true <-> ciSubstring s hay.
Proof.
  rewrite includes_spec. unfold ciSubstring. split.
  - intros (pre & post & H).
    apply asciiLowerCase_split in H as (a & rest & -> & _ & H).
    apply asciiLowerCase_split in H as (b & c & -> & Hb & _).
    exists a, b, c. split; [done |]. by apply sameText_spec.
  - intros (pre & mid & post & -> & Hmid%sameText_spec).
    exists (asciiLowerCase pre), (asciiLowerCase post).
    by rewrite !asciiLowerCase_app, Hmid.
Qed.

End StringFacts.

(** ** The client component *)

Module MovieListFacts.

Import StringFacts.

Lemma orElse_text (v : Value) :
  optionalText v = true -> orElse v (VStr "") = VStr (textOf v).
Proof.
  unfold optionalText, orElse. destruct v as [| |b|q|s| |]; simpl; try done.
  - by destruct b.
  - by destruct (Qeq_bool q 0).
  - intros _. destruct (String.eqb_spec s ""); simpl; congruence.
Qed.

Lemma getProp_record (m : Value) (k : string) :
  isRecord m = true -> getProp m k = Ok (getPropOpt m k).
Proof. by destruct m. Qed.

(** On an object whose text fields are strings or missing the callback
    returns, and returns the inclusion test. *)
Lemma filterCallback_record {toLowerCase : string -> string}
    (s g : string) (m : Value) :
  isRecord m = true -> textFieldsOk m = true ->
  filterCallback toLowerCase s g m = Ok (includedb toLowerCase s g m).
Proof.
  intros Hrec Hok. unfold textFieldsOk in Hok.
  apply andb_true_iff in Hok as [Hok Hg]. apply andb_true_iff in Hok as [Hn Hd].
  unfold filterCallback, includedb.
  replace (negb (truthy m) || negb (typeofObject m)) with false
    by (by destruct m).
  rewrite !getProp_record by done. simpl.
  rewrite (orElse_text _ Hn), (orElse_text _ Hd), (orElse_text _ Hg). simpl.
  destruct (String.eqb s ""); simpl; [done |].
  destruct (includes _ _); simpl; [done |]. done.
Qed.

(** Anything that is not an object is dropped without a property read. *)
Lemma filterCallback_other {toLowerCase : string -> string}
    (s g : string) (m : Value) :
  isRecord m = false -> filterCallback toLowerCase s g m = Ok false.
Proof.
  destruct m; try done; intros _; unfold filterCallback; simpl;
    by rewrite orb_true_r.
Qed.

Lemma filterM_pure (f : Value -> Res bool) (p : Value -> bool) (l : list Value) :
  (forall m, m ∈ l -> f m = Ok (p m)) -> filterM f l = Ok (List.filter p l).
Proof.
  induction l as [|x l IH]; intros H; simpl; [done |].
  rewrite (H x) by left. simpl. rewrite IH by (intros; apply H; by right).
  simpl. by destruct (p x).
Qed.

Lemma filter_sublist {A} (p : A -> bool) (l : list A) :
  sublist (List.filter p l) l.
Proof.
  induction l as [|x l IH]; simpl; [constructor |].
  destruct (p x); by constructor.
Qed.

Lemma filteredMovies_run {toLowerCase : string -> string}
    (C : list Value) (s g : string) :
  (forall m, m ∈ C -> isRecord m = true -> textFieldsOk m = true) ->
  filteredMovies toLowerCase (VArr C) s g
  = Ok (List.filter (fun m => isRecord m && includedb toLowerCase s g m) C).
Proof.
  intros H. unfold filteredMovies.
  destruct C as [|x C]; [done |]. cbn [length Nat.eqb].
  apply filterM_pure. intros m Hm.
  destruct (isRecord m) eqn:Hrec; simpl.
  - by apply filterCallback_record, H.
  - by apply filterCallback_other.
Qed.

(** On ASCII text the test of the code is the inclusion rule of the
    specification, for every host: every host folds ASCII text alike. *)
Lemma includedb_spec (toLowerCase : string -> string) (s g : string) (m : Value) :
  (forall t, isAscii t = true -> toLowerCase t = asciiLowerCase t) ->
  isAscii s = true -> asciiFields m = true ->
  includedb toLowerCase s g m = true <-> specIncluded s g m.
Proof.
  intros Hhost Hs [Hn Hd]%andb_true_iff.
  unfold includedb, specIncluded.
  rewrite (Hhost _ Hs), (Hhost _ Hn), (Hhost _ Hd).
  rewrite andb_true_iff, !orb_true_iff, !includes_lower_spec, !String.eqb_eq.
  intuition congruence.
Qed.

(** C1, as the code has it.  On every collection whose movies have their
    name, description and genre either missing or a string, the filter of
    the derived view returns (it never raises) and keeps, in collection
    order, exactly the object entries for which the search term is empty
    or, both sides put in lower case by the host, occurs in the name or in
    the description, and the genre filter is "all" or equal to the genre; a
    missing field counts as the empty string.  For a search term and texts
    within ASCII, which every host folds alike, these are exactly the
    movies in whose name or description the search term occurs with the
    case of letters ignored. *)
Theorem C1_filter_includes_exactly
    (toLowerCase : string -> string) (movies : Value) (s g : string) :
  (forall t, isAscii t = true -> toLowerCase t = asciiLowerCase t) ->
  (forall m, m ∈ entries movies -> isRecord m = true -> textFieldsOk m = true) ->
  exists out,
    filteredMovies toLowerCase movies s g = Ok out
    /\ sublist out (entries movies)
    /\ (forall m, m ∈ out <->
          m ∈ entries movies /\ isRecord m = true
          /\ includedb toLowerCase s g m = true)
    /\ (isAscii s = true ->
        forall m, asciiFields m = true ->
          (m ∈ out <->
           m ∈ entries movies /\ isRecord m = true /\ specIncluded s g m)).
Proof.
  intros Hhost H.
  assert (filteredMovies toLowerCase movies s g
          = Ok (List.filter (fun m => isRecord m && includedb toLowerCase s g m)
                            (entries movies))) as Hrun.
  { destruct movies; try done. by apply filteredMovies_run. }
  assert (forall m,
            m ∈ List.filter (fun m => isRecord m && includedb toLowerCase s g m)
                            (entries movies) <->
            m ∈ entries movies /\ isRecord m = true
            /\ includedb toLowerCase s g m = true) as Hkept.
  { intros m.
    by rewrite list_elem_of_In, filter_In, <- list_elem_of_In, andb_true_iff. }
  eexists. split; [exact Hrun |].
  split; [apply filter_sublist |]. split; [exact Hkept |].
  intros Hs m Hm. rewrite Hkept. by rewrite (includedb_spec _ _ _ _ Hhost Hs Hm).
Qed.

Lemma C1_filter_includes_exactly_witness :
  exists out,
    filteredMovies asciiLowerCase (VArr [dune; arrival; VNull]) "DUN" "Sci-Fi"
    = Ok out
    /\ sublist out [dune; arrival; VNull]
    /\ (forall m, m ∈ out <->
          m ∈ [dune; arrival; VNull] /\ isRecord m = true
          /\ includedb asciiLowerCase "DUN" "Sci-Fi" m = true)
    /\ (isAscii "DUN" = true ->
        forall m, asciiFields m = true ->
          (m ∈ out <->
           m ∈ [dune; arrival; VNull] /\ isRecord m = true
           /\ specIncluded "DUN" "Sci-Fi" m)).
Proof.
  apply (C1_filter_includes_exactly asciiLowerCase (VArr [dune; arrival; VNull])).
  - reflexivity.
  - intros m Hm Hrec.
    apply elem_of_cons in Hm as [-> | Hm]; [reflexivity |].
    apply elem_of_cons in Hm as [-> | Hm]; [reflexivity |].
    apply elem_of_cons in Hm as [-> | Hm]; [discriminate |].
    by apply elem_of_nil in Hm.
Defined.

(** The claim as stated fails: a collection is whatever the fetch layer
    handed over, and one entry whose name is a number makes the whole
    filter raise, although the search term occurs in the name of another
    movie. *)
Lemma C1_counterexample :
  let odd := obj [("name", VNum 7)] in
  specIncluded "dun" "all" dune
  /\ filteredMovies asciiLowerCase (VArr [dune; odd]) "dun" "all"
     = Throw TypeError
  /\ ~ (exists out,
         filteredMovies asciiLowerCase (VArr [dune; odd]) "dun" "all" = Ok out
         /\ dune ∈ out).
Proof.
  intros odd. split; [| split].
  - split; [| by left]. right. left. by exists "", "Dun", "e".
  - vm_compute. reflexivity.
  - intros (out & Hout & _). vm_compute in Hout. discriminate Hout.
Qed.

Example filter_example_dun :
  filteredMovies asciiLowerCase (VArr [dune; arrival]) "dun" "all" = Ok [dune].
Proof. reflexivity. Qed.

(** *** Mutation folding *)

Lemma getProp_defined (m : Value) (k : string) :
  nullish m = false -> getProp m k = Ok (getPropOpt m k).
Proof. by destruct m. Qed.

Lemma filter_keeps_all {A} (p : A -> bool) (l : list A) :
  (forall x, x ∈ l -> p x = true) -> List.filter p l = l.
Proof.
  induction l as [|x l IH]; intros H; simpl; [done |].
  rewrite (H x) by left. f_equal. apply IH. intros; apply H; by right.
Qed.

Lemma deleteUpdater_run (items : list Value) (id : string) :
  (forall m, m ∈ items -> nullish m = false) ->
  deleteUpdater id (VArr items)
  = Ok (VArr (List.filter (fun m => negb (hasId id m)) items)).
Proof.
  intros H. unfold deleteUpdater.
  rewrite (filterM_pure _ (fun m => negb (hasId id m))); [done |].
  intros m Hm. by rewrite (getProp_defined _ _ (H m Hm)).
Qed.

(** C4, as the code has it.  On an array without [null] or [undefined]
    entries the delete fold keeps, in their order, exactly the entries whose
    [_id] differs from [id]: it removes every entry carrying [id], which is
    exactly one entry when exactly one entry carries it. *)
Theorem C4_delete_removes_matching (items : list Value) (id : string) :
  (forall m, m ∈ items -> nullish m = false) ->
  exists kept,
    deleteUpdater id (VArr items) = Ok (VArr kept)
    /\ kept = List.filter (fun m => negb (hasId id m)) items
    /\ sublist kept items
    /\ forall pre m post,
         items = pre ++ m :: post -> hasId id m = true ->
         (forall x, x ∈ pre ++ post -> hasId id x = false) ->
         kept = pre ++ post.
Proof.
  intros H. eexists. split; [by apply deleteUpdater_run |].
  split; [done |]. split; [apply filter_sublist |].
  intros pre m post -> Hm Hrest.
  rewrite List.filter_app. simpl. rewrite Hm. simpl.
  rewrite <- List.filter_app. apply filter_keeps_all.
  intros x Hx. by rewrite (Hrest x Hx).
Qed.

Lemma C4_delete_removes_matching_witness :
  exists kept,
    deleteUpdater "m1" (VArr [arrival; dune; VBool true]) = Ok (VArr kept)
    /\ kept = List.filter (fun m => negb (hasId "m1" m)) [arrival; dune; VBool true]
    /\ sublist kept [arrival; dune; VBool true]
    /\ forall pre m post,
         [arrival; dune; VBool true] = pre ++ m :: post -> hasId "m1" m = true ->
         (forall x, x ∈ pre ++ post -> hasId "m1" x = false) ->
         kept = pre ++ post.
Proof.
  apply C4_delete_removes_matching. intros m Hm.
  apply elem_of_cons in Hm as [-> | Hm]; [reflexivity |].
  apply elem_of_cons in Hm as [-> | Hm]; [reflexivity |].
  apply elem_of_cons in Hm as [-> | Hm]; [reflexivity |].
  by apply elem_of_nil in Hm.
Defined.

(** The claim as stated fails: an identifier no entry carries removes
    nothing (the result is not the collection less one entry), and an
    identifier two entries carry removes both. *)
Lemma C4_counterexample :
  deleteUpdater "m9" (VArr [dune; arrival]) = Ok (VArr [dune; arrival])
  /\ ~ (exists pre m post,
          [dune; arrival] = pre ++ m :: post /\ [dune; arrival] = pre ++ post)
  /\ deleteUpdater "m1" (VArr [dune; arrival; dune]) = Ok (VArr [arrival]).
Proof.
  split; [reflexivity |]. split; [| reflexivity].
  intros (pre & m & post & H1 & H2).
  apply (f_equal length) in H1. apply (f_equal length) in H2.
  rewrite length_app in H1, H2. simpl in H1, H2. lia.
Qed.

(** An entry that is [null] makes the fold raise. *)
Example delete_raises_on_null :
  deleteUpdater "m1" (VArr [dune; VNull]) = Throw TypeError.
Proof. reflexivity. Qed.

(** C5, as the code has it.  When the collection is not an array both
    folds return without raising, and the new state is the empty array. *)
Theorem C5_folds_reset_non_array (v updatedMovie : Value) (id : string) :
  isArray v = false ->
  deleteUpdater id v = Ok (VArr [])
  /\ updateUpdater id updatedMovie v = Ok (VArr []).
Proof. by destruct v. Qed.

Lemma C5_folds_reset_non_array_witness :
  deleteUpdater "m1" (VStr "oops") = Ok (VArr [])
  /\ updateUpdater "m1" dune (VStr "oops") = Ok (VArr []).
Proof. apply C5_folds_reset_non_array. reflexivity. Defined.

(** The claim as stated fails: the state [null] does not stay [null]. *)
Lemma C5_counterexample :
  deleteUpdater "m1" VNull = Ok (VArr [])
  /\ updateUpdater "m1" dune VNull = Ok (VArr [])
  /\ VArr [] <> VNull.
Proof. split; [reflexivity | split; [reflexivity | discriminate]]. Qed.

(** *** Genre options *)

Lemma foldl_setAdd_NoDup (l acc : list string) :
  NoDup acc -> NoDup (foldl setAdd acc l).
Proof.
  revert acc. induction l as [|x l IH]; intros acc Hacc; simpl; [done |].
  apply IH. unfold setAdd. case_bool_decide as Hx; [done |].
  apply NoDup_app. split; [done |]. split; [| apply NoDup_singleton].
  intros y Hy Hy'. apply list_elem_of_singleton in Hy' as ->. done.
Qed.

Lemma foldl_setAdd_elem (l acc : list string) (x : string) :
  x ∈ foldl setAdd acc l <-> x ∈ acc \/ x ∈ l.
Proof.
  revert acc. induction l as [|y l IH]; intros acc; simpl.
  - rewrite elem_of_nil. tauto.
  - rewrite IH, elem_of_cons. unfold setAdd. case_bool_decide as Hy.
    + split; [tauto |]. intros [H | [-> | H]]; tauto.
    + rewrite elem_of_app, list_elem_of_singleton. tauto.
Qed.

Lemma genre_strings_elem (items : list Value) (g : string) :
  g ∈ stringsOf (List.filter (fun genre => truthy genre && typeofString genre)
                   (map (fun movie => getPropOpt movie "genre") items))
  <-> g <> "" /\ exists m, m ∈ items /\ getPropOpt m "genre" = VStr g.
Proof.
  unfold stringsOf. rewrite list_elem_of_omap. split.
  - intros (v & Hv & Hg). destruct v; try discriminate. injection Hg as ->.
    apply list_elem_of_In, filter_In in Hv as [Hv Hok].
    apply list_elem_of_In, list_elem_of_fmap in Hv as (m & Hm & Hin).
    simpl in Hok. rewrite andb_true_r in Hok.
    split; [| by exists m].
    intros ->. discriminate.
  - intros (Hne & m & Hm & Hg). exists (VStr g). split; [| done].
    apply list_elem_of_In, filter_In. split.
    + apply list_elem_of_In, list_elem_of_fmap. by exists m.
    + simpl. rewrite andb_true_r. by destruct (String.eqb_spec g "").
Qed.

(** C6. The genre options are the sentinel "all" followed by the non-empty
    genre strings of the collection, each once; "all" is always among them,
    and for an empty (or malformed) collection the options are exactly
    ["all"]. *)
Theorem C6_unique_genres (movies : Value) :
  exists gs,
    uniqueGenres movies = "all" :: gs
    /\ NoDup gs
    /\ (forall g, g ∈ gs <->
          g <> "" /\ exists m, m ∈ entries movies /\ getPropOpt m "genre" = VStr g)
    /\ "all" ∈ uniqueGenres movies
    /\ (entries movies = [] -> uniqueGenres movies = ["all"]).
Proof.
  assert (Hnone : uniqueGenres movies = ["all"] -> entries movies = [] ->
    exists gs,
      uniqueGenres movies = "all" :: gs
      /\ NoDup gs
      /\ (forall g, g ∈ gs <->
            g <> "" /\ exists m, m ∈ entries movies /\ getPropOpt m "genre" = VStr g)
      /\ "all" ∈ uniqueGenres movies
      /\ (entries movies = [] -> uniqueGenres movies = ["all"])).
  { intros Hu He. exists []. rewrite Hu, He.
    split; [done |]. split; [constructor |]. split; [| split; [left | done]].
    intros g. split; [by intros ?%elem_of_nil |].
    by intros (_ & m & ?%elem_of_nil & _). }
  destruct movies as [| | | | | |items]; try by apply Hnone.
  destruct items as [|x items]; [by apply Hnone |]. clear Hnone.
  unfold uniqueGenres. cbn [length Nat.eqb entries].
  eexists. split; [done |]. split; [apply foldl_setAdd_NoDup; constructor |].
  split; [| split; [left | done]].
  intros g. unfold newSet. rewrite foldl_setAdd_elem, genre_strings_elem.
  rewrite elem_of_nil. tauto.
Qed.

(** Duplicates collapse, first occurrence first; a movie whose genre is
    the string "all" repeats the sentinel. *)
Example genres_example :
  uniqueGenres (VArr [dune; obj [("genre", VStr "Drama")]; arrival;
                      obj [("genre", VStr "all")]; obj []])
  = ["all"; "Sci-Fi"; "Drama"; "all"].
Proof. reflexivity. Qed.

End MovieListFacts.

(** ** The sort of the derived view *)

Module SortFacts.

(** *** A stable insertion sort under a comparator without ties *)

Section Comparator.

Variable cmp : Value -> Value -> Cmp.

(** Swapping the arguments swaps the sign. *)
Hypothesis cmp_flip : forall x y c,
  cmp x y = CmpNum c ->
  exists c', cmp y x = CmpNum c' /\ ((c < 0 <-> 0 < c') /\ (0 < c <-> c' < 0))%Q.

Hypothesis precedes_trans : forall x y z,
  precedes cmp x y -> precedes cmp y z -> precedes cmp x z.

Lemma precedes_asym (x y : Value) : precedes cmp x y -> precedes cmp y x -> False.
Proof.
  intros (c & Hc & Hlt) (c' & Hc' & Hlt').
  destruct (cmp_flip _ _ _ Hc) as (c'' & Hc'' & H1 & _).
  rewrite Hc' in Hc''. injection Hc'' as <-. apply H1 in Hlt. lra.
Qed.

Lemma apart_precedes (x y : Value) :
  apart cmp x y = true -> precedes cmp x y \/ precedes cmp y x.
Proof.
  unfold apart. destruct (cmp x y) as [c| |] eqn:Hc; try done. intros Hne.
  apply negb_true_iff in Hne.
  assert (~ (c == 0)%Q) as Hc0.
  { intros H. apply Qeq_bool_iff in H. congruence. }
  destruct (Q_dec c 0) as [[Hlt | Hgt] | Heq]; [| | done].
  - left. by exists c.
  - right. destruct (cmp_flip _ _ _ Hc) as (c' & Hc' & _ & H2).
    exists c'. split; [done |]. by apply H2.
Qed.

Lemma insertSorted_sorted (x : Value) (s : list Value) :
  StronglySorted (precedes cmp) s ->
  (forall y, y ∈ s -> precedes cmp x y \/ precedes cmp y x) ->
  exists s', insertSorted cmp x s = Some s'
             /\ s' ≡ₚ x :: s /\ StronglySorted (precedes cmp) s'.
Proof.
  induction s as [|y s IH]; intros Hs Hx; simpl.
  - exists [x]. repeat split; [done |]. repeat constructor.
  - apply StronglySorted_cons in Hs as [Hy Hs].
    destruct (Hx y) as [Hxy | Hyx]; [by left | |].
    + destruct Hxy as (c & Hc & Hlt). rewrite Hc.
      replace (Qle_bool c 0) with true
        by (symmetry; apply Qle_bool_iff; lra).
      eexists. split; [done |]. split; [done |].
      apply StronglySorted_cons. split; [| by apply StronglySorted_cons].
      assert (precedes cmp x y) as Hxy by (by exists c).
      constructor; [done |].
      eapply Forall_impl; [exact Hy |]. intros z Hz. by eapply precedes_trans.
    + destruct Hyx as (c' & Hc' & Hlt').
      destruct (cmp_flip _ _ _ Hc') as (c & Hc & H1 & _). rewrite Hc.
      destruct (Qle_bool c 0) eqn:Hle.
      { apply Qle_bool_iff in Hle. apply H1 in Hlt'. lra. }
      destruct IH as (s' & -> & Hperm & Hsorted);
        [done | by intros; apply Hx; right |].
      eexists. split; [done |]. split.
      * rewrite Hperm. apply Permutation_swap.
      * apply StronglySorted_cons. split; [| done].
        rewrite Hperm. constructor; [by exists c' | done].
Qed.

Lemma noTies_cons (x : Value) (l : list Value) :
  noTies cmp (x :: l) = true ->
  (forall y, y ∈ l -> precedes cmp x y \/ precedes cmp y x)
  /\ noTies cmp l = true.
Proof.
  simpl. intros [Hx Hl]%andb_true_iff. split; [| done].
  intros y Hy. apply apart_precedes.
  rewrite forallb_forall in Hx. by apply Hx, list_elem_of_In.
Qed.

(** Without ties the sort returns the strictly ordered arrangement. *)
Lemma arraySort_sorted (l : list Value) :
  noTies cmp l = true ->
  exists v, arraySort cmp l = Some v
            /\ v ≡ₚ l /\ StronglySorted (precedes cmp) v.
Proof.
  induction l as [|x l IH]; intros Hl.
  - exists []. repeat split; [done |]. constructor.
  - apply noTies_cons in Hl as [Hx Hl].
    destruct (IH Hl) as (s & Hs & Hperm & Hsorted).
    destruct (insertSorted_sorted x s Hsorted) as (v & Hv & Hperm' & Hsorted').
    { intros y Hy. apply Hx. by rewrite <- Hperm. }
    exists v. simpl. rewrite Hs. split; [done |]. split; [| done].
    by rewrite Hperm', Hperm.
Qed.

(** *** The negated comparator *)

Local Abbreviation flipped := (MovieList.flipped cmp).

Lemma flipped_precedes (x y : Value) :
  precedes flipped x y <-> precedes cmp y x.
Proof.
  unfold precedes, flipped. split.
  - intros (c' & Hc' & Hlt). destruct (cmp x y) as [c| |] eqn:Hc; try done.
    injection Hc' as <-.
    destruct (cmp_flip _ _ _ Hc) as (c'' & Hc'' & _ & H2).
    exists c''. split; [done |]. apply H2. lra.
  - intros (c & Hc & Hlt).
    destruct (cmp_flip _ _ _ Hc) as (c' & Hc' & H1 & _). rewrite Hc'.
    exists (- c')%Q. split; [done |]. apply H1 in Hlt. lra.
Qed.

Lemma flipped_flip (x y : Value) (c : Q) :
  flipped x y = CmpNum c ->
  exists c', flipped y x = CmpNum c'
             /\ ((c < 0 <-> 0 < c') /\ (0 < c <-> c' < 0))%Q.
Proof.
  unfold flipped. destruct (cmp x y) as [d| |] eqn:Hd; try done.
  intros [= <-]. destruct (cmp_flip _ _ _ Hd) as (d' & -> & H1 & H2).
  exists (- d')%Q. split; [done |]. split; split; intros H.
  - assert (0 < d)%Q as H' by lra. apply H2 in H'. lra.
  - assert (d' < 0)%Q as H' by lra. apply H2 in H'. lra.
  - assert (d < 0)%Q as H' by lra. apply H1 in H'. lra.
  - assert (0 < d')%Q as H' by lra. apply H1 in H'. lra.
Qed.

Lemma flipped_trans (x y z : Value) :
  precedes flipped x y -> precedes flipped y z -> precedes flipped x z.
Proof. rewrite !flipped_precedes. eauto. Qed.

Lemma flipped_noTies (l : list Value) :
  noTies cmp l = true -> noTies flipped l = true.
Proof.
  induction l as [|x l IH]; [done |]. simpl.
  intros [Hx Hl]%andb_true_iff. apply andb_true_iff. split; [| by apply IH].
  rewrite forallb_forall in *. intros y Hy. specialize (Hx y Hy).
  unfold apart, flipped in *. destruct (cmp x y) as [c| |]; try done. simpl.
  apply negb_true_iff in Hx. apply negb_true_iff.
  destruct (Qeq_bool (- c) 0) eqn:H; [| done].
  apply Qeq_bool_iff in H.
  assert (c == 0)%Q as H' by lra. apply Qeq_bool_iff in H'. congruence.
Qed.

End Comparator.

Lemma StronglySorted_reverse {A} (R : relation A) (l : list A) :
  StronglySorted R l -> StronglySorted (flip R) (reverse l).
Proof.
  induction 1 as [|x l Hl IH Hx]; [constructor |].
  rewrite reverse_cons. apply StronglySorted_app_2; [| done | repeat constructor].
  intros y z Hy Hz. apply list_elem_of_singleton in Hz as ->.
  rewrite elem_of_reverse in Hy. rewrite Forall_forall in Hx.
  unfold flip. by apply Hx.
Qed.

Lemma StronglySorted_weaken {A} (R R' : relation A) (l : list A) :
  (forall x y, R x y -> R' x y) -> StronglySorted R l -> StronglySorted R' l.
Proof.
  intros HR. induction 1 as [|x l Hl IH Hx]; constructor; [done |].
  eapply Forall_impl; [exact Hx | auto].
Qed.

(** Sorting with the negated comparator gives the reverse, when the
    comparator has no ties on the list. *)
Lemma arraySort_flipped (cmp : Value -> Value -> Cmp) (l : list Value) :
  (forall x y c, cmp x y = CmpNum c ->
     exists c', cmp y x = CmpNum c'
                /\ ((c < 0 <-> 0 < c') /\ (0 < c <-> c' < 0))%Q) ->
  (forall x y z, precedes cmp x y -> precedes cmp y z -> precedes cmp x z) ->
  noTies cmp l = true ->
  exists v, arraySort cmp l = Some v
            /\ arraySort (flipped cmp) l = Some (reverse v).
Proof.
  intros Hflip Htrans Hl.
  destruct (arraySort_sorted cmp Hflip Htrans l Hl) as (v & Hv & Hperm & Hsorted).
  destruct (arraySort_sorted (flipped cmp) (flipped_flip cmp Hflip)
              (flipped_trans cmp Hflip Htrans) l (flipped_noTies cmp l Hl))
    as (v' & Hv' & Hperm' & Hsorted').
  exists v. split; [done |]. rewrite Hv'. f_equal.
  rewrite <- (reverse_involutive v'). f_equal. symmetry.
  apply (StronglySorted_unique_strong (precedes cmp)).
  - intros x y _ _ Hxy Hyx. destruct (precedes_asym cmp Hflip x y Hxy Hyx).
  - done.
  - apply (StronglySorted_weaken (flip (precedes (flipped cmp)))).
    + intros x y. unfold flip. by rewrite flipped_precedes.
    + by apply StronglySorted_reverse.
  - by rewrite reverse_Permutation, Hperm, Hperm'.
Qed.

(** *** A stable insertion sort under a consistent comparator, ties
    included *)

Section Stable.

Variable cmp : Value -> Value -> Cmp.

Hypothesis cmp_flip : forall x y c,
  cmp x y = CmpNum c ->
  exists c', cmp y x = CmpNum c' /\ ((c < 0 <-> 0 < c') /\ (0 < c <-> c' < 0))%Q.

Hypothesis notAfter_trans : forall x y z,
  notAfter cmp x y -> notAfter cmp y z -> notAfter cmp x z.

(** A test that only holds of movies tied with one another. *)
Let tieClass (p : Value -> bool) : Prop :=
  forall a b, p a = true -> p b = true -> tied cmp a b = true.

Lemma notAfter_flip (x y : Value) (c : Q) :
  cmp x y = CmpNum c -> (0 <= c)%Q -> notAfter cmp y x.
Proof.
  intros Hc Hpos. destruct (cmp_flip _ _ _ Hc) as (c' & Hc' & H1 & H2).
  exists c'. split; [done |].
  destruct (Qlt_le_dec 0 c') as [Hlt |]; [| done].
  apply H1 in Hlt. lra.
Qed.

Lemma tied_notAfter (x y : Value) :
  tied cmp x y = true -> notAfter cmp x y /\ notAfter cmp y x.
Proof.
  unfold tied. destruct (cmp x y) as [c| |] eqn:Hc; try done.
  intros H%Qeq_bool_iff. split.
  - exists c. split; [done | lra].
  - apply (notAfter_flip x y c Hc). lra.
Qed.

Lemma notAfter_tied (x y : Value) :
  notAfter cmp x y -> notAfter cmp y x -> tied cmp x y = true.
Proof.
  intros (c & Hc & Hle) (c' & Hc' & Hle'). unfold tied. rewrite Hc.
  apply Qeq_bool_iff.
  destruct (cmp_flip _ _ _ Hc) as (c'' & Hc'' & H1 & H2).
  rewrite Hc' in Hc''. injection Hc'' as <-.
  destruct (Qlt_le_dec c 0) as [Hlt |]; [| lra].
  apply H1 in Hlt. lra.
Qed.

(** The movies tied with a given one are tied with one another. *)
Lemma tied_class (x : Value) : tieClass (tied cmp x).
Proof.
  intros a b [Hxa Hax]%tied_notAfter [Hxb Hbx]%tied_notAfter.
  apply notAfter_tied; eauto.
Qed.

(** Strict precedence is transitive too. *)
Lemma notAfter_precedes_trans (x y z : Value) :
  precedes cmp x y -> precedes cmp y z -> precedes cmp x z.
Proof.
  intros (c1 & H1 & Hlt1) (c2 & H2 & Hlt2).
  destruct (notAfter_trans x y z) as (c & Hc & Hle);
    [exists c1; split; [done | lra] | exists c2; split; [done | lra] |].
  exists c. split; [done |].
  destruct (Qlt_le_dec c 0) as [| Hge]; [done |]. exfalso.
  assert (notAfter cmp z x) as Hzx by (by apply (notAfter_flip x z c)).
  destruct (notAfter_trans z x y Hzx) as (d & Hd & Hdle);
    [exists c1; split; [done | lra] |].
  destruct (cmp_flip _ _ _ H2) as (d' & Hd' & Hf & _).
  rewrite Hd in Hd'. injection Hd' as <-. apply Hf in Hlt2. lra.
Qed.

Lemma insertSorted_stable (x : Value) (l : list Value) :
  (forall y, y ∈ l -> exists c, cmp x y = CmpNum c) ->
  StronglySorted (notAfter cmp) l ->
  exists l',
    insertSorted cmp x l = Some l'
    /\ l' ≡ₚ x :: l
    /\ StronglySorted (notAfter cmp) l'
    /\ forall p, tieClass p -> List.filter p l' = List.filter p (x :: l).
Proof.
  induction l as [|y l IH]; intros Hx Hl.
  - exists [x]. simpl. split; [done |]. split; [done |].
    split; [repeat constructor | done].
  - apply StronglySorted_cons in Hl as [Hy Hl].
    destruct (Hx y) as [c Hc]; [by left |].
    simpl. rewrite Hc. destruct (Qle_bool c 0) eqn:Hle.
    + apply Qle_bool_iff in Hle. eexists. split; [done |]. split; [done |].
      split; [| done].
      assert (notAfter cmp x y) as Hxy by (by exists c).
      apply StronglySorted_cons. split; [| by apply StronglySorted_cons].
      constructor; [done |].
      eapply Forall_impl; [exact Hy |]. intros z Hz. by eapply notAfter_trans.
    + assert (0 < c)%Q as Hgt.
      { destruct (Qlt_le_dec 0 c) as [| H]; [done |].
        apply Qle_bool_iff in H. congruence. }
      destruct IH as (l' & -> & Hperm & Hsorted & Hstable);
        [by intros; apply Hx; right | done |].
      simpl. eexists. split; [done |]. split; [| split].
      * rewrite Hperm. apply Permutation_swap.
      * apply StronglySorted_cons. split; [| done]. rewrite Hperm.
        constructor; [| done]. apply (notAfter_flip x y c Hc). lra.
      * intros p Hp. simpl. rewrite (Hstable p Hp). simpl.
        destruct (p x) eqn:Hpx, (p y) eqn:Hpy; try done.
        specialize (Hp x y Hpx Hpy). unfold tied in Hp. rewrite Hc in Hp.
        apply Qeq_bool_iff in Hp. lra.
Qed.

(** The sort on a list all of whose pairs compare: ordered, and stable. *)
Lemma arraySort_stable (l : list Value) :
  (forall x y, x ∈ l -> y ∈ l -> exists c, cmp x y = CmpNum c) ->
  exists v,
    arraySort cmp l = Some v
    /\ v ≡ₚ l
    /\ StronglySorted (notAfter cmp) v
    /\ forall p, tieClass p -> List.filter p v = List.filter p l.
Proof.
  induction l as [|x l IH]; intros Hl.
  - exists []. simpl. split; [done |]. split; [done |]. split; [constructor | done].
  - destruct IH as (s & Hs & Hperm & Hsorted & Hstable).
    { intros y z Hy Hz. apply Hl; by right. }
    destruct (insertSorted_stable x s) as (v & Hv & Hperm' & Hsorted' & Hstable').
    { intros y Hy. rewrite Hperm in Hy. apply Hl; [left | by right]. }
    { done. }
    exists v. simpl. rewrite Hs. simpl. split; [done |].
    split; [by rewrite Hperm', Hperm |]. split; [done |].
    intros p Hp. rewrite (Hstable' p Hp). simpl. by rewrite (Hstable p Hp).
Qed.

(** The negated comparator is consistent as well, with the same ties. *)
Lemma flipped_notAfter (x y : Value) :
  notAfter (flipped cmp) x y <-> notAfter cmp y x.
Proof.
  unfold notAfter at 1, flipped. split.
  - intros (c' & Hc' & Hle). destruct (cmp x y) as [c| |] eqn:Hc; try done.
    injection Hc' as <-. apply (notAfter_flip x y c Hc). lra.
  - intros (c & Hc & Hle).
    destruct (cmp_flip _ _ _ Hc) as (c' & Hc' & H1 & H2). rewrite Hc'.
    exists (- c')%Q. split; [done |].
    destruct (Qlt_le_dec c' 0) as [Hlt |]; [| lra].
    apply H2 in Hlt. lra.
Qed.

Lemma flipped_notAfter_trans (x y z : Value) :
  notAfter (flipped cmp) x y -> notAfter (flipped cmp) y z ->
  notAfter (flipped cmp) x z.
Proof. rewrite !flipped_notAfter. eauto. Qed.

Lemma flipped_tied (x y : Value) : tied (flipped cmp) x y = tied cmp x y.
Proof.
  unfold tied, flipped. destruct (cmp x y) as [c| |]; try done. simpl.
  destruct (Qeq_bool c 0) eqn:H.
  - apply Qeq_bool_iff. apply Qeq_bool_iff in H. lra.
  - destruct (Qeq_bool (- c) 0) eqn:H'; [| done].
    apply Qeq_bool_iff in H'. assert (c == 0)%Q as H0 by lra.
    apply Qeq_bool_iff in H0. congruence.
Qed.

End Stable.

(** *** The comparator of the component *)

Lemma inject_Z_neg (z : Z) : (inject_Z z < 0)%Q <-> (z < 0)%Z.
Proof. change 0%Q with (inject_Z 0). by rewrite <- Zlt_Qlt. Qed.

Lemma inject_Z_pos (z : Z) : (0 < inject_Z z)%Q <-> (0 < z)%Z.
Proof. change 0%Q with (inject_Z 0). by rewrite <- Zlt_Qlt. Qed.

Lemma inject_Z_nonpos (z : Z) : (inject_Z z <= 0)%Q <-> (z <= 0)%Z.
Proof. change 0%Q with (inject_Z 0). by rewrite <- Zle_Qle. Qed.

Section Collation.

Variable localeCompare : string -> string -> Z.

(** What ECMAScript requires of [localeCompare]: a consistent ordering of
    all strings. *)
Hypothesis localeCompare_flip : forall a b,
  Z.sgn (localeCompare b a) = (- Z.sgn (localeCompare a b))%Z.
Hypothesis localeCompare_trans : forall a b c,
  (localeCompare a b <= 0)%Z -> (localeCompare b c <= 0)%Z ->
  (localeCompare a c <= 0)%Z.

Lemma callLocaleCompare_flip (x y : Value) (c : Q) :
  callLocaleCompare localeCompare x y = CmpNum c ->
  exists c', callLocaleCompare localeCompare y x = CmpNum c'
             /\ ((c < 0 <-> 0 < c') /\ (0 < c <-> c' < 0))%Q.
Proof.
  destruct x as [| | | |sa| |], y as [| | | |sb| |]; try done. simpl.
  intros [= <-]. eexists. split; [done |].
  rewrite !inject_Z_neg, !inject_Z_pos.
  specialize (localeCompare_flip sa sb). lia.
Qed.

Lemma subtract_flip (x y : Value) (c : Q) :
  subtract x y = CmpNum c ->
  exists c', subtract y x = CmpNum c'
             /\ ((c < 0 <-> 0 < c') /\ (0 < c <-> c' < 0))%Q.
Proof.
  unfold subtract. destruct (toNumber x) as [p|], (toNumber y) as [q|]; try done.
  intros [= <-]. eexists. split; [done |]. split; split; lra.
Qed.

Lemma comparisonOf_flip (k : string) (x y : Value) (c : Q) :
  comparisonOf localeCompare k x y = CmpNum c ->
  exists c', comparisonOf localeCompare k y x = CmpNum c'
             /\ ((c < 0 <-> 0 < c') /\ (0 < c <-> c' < 0))%Q.
Proof.
  unfold comparisonOf.
  destruct (nullish x), (nullish y); try done. simpl.
  destruct (String.eqb k "name"); [apply callLocaleCompare_flip |].
  destruct (String.eqb k "year"); [apply subtract_flip |].
  destruct (String.eqb k "rating"); [apply subtract_flip |].
  intros [= <-]. exists 0%Q. split; [done |]. split; split; lra.
Qed.

Lemma callLocaleCompare_trans (x y z : Value) :
  notAfter (callLocaleCompare localeCompare) x y ->
  notAfter (callLocaleCompare localeCompare) y z ->
  notAfter (callLocaleCompare localeCompare) x z.
Proof.
  intros (c1 & H1 & Hle1) (c2 & H2 & Hle2).
  destruct x as [| | | |sa| |], y as [| | | |sb| |]; try done.
  destruct z as [| | | |sd| |]; try done. simpl in H1, H2.
  injection H1 as <-. injection H2 as <-.
  eexists. split; [done |]. apply inject_Z_nonpos.
  apply (proj1 (inject_Z_nonpos _)) in Hle1.
  apply (proj1 (inject_Z_nonpos _)) in Hle2.
  exact (localeCompare_trans _ _ _ Hle1 Hle2).
Qed.

Lemma subtract_trans (x y z : Value) :
  notAfter subtract x y -> notAfter subtract y z -> notAfter subtract x z.
Proof.
  intros (c1 & H1 & Hle1) (c2 & H2 & Hle2). unfold notAfter, subtract in *.
  destruct (toNumber x) as [p|], (toNumber y) as [q|]; try done.
  destruct (toNumber z) as [r|]; try done.
  injection H1 as <-. injection H2 as <-.
  eexists. split; [done |]. lra.
Qed.

Lemma comparisonOf_trans (k : string) (x y z : Value) :
  notAfter (comparisonOf localeCompare k) x y ->
  notAfter (comparisonOf localeCompare k) y z ->
  notAfter (comparisonOf localeCompare k) x z.
Proof.
  unfold notAfter, comparisonOf.
  destruct (nullish x), (nullish y), (nullish z); simpl;
    try (by intros (? & ? & ?)); try (by intros _ (? & ? & ?)).
  destruct (String.eqb k "name"); [apply callLocaleCompare_trans |].
  destruct (String.eqb k "year"); [apply subtract_trans |].
  destruct (String.eqb k "rating"); [apply subtract_trans |].
  intros (c & [= <-] & Hle) _. exists 0%Q. split; [done | lra].
Qed.

(** C2, as the code has it.  For every sort key under which the
    comparator has a number for every pair of visible movies, the
    ascending view and the view after selecting the key again are both
    rearrangements of what the filter kept, the first in the order of the
    key and the second against it, and in both the movies that compare
    equal stand in the order the collection has them: the sort is stable.
    When no two visible movies compare equal, the second view is exactly
    the reverse of the first.  Selecting a key other than the active one
    always gives that key in ascending direction. *)
Theorem C2_sort_toggle
    (toLowerCase : string -> string) (movies : Value) (s g k : string)
    (filtered : list Value) :
  filteredMovies toLowerCase movies s g = Ok filtered ->
  (forall a b, a ∈ filtered -> b ∈ filtered ->
     exists c, comparisonOf localeCompare k a b = CmpNum c) ->
  (exists up down,
     view toLowerCase localeCompare movies s g
          {| sortBy := k; sortOrder := "asc" |} = Some (Ok up)
     /\ view toLowerCase localeCompare movies s g
             (handleSort k {| sortBy := k; sortOrder := "asc" |})
        = Some (Ok down)
     /\ up ≡ₚ filtered /\ down ≡ₚ filtered
     /\ StronglySorted (notAfter (comparisonOf localeCompare k)) up
     /\ StronglySorted (flip (notAfter (comparisonOf localeCompare k))) down
     /\ (forall x,
           List.filter (tied (comparisonOf localeCompare k) x) up
           = List.filter (tied (comparisonOf localeCompare k) x) filtered
           /\ List.filter (tied (comparisonOf localeCompare k) x) down
              = List.filter (tied (comparisonOf localeCompare k) x) filtered)
     /\ (noTies (comparisonOf localeCompare k) filtered = true ->
           down = reverse up))
  /\ (forall st field, sortBy st <> field ->
        handleSort field st = {| sortBy := field; sortOrder := "asc" |}).
Proof.
  intros Hfiltered Hpairs. split.
  - set (cmp := comparisonOf localeCompare k).
    destruct (arraySort_stable cmp (comparisonOf_flip k) (comparisonOf_trans k)
                filtered Hpairs) as (up & Hup & Hperm & Hsorted & Hstable).
    destruct (arraySort_stable (flipped cmp)
                (flipped_flip cmp (comparisonOf_flip k))
                (flipped_notAfter_trans cmp (comparisonOf_flip k)
                                        (comparisonOf_trans k))
                filtered) as (down & Hdown & Hperm' & Hsorted' & Hstable').
    { intros a b Ha Hb. destruct (Hpairs a b Ha Hb) as [c Hc].
      exists (- c)%Q. unfold flipped. fold cmp in Hc. by rewrite Hc. }
    exists up, down. unfold view, handleSort, filteredAndSortedMovies. simpl.
    rewrite String.eqb_refl. simpl. rewrite Hfiltered.
    change (compareMovies localeCompare k "asc") with cmp.
    change (compareMovies localeCompare k "desc") with (flipped cmp).
    rewrite Hup, Hdown. split; [done |]. split; [done |].
    split; [done |]. split; [done |]. split; [done |]. split; [| split].
    + eapply StronglySorted_weaken; [| exact Hsorted'].
      intros a b. unfold flip.
      by rewrite (flipped_notAfter cmp (comparisonOf_flip k)).
    + intros x. split.
      * apply Hstable.
        apply (tied_class cmp (comparisonOf_flip k) (comparisonOf_trans k)).
      * apply Hstable'. intros a b Ha Hb.
        rewrite flipped_tied.
        by apply (tied_class cmp (comparisonOf_flip k) (comparisonOf_trans k) x).
    + intros Hties.
      destruct (arraySort_flipped cmp filtered (comparisonOf_flip k)
                  (notAfter_precedes_trans cmp (comparisonOf_flip k)
                                           (comparisonOf_trans k)) Hties)
        as (v & Hasc & Hdesc).
      rewrite Hup in Hasc. injection Hasc as <-.
      rewrite Hdown in Hdesc. by injection Hdesc as ->.
  - intros st field Hne. unfold handleSort.
    by destruct (String.eqb_spec (sortBy st) field).
Qed.

End Collation.

(** The character-code collation is a consistent ordering. *)
Lemma codeCompare_flip (a b : string) :
  Z.sgn (codeCompare b a) = (- Z.sgn (codeCompare a b))%Z.
Proof.
  unfold codeCompare. rewrite (String.compare_antisym b a).
  by destruct (String.compare a b).
Qed.

Lemma string_compare_lt_trans (a b c : string) :
  String.compare a b = Lt -> String.compare b c = Lt -> String.compare a c = Lt.
Proof.
  revert b c. induction a as [|x a IH]; intros [|y b] [|z c]; simpl; try done.
  unfold Ascii.compare.
  destruct (N.compare_spec (N_of_ascii x) (N_of_ascii y)) as [Hxy | Hxy | Hxy];
    try done;
    destruct (N.compare_spec (N_of_ascii y) (N_of_ascii z)) as [Hyz | Hyz | Hyz];
    try done; intros H1 H2.
  - rewrite Hxy, Hyz, N.compare_refl. eauto.
  - by rewrite Hxy, (proj2 (N.compare_lt_iff _ _) Hyz).
  - by rewrite <- Hyz, (proj2 (N.compare_lt_iff _ _) Hxy).
  - by rewrite (proj2 (N.compare_lt_iff _ _) (N.lt_trans _ _ _ Hxy Hyz)).
Qed.

Lemma codeCompare_trans (a b c : string) :
  (codeCompare a b <= 0)%Z -> (codeCompare b c <= 0)%Z ->
  (codeCompare a c <= 0)%Z.
Proof.
  unfold codeCompare.
  destruct (String.compare a b) eqn:Hab; try done;
    destruct (String.compare b c) eqn:Hbc; try done; intros _ _.
  - apply String.compare_eq_iff in Hab as ->. by rewrite Hbc.
  - apply String.compare_eq_iff in Hab as ->. by rewrite Hbc.
  - apply String.compare_eq_iff in Hbc as <-. by rewrite Hab.
  - by rewrite (string_compare_lt_trans a b c).
Qed.

(** Three movies, two of them of the same year. *)
Lemma C2_sort_toggle_witness :
  let twin := obj [("_id", VStr "m3"); ("name", VStr "Tenet");
                   ("releaseYear", VNum 2021)] in
  (exists up down,
     view asciiLowerCase codeCompare (VArr [dune; arrival; twin]) "" "all"
          {| sortBy := "year"; sortOrder := "asc" |} = Some (Ok up)
     /\ view asciiLowerCase codeCompare (VArr [dune; arrival; twin]) "" "all"
             (handleSort "year" {| sortBy := "year"; sortOrder := "asc" |})
        = Some (Ok down)
     /\ up ≡ₚ [dune; arrival; twin] /\ down ≡ₚ [dune; arrival; twin]
     /\ StronglySorted (notAfter (comparisonOf codeCompare "year")) up
     /\ StronglySorted (flip (notAfter (comparisonOf codeCompare "year"))) down
     /\ (forall x,
           List.filter (tied (comparisonOf codeCompare "year") x) up
           = List.filter (tied (comparisonOf codeCompare "year") x)
                         [dune; arrival; twin]
           /\ List.filter (tied (comparisonOf codeCompare "year") x) down
              = List.filter (tied (comparisonOf codeCompare "year") x)
                            [dune; arrival; twin])
     /\ (noTies (comparisonOf codeCompare "year") [dune; arrival; twin] = true ->
           down = reverse up))
  /\ (forall st field, sortBy st <> field ->
        handleSort field st = {| sortBy := field; sortOrder := "asc" |}).
Proof.
  intros twin.
  apply (C2_sort_toggle codeCompare codeCompare_flip codeCompare_trans
           asciiLowerCase (VArr [dune; arrival; twin]) "" "all" "year"
           [dune; arrival; twin]).
  - vm_compute. reflexivity.
  - intros a b Ha Hb.
    repeat (apply elem_of_cons in Ha as [-> | Ha]);
      try (by apply elem_of_nil in Ha);
      repeat (apply elem_of_cons in Hb as [-> | Hb]);
      try (by apply elem_of_nil in Hb);
      eexists; vm_compute; reflexivity.
Defined.

(** With a tie the two views are the same list, in collection order. *)
Example sort_with_a_tie :
  let twin := obj [("_id", VStr "m3"); ("name", VStr "Tenet");
                   ("releaseYear", VNum 2021)] in
  view asciiLowerCase codeCompare (VArr [dune; arrival; twin]) "" "all"
       {| sortBy := "year"; sortOrder := "asc" |}
  = Some (Ok [arrival; dune; twin])
  /\ view asciiLowerCase codeCompare (VArr [dune; arrival; twin]) "" "all"
          {| sortBy := "year"; sortOrder := "desc" |}
     = Some (Ok [dune; twin; arrival]).
Proof. split; vm_compute; reflexivity. Qed.

(** The claim as stated fails: two movies of the same year stay in
    collection order in both directions, so the view after the toggle is
    not the reverse of the view before it. *)
Lemma C2_counterexample :
  let a := obj [("_id", VStr "a"); ("releaseYear", VNum 2000)] in
  let b := obj [("_id", VStr "b"); ("releaseYear", VNum 2000)] in
  let st := {| sortBy := "year"; sortOrder := "asc" |} in
  view asciiLowerCase codeCompare (VArr [a; b]) "" "all" st = Some (Ok [a; b])
  /\ view asciiLowerCase codeCompare (VArr [a; b]) "" "all" (handleSort "year" st)
     = Some (Ok [a; b])
  /\ [a; b] <> reverse [a; b].
Proof.
  intros a b st. split; [vm_compute; reflexivity |].
  split; [vm_compute; reflexivity |].
  intros H.
  apply (f_equal (fun l => getPropOpt (default VNull (head l)) "_id")) in H.
  vm_compute in H. discriminate H.
Qed.

(** The examples of the specification. *)
Example sort_by_name_ascending :
  view asciiLowerCase codeCompare (VArr [dune; arrival]) "" "all"
       {| sortBy := "name"; sortOrder := "asc" |} = Some (Ok [arrival; dune]).
Proof. vm_compute. reflexivity. Qed.

Example sort_by_year_descending :
  view asciiLowerCase codeCompare (VArr [arrival; dune]) "" "all"
       {| sortBy := "year"; sortOrder := "desc" |} = Some (Ok [dune; arrival]).
Proof. vm_compute. reflexivity. Qed.

End SortFacts.

(** ** The server controller *)

Module ServerFacts.

(** *** Queries select by conjunction *)

Lemma head_filter_Some {A} (f : A -> bool) (l : list A) (x : A) :
  head (List.filter f l) = Some x -> x ∈ l /\ f x = true.
Proof.
  intros H. assert (x ∈ List.filter f l) as Hx.
  { destruct (List.filter f l); [done |]. injection H as ->. left. }
  apply list_elem_of_In, filter_In in Hx as [Hx Hf].
  by apply list_elem_of_In in Hx.
Qed.

Lemma head_filter_unique {A} (f : A -> bool) (l : list A) (x : A) :
  (forall y, y ∈ l -> f y = true -> y = x) -> x ∈ l -> f x = true ->
  head (List.filter f l) = Some x.
Proof.
  intros Huniq Hx Hf.
  destruct (List.filter f l) as [|y t] eqn:Hl.
  - assert (x ∈ List.filter f l) as H
      by (apply list_elem_of_In, filter_In; by rewrite <- list_elem_of_In).
    rewrite Hl in H. by apply elem_of_nil in H.
  - simpl. f_equal. assert (y ∈ List.filter f l) as H by (rewrite Hl; left).
    apply list_elem_of_In, filter_In in H as [Hy Hfy].
    apply Huniq; [by apply list_elem_of_In | done].
Qed.

(** *** Pagination arithmetic *)

Lemma parseInt_toNumber (v : Value) (n : Z) :
  parseInt v = Some n -> exists q, toNumber v = Some q /\ (q == inject_Z n)%Q.
Proof.
  destruct v as [| | |q|s| |]; try done; simpl.
  - unfold asInteger. destruct (Qeq_bool q (inject_Z (Qfloor q))) eqn:Hq; [| done].
    destruct (_ && _); [| done]. intros [= <-].
    exists q. split; [done |]. by apply Qeq_bool_iff.
  - intros ->. by eexists.
Qed.

Lemma asInteger_inject (q : Q) (n : Z) :
  (q == inject_Z n)%Q -> asInteger q = Some n.
Proof.
  intros H. unfold asInteger.
  assert (Qfloor q = n) as -> by (rewrite H; apply Qfloor_Z).
  by rewrite (proj2 (Qeq_bool_iff _ _) H).
Qed.

Lemma skipOf_spec (page limit : Value) (p l : Z) :
  parseInt page = Some p -> parseInt limit = Some l ->
  skipOf page limit ≫= asInteger = Some ((p - 1) * l)%Z.
Proof.
  intros (qp & Hp & Hqp)%parseInt_toNumber (ql & Hl & Hql)%parseInt_toNumber.
  unfold skipOf. rewrite Hp, Hl. simpl. apply asInteger_inject.
  rewrite Hqp, Hql, inject_Z_mult. unfold Z.sub.
  rewrite inject_Z_plus, inject_Z_opp. ring.
Qed.

(** [Math.ceil(total / limit)] is the least number of pages of [limit]
    records that hold [total] records. *)
Lemma pagesOf_spec (limit : Value) (l total : Z) :
  parseInt limit = Some l -> (1 <= l)%Z ->
  exists n, pagesOf total limit = Some (Whole n)
            /\ ((n - 1) * l < total <= n * l)%Z.
Proof.
  intros (ql & Hl & Hql)%parseInt_toNumber Hpos.
  unfold pagesOf. rewrite Hl. simpl.
  destruct (Qeq_bool ql 0) eqn:Hz.
  { apply Qeq_bool_iff in Hz. rewrite Hql in Hz.
    change 0%Q with (inject_Z 0) in Hz.
    apply (proj1 (inject_Z_injective _ _)) in Hz. lia. }
  eexists. split; [done |].
  assert (Qceiling (inject_Z total / ql) = (- ((- total) / l))%Z) as ->.
  { unfold Qceiling. f_equal. rewrite Zdiv_Qdiv. apply Qfloor_comp.
    rewrite Hql, inject_Z_opp. unfold Qdiv. ring. }
  pose proof (Z.mul_div_le (- total) l). pose proof (Z.mul_succ_div_gt (- total) l).
  nia.
Qed.

Section Engine.

Variable fieldClause : string -> Value -> Movie -> bool.

(** A scoped query only matches documents of its user. *)
Lemma matches_scoped (uid : Id) (q : gmap string Value) (doc : Id * Movie) :
  scoped uid q -> matches fieldClause q doc = true -> addedBy doc.2 = uid.
Proof.
  intros Hq Hm. unfold matches in Hm. rewrite forallb_forall in Hm.
  specialize (Hm ("addedBy", VStr uid)). simpl in Hm.
  symmetry. apply String.eqb_eq, Hm, list_elem_of_In.
  by apply elem_of_map_to_list.
Qed.

Lemma matching_elem (q : gmap string Value) (d : Db) (doc : Id * Movie) :
  doc ∈ matching fieldClause q d <->
  movies d !! doc.1 = Some doc.2 /\ matches fieldClause q doc = true.
Proof.
  unfold matching. rewrite list_elem_of_In, filter_In, <- list_elem_of_In.
  destruct doc as [i m]. by rewrite elem_of_map_to_list.
Qed.

Lemma matches_owned (uid id : Id) (doc : Id * Movie) :
  matches fieldClause (ownedQuery uid id) doc = true
  <-> doc.1 = id /\ addedBy doc.2 = uid.
Proof.
  unfold matches. rewrite forallb_forall. split.
  - intros H.
    assert (forall k v, ownedQuery uid id !! k = Some v ->
                        clauseHolds fieldClause doc (k, v) = true) as H'.
    { intros k v Hkv. apply H. apply (proj1 (list_elem_of_In _ _)).
      by apply (proj2 (elem_of_map_to_list _ _ _)). }
    split; symmetry; apply String.eqb_eq.
    + apply (H' "_id" (VStr id)). unfold ownedQuery.
      rewrite lookup_insert_ne by done. apply lookup_singleton_eq.
    + apply (H' "addedBy" (VStr uid)). apply lookup_insert_eq.
  - intros [<- <-] [k v] Hkv.
    apply list_elem_of_In, elem_of_map_to_list in Hkv. unfold ownedQuery in Hkv.
    apply lookup_insert_Some in Hkv as [[<- <-] | [_ Hkv]].
    + simpl. apply String.eqb_refl.
    + apply lookup_singleton_Some in Hkv as [<- <-]. simpl. apply String.eqb_refl.
Qed.

(** [findOne] with the owned query is a lookup by [_id] guarded by the
    owner. *)
Lemma head_matching_owned (uid id : Id) (d : Db) (m : Movie) :
  movies d !! id = Some m -> addedBy m = uid ->
  head (matching fieldClause (ownedQuery uid id) d) = Some (id, m).
Proof.
  intros Hm Hu. apply head_filter_unique.
  - intros [j m'] Hj Hmatch. apply elem_of_map_to_list in Hj.
    apply matches_owned in Hmatch as [Hid _]. simpl in Hid. subst j. congruence.
  - by apply elem_of_map_to_list.
  - by apply matches_owned.
Qed.

Lemma head_matching_owned_inv (uid id : Id) (d : Db) (doc : Id * Movie) :
  head (matching fieldClause (ownedQuery uid id) d) = Some doc ->
  doc.1 = id /\ movies d !! id = Some doc.2 /\ addedBy doc.2 = uid.
Proof.
  intros H. apply head_filter_Some in H as [Hin Hm].
  apply matches_owned in Hm as [<- Hu]. destruct doc as [i m].
  by apply elem_of_map_to_list in Hin.
Qed.

(** *** Owner counters *)

Lemma orZero_id (n : Z) : orZero n = n.
Proof. unfold orZero. destruct (Z.eqb_spec n 0); congruence. Qed.

#[local] Instance sumZ_Permutation : Proper ((≡ₚ) ==> (=)) sumZ.
Proof. induction 1; simpl; lia. Qed.

Lemma owned_insert (uid owner newId : Id) (m : Movie) (d : Db) (us : gmap Id User) :
  movies d !! newId = None -> addedBy m = owner ->
  owned uid (mkDb (<[newId := m]> (movies d)) us)
  ≡ₚ if decide (owner = uid) then (newId, m) :: owned uid d else owned uid d.
Proof.
  intros Hnew Hm. unfold owned. simpl. rewrite (map_to_list_insert _ _ _ Hnew).
  case_decide as Hu.
  - by rewrite filter_cons_True by (simpl; congruence).
  - by rewrite filter_cons_False by (simpl; congruence).
Qed.

Lemma owned_delete (uid owner id : Id) (m : Movie) (d : Db) (us : gmap Id User) :
  movies d !! id = Some m -> addedBy m = owner ->
  owned uid d
  ≡ₚ if decide (owner = uid)
     then (id, m) :: owned uid (mkDb (delete id (movies d)) us)
     else owned uid (mkDb (delete id (movies d)) us).
Proof.
  intros Hid Hm. unfold owned. simpl. rewrite <- (map_to_list_delete _ _ _ Hid).
  case_decide as Hu.
  - by rewrite filter_cons_True by (simpl; congruence).
  - by rewrite filter_cons_False by (simpl; congruence).
Qed.

(** What a create answered with 201 has done. *)
Lemma createMovie_success (uid newId : Id) (errors : list string) (body : Movie)
    (d : Db) (fs : list bool) (r : Response (Id * Movie)) (w : World) :
  createMovie uid errors body newId (mkWorld d fs) = (inr r, w) ->
  status r = 201%Z ->
  movies d !! newId = None
  /\ data r = Some (newId, withOwner body uid)
  /\ db w = mkDb (<[newId := withOwner body uid]> (movies d))
                 (alter (fun u => mkUser (movieCount u + 1)
                                         (totalWatchTime u + orZero (duration body))
                                         (watchlist u)) uid (users d)).
Proof.
  unfold createMovie, tryCatch, bindM, Movie_create,
    User_findByIdAndUpdate_inc, storage, ret.
  destruct errors; [| by intros [= <- <-]].
  destruct fs as [|[] [|[] fs]]; simpl;
    destruct (movies d !! newId) eqn:Hnew; simpl;
    intros [= <- <-]; try done; intros _; by repeat split.
Qed.

(** What a delete answered with 200 has done. *)
Lemma deleteMovie_success (uid id : Id) (d : Db) (fs : list bool)
    (r : Response unit) (w : World) :
  deleteMovie fieldClause uid id (mkWorld d fs) = (inr r, w) ->
  status r = 200%Z ->
  exists m,
    movies d !! id = Some m /\ addedBy m = uid
    /\ db w = mkDb (delete id (movies d))
                   (alter (fun u => mkUser (movieCount u + -1)
                                           (totalWatchTime u + - orZero (duration m))
                                           (watchlist u)) uid (users d)).
Proof.
  unfold deleteMovie, tryCatch, bindM, Movie_findOneAndDelete,
    User_findByIdAndUpdate_inc, storage, ret.
  pose proof (head_matching_owned_inv uid id d) as Hinv.
  destruct fs as [|[] [|[] fs]]; simpl;
    destruct (head (matching fieldClause (ownedQuery uid id) d)) as [[i m]|];
    simpl; intros [= <- <-]; try done; intros _;
    destruct (Hinv _ eq_refl) as (Hi & Hm & Hu); simpl in *; subst i;
    exists m; by repeat split.
Qed.

Lemma createMovie_tracks (uid newId : Id) (errors : list string) (body : Movie)
    (d : Db) (fs : list bool) (r : Response (Id * Movie)) (w : World) :
  createMovie uid errors body newId (mkWorld d fs) = (inr r, w) ->
  status r = 201%Z -> tracks d -> tracks (db w).
Proof.
  intros Hrun Hok Htr.
  destruct (createMovie_success _ _ _ _ _ _ _ _ Hrun Hok) as (Hnew & _ & ->).
  intros uid' u' Hu'. simpl in Hu'.
  rewrite (owned_insert uid' uid newId (withOwner body uid) d _ Hnew eq_refl).
  rewrite lookup_alter in Hu'. case_decide as Hcase.
  - subst uid'. destruct (users d !! uid) as [u|] eqn:Hu; [| done].
    injection Hu' as <-. simpl. destruct (Htr uid u Hu) as [-> ->].
    rewrite orZero_id. unfold fmap. split; lia.
  - by apply Htr.
Qed.

Lemma deleteMovie_tracks (uid id : Id) (d : Db) (fs : list bool)
    (r : Response unit) (w : World) :
  deleteMovie fieldClause uid id (mkWorld d fs) = (inr r, w) ->
  status r = 200%Z -> tracks d -> tracks (db w).
Proof.
  intros Hrun Hok Htr.
  destruct (deleteMovie_success _ _ _ _ _ _ Hrun Hok) as (m & Hid & Hm & ->).
  intros uid' u' Hu'. simpl in Hu'.
  pose proof (owned_delete uid' uid id m d
                (alter (fun u => mkUser (movieCount u + -1)
                                        (totalWatchTime u + - orZero (duration m))
                                        (watchlist u)) uid (users d)) Hid Hm) as Hperm.
  rewrite lookup_alter in Hu'. case_decide as Hcase.
  - subst uid'. destruct (users d !! uid) as [u|] eqn:Hu; [| done].
    injection Hu' as <-. simpl. destruct (Htr uid u Hu) as [-> ->].
    rewrite Hperm, orZero_id. simpl. unfold fmap. split; lia.
  - destruct (Htr uid' u' Hu') as [-> ->]. by rewrite Hperm.
Qed.

(** X28. A create answered with 201 followed by a delete of that movie
    answered with 200 puts the owner record (movie count and total watch
    time) and the movie collection back as they were; and when every
    user's counters tracked the owned-movie set before, they still track it
    after the create and after the delete. *)
Theorem X28_create_then_delete_restores_counters
    (uid newId : Id) (errors : list string) (body : Movie)
    (d : Db) (fs : list bool) (u : User)
    (r1 : Response (Id * Movie)) (w1 : World)
    (r2 : Response unit) (w2 : World) :
  users d !! uid = Some u ->
  createMovie uid errors body newId (mkWorld d fs) = (inr r1, w1) ->
  status r1 = 201%Z ->
  deleteMovie fieldClause uid newId w1 = (inr r2, w2) ->
  status r2 = 200%Z ->
  (users (db w2) !! uid = Some u /\ movies (db w2) = movies d)
  /\ (tracks d -> tracks (db w1) /\ tracks (db w2)).
Proof.
  intros Hu Hrun1 Hok1 Hrun2 Hok2. split.
  - destruct (createMovie_success _ _ _ _ _ _ _ _ Hrun1 Hok1)
      as (Hnew & _ & Hdb1).
    destruct w1 as [d1 fs1]. simpl in Hdb1. subst d1.
    destruct (deleteMovie_success _ _ _ _ _ _ Hrun2 Hok2)
      as (m' & Hid & _ & ->).
    simpl in *. rewrite lookup_insert_eq in Hid. injection Hid as <-. split.
    + rewrite !lookup_alter_eq, Hu. simpl. destruct u as [c t wl]. simpl.
      f_equal. f_equal; lia.
    + by apply delete_insert_id.
  - intros Htr.
    assert (tracks (db w1)) as Htr1 by (by eapply createMovie_tracks).
    split; [done |]. destruct w1 as [d1 fs1]. by eapply deleteMovie_tracks.
Qed.

End Engine.

Lemma X28_create_then_delete_restores_counters_witness :
  let w1 := (createMovie "u1" [] (sampleMovie "u9" 20) "m20"
               (mkWorld sampleDb [])).2 in
  let w2 := (deleteMovie plainClause "u1" "m20" w1).2 in
  (users (db w2) !! "u1" = Some (mkUser 15 1500 ["m03"])
   /\ movies (db w2) = movies sampleDb)
  /\ (tracks sampleDb -> tracks (db w1) /\ tracks (db w2)).
Proof.
  intros w1 w2.
  apply (X28_create_then_delete_restores_counters plainClause "u1" "m20" []
           (sampleMovie "u9" 20) sampleDb [] (mkUser 15 1500 ["m03"])
           (mkResponse 201 (Some ("m20", sampleMovie "u1" 20))) w1
           (mkResponse 200 (Some tt)) w2);
    reflexivity.
Defined.

(** In the sample database the counters of every user track the movies
    that user owns. *)
Lemma sampleDb_tracks : tracks sampleDb.
Proof.
  intros uid u Hu. unfold sampleDb, users in Hu.
  apply elem_of_list_to_map_2 in Hu.
  repeat (apply elem_of_cons in Hu as [[= -> ->] | Hu]);
    [vm_compute; split; reflexivity.. |].
  by apply elem_of_nil in Hu.
Qed.

(** C9. The counters do not track the owned-movie set on every create and
    delete.  In the sample database, where they do track it, "u1" creates a
    movie and the counter update is the storage call that fails: the answer
    is 500, the movie is stored under "u1", the user records are as before
    (15 movies counted, 16 owned), and the counters no longer track the
    owned movies.  A delete of "m03" whose counter update fails likewise
    answers 500 with the movie gone and 15 movies still counted for 14
    owned. *)
Theorem C9_counters_left_behind :
  let created := createMovie "u1" [] (sampleMovie "u9" 20) "m20"
                   (mkWorld sampleDb [false; true]) in
  let deleted := deleteMovie plainClause "u1" "m03"
                   (mkWorld sampleDb [false; true]) in
  tracks sampleDb
  /\ (created.1 = inr (mkResponse 500 None)
      /\ movies (db created.2) !! "m20" = Some (sampleMovie "u1" 20)
      /\ users (db created.2) = users sampleDb
      /\ users sampleDb !! "u1" = Some (mkUser 15 1500 ["m03"])
      /\ length (owned "u1" (db created.2)) = 16
      /\ ~ tracks (db created.2))
  /\ (deleted.1 = inr (mkResponse 500 None)
      /\ movies (db deleted.2) !! "m03" = None
      /\ users (db deleted.2) = users sampleDb
      /\ length (owned "u1" (db deleted.2)) = 14
      /\ ~ tracks (db deleted.2)).
Proof.
  intros created deleted. split; [exact sampleDb_tracks |]. split.
  - split; [vm_compute; reflexivity |]. split; [vm_compute; reflexivity |].
    split; [vm_compute; reflexivity |]. split; [vm_compute; reflexivity |].
    split; [vm_compute; reflexivity |].
    intros Htracks.
    destruct (Htracks "u1" (mkUser 15 1500 ["m03"])) as [Hcount _];
      [vm_compute; reflexivity |].
    vm_compute in Hcount. discriminate.
  - split; [vm_compute; reflexivity |]. split; [vm_compute; reflexivity |].
    split; [vm_compute; reflexivity |]. split; [vm_compute; reflexivity |].
    intros Htracks.
    destruct (Htracks "u1" (mkUser 15 1500 ["m03"])) as [Hcount _];
      [vm_compute; reflexivity |].
    vm_compute in Hcount. discriminate.
Qed.


(** *** Watchlist *)

Lemma addToWatchlist_db (uid id : Id) (d : Db) (fs : list bool) (u : User) :
  users d !! uid = Some u ->
  db (addToWatchlist uid id (mkWorld d fs)).2 = d
  \/ ((id ∉ watchlist u)
      /\ db (addToWatchlist uid id (mkWorld d fs)).2
         = mkDb (movies d)
                (<[uid := mkUser (movieCount u) (totalWatchTime u)
                                 (watchlist u ++ [id])]> (users d))).
Proof.
  intros Hu.
  unfold addToWatchlist, tryCatch, bindM, User_findById, User_save, storage.
  destruct fs as [|[] [|[] fs]]; simpl; rewrite ?Hu;
    try case_bool_decide; simpl; auto.
Qed.

Lemma addToWatchlist_step (uid id : Id) (d : Db) (fs : list bool) (u : User) :
  users d !! uid = Some u -> NoDup (watchlist u) ->
  exists u', users (db (addToWatchlist uid id (mkWorld d fs)).2) !! uid = Some u'
             /\ NoDup (watchlist u').
Proof.
  intros Hu Hnd.
  destruct (addToWatchlist_db uid id d fs u Hu) as [-> | [Hin ->]];
    [by exists u |].
  simpl. rewrite lookup_insert_eq. eexists. split; [done |]. simpl.
  apply NoDup_app. split; [done |]. split; [| apply NoDup_singleton].
  by intros y Hy ->%list_elem_of_singleton.
Qed.

(** C10. For a user on record and storage that answers, adding an
    identifier already in the watchlist is refused with status 400 and
    changes nothing, and adding any other identifier appends exactly it at
    the end; so a duplicate-free watchlist (the empty one in particular)
    stays duplicate-free under any sequence of such calls, whatever the
    storage faults. *)
Theorem C10_watchlist_append (d : Db) (uid id : Id) (u : User) :
  users d !! uid = Some u ->
  (id ∈ watchlist u ->
     addToWatchlist uid id (mkWorld d [])
     = (inr (mkResponse 400 None), mkWorld d []))
  /\ (id ∉ watchlist u ->
        addToWatchlist uid id (mkWorld d [])
        = (inr (mkResponse 200 (Some tt)),
           mkWorld (mkDb (movies d)
                         (<[uid := mkUser (movieCount u) (totalWatchTime u)
                                          (watchlist u ++ [id])]> (users d)))
                   []))
  /\ (NoDup (watchlist u) ->
        forall ids fs, exists u',
          users (db (addAllToWatchlist uid ids (mkWorld d fs))) !! uid = Some u'
          /\ NoDup (watchlist u')).
Proof.
  intros Hu. split; [| split].
  - intros Hin.
    unfold addToWatchlist, tryCatch, bindM, User_findById, storage. simpl.
    rewrite Hu. by rewrite bool_decide_eq_true_2.
  - intros Hin.
    unfold addToWatchlist, tryCatch, bindM, User_findById, User_save, storage.
    simpl. rewrite Hu. by rewrite bool_decide_eq_false_2.
  - intros Hnd ids. revert d u Hu Hnd.
    induction ids as [|i ids IH]; intros d u Hu Hnd fs; simpl; [by exists u |].
    destruct (addToWatchlist_step uid i d fs u Hu Hnd) as (u' & Hu' & Hnd').
    destruct (addToWatchlist uid i (mkWorld d fs)) as [r [d' fs']].
    by apply (IH d' u').
Qed.

Lemma C10_watchlist_append_witness :
  ("m03" ∈ ["m03"] ->
     addToWatchlist "u1" "m03" (mkWorld sampleDb [])
     = (inr (mkResponse 400 None), mkWorld sampleDb []))
  /\ ("m03" ∉ ["m03"] ->
        addToWatchlist "u1" "m03" (mkWorld sampleDb [])
        = (inr (mkResponse 200 (Some tt)),
           mkWorld (mkDb (movies sampleDb)
                         (<["u1" := mkUser 15 1500 (["m03"] ++ ["m03"])]>
                            (users sampleDb)))
                   []))
  /\ (NoDup ["m03"] ->
        forall ids fs, exists u',
          users (db (addAllToWatchlist "u1" ids (mkWorld sampleDb fs))) !! "u1"
          = Some u'
          /\ NoDup (watchlist u')).
Proof.
  apply (C10_watchlist_append sampleDb "u1" "m03" (mkUser 15 1500 ["m03"])).
  reflexivity.
Defined.

Example watchlist_append_new :
  users (db (addToWatchlist "u1" "m04" (mkWorld sampleDb [])).2) !! "u1"
  = Some (mkUser 15 1500 ["m03"; "m04"]).
Proof. reflexivity. Qed.

(** A user that is not on record makes the handler's own code raise; the
    answer is 500. *)
Example watchlist_unknown_user :
  (addToWatchlist "nobody" "m04" (mkWorld sampleDb [])).1
  = inr (mkResponse 500 None).
Proof. reflexivity. Qed.

(** *** The list endpoint *)

Lemma insertDesc_Permutation {A} (rank : A -> Z) (x : A) (l : list A) :
  insertDesc rank x l ≡ₚ x :: l.
Proof.
  induction l as [|y l IH]; simpl; [done |].
  destruct (rank y <=? rank x)%Z; [done |]. rewrite IH. apply Permutation_swap.
Qed.

Lemma newestFirst_Permutation (sort : Value) (l : list (Id * Movie)) :
  newestFirst sort l ≡ₚ l.
Proof.
  unfold newestFirst, sortDesc. induction l as [|x l IH]; simpl; [done |].
  by rewrite insertDesc_Permutation, IH.
Qed.

Lemma buildQuery_scoped (uid : Id) (reqQuery : gmap string Value) :
  scoped uid (buildQuery uid reqQuery).
Proof.
  unfold scoped, buildQuery.
  repeat (case_match; rewrite ?lookup_insert_ne by done);
    by rewrite lookup_singleton_eq.
Qed.

Lemma ownedQuery_scoped (uid id : Id) : scoped uid (ownedQuery uid id).
Proof. unfold scoped, ownedQuery. by rewrite lookup_insert_eq. Qed.

Section Listing.

Variable fieldClause : string -> Value -> Movie -> bool.
Variable orderBy : Value -> list (Id * Movie) -> list (Id * Movie).
Variable uncast : gmap string Value -> Id * Movie -> bool.

(** The engine orders a result; it neither drops nor invents documents. *)
Hypothesis orderBy_Permutation : forall sort l, orderBy sort l ≡ₚ l.

Lemma getMovies_run (uid : Id) (reqQuery : gmap string Value) (d : Db) (p l : Z) :
  parseInt (param reqQuery "page" (VNum 1)) = Some p -> (1 <= p)%Z ->
  parseInt (param reqQuery "limit" (VNum 10)) = Some l -> (1 <= l)%Z ->
  let query := buildQuery uid reqQuery in
  let found := matching fieldClause query d in
  exists n,
    ((n - 1) * l < Z.of_nat (length found) <= n * l)%Z
    /\ getMovies fieldClause orderBy uncast uid reqQuery (mkWorld d [])
       = (inr (mkResponse 200 (Some
            (mkListData
               (take (Z.to_nat l) (drop (Z.to_nat ((p - 1) * l))
                  (orderBy (param reqQuery "sort" (VStr "-createdAt")) found)))
               (mkPagination p l (Z.of_nat (length found)) (Whole n))
               (orElse (first (groupSummary (aggregated fieldClause uncast query d)))
                       statsDefault)))),
          mkWorld d []).
Proof.
  intros Hp Hp1 Hl Hl1 query found.
  destruct (pagesOf_spec _ l (Z.of_nat (length found)) Hl Hl1) as (n & Hn & Hbounds).
  exists n. split; [done |].
  unfold getMovies, tryCatch, bindM, within, Movie_find, Movie_countDocuments,
    Movie_aggregate, storage, ret.
  rewrite (skipOf_spec _ _ p l Hp Hl), Hl, Hp. simpl.
  replace ((0 <=? (p - 1) * l)%Z && (0 <=? l)%Z) with true
    by (symmetry; apply andb_true_iff; split; apply Z.leb_le; nia).
  replace (l =? 0)%Z with false by (symmetry; apply Z.eqb_neq; lia).
  simpl. fold query. fold found. by rewrite Hn.
Qed.

(** Reading a successful run backwards. *)
Lemma tryCatch_data {A} (body : M (Response A)) (w w' : World)
    (r : Response A) (x : A) :
  data r = Some x -> tryCatch body w = (inr r, w') -> body w = (inr r, w').
Proof.
  intros Hdata. unfold tryCatch.
  destruct (body w) as [[[]|r0] w0]; intros [= <- <-]; done.
Qed.

Lemma bindM_inr {A B} (m : M A) (k : A -> M B) (w w' : World) (b : B) :
  bindM m k w = (inr b, w') ->
  exists a w0, m w = (inr a, w0) /\ k a w0 = (inr b, w').
Proof.
  unfold bindM. destruct (m w) as [[f|a] w0]; [done |]. intros H. by exists a, w0.
Qed.

Lemma within_inr {A} (o : option A) (w w' : World) (a : A) :
  within o w = (inr a, w') -> o = Some a /\ w' = w.
Proof. destruct o; [| done]. by intros [= <- <-]. Qed.

Lemma storage_inr {A} (op : Db -> Failure + A * Db) (w w' : World) (a : A) :
  storage op w = (inr a, w') ->
  exists d', op (db w) = inr (a, d') /\ db w' = d'.
Proof.
  unfold storage. destruct (faults w) as [|[] rest]; try done;
    destruct (op (db w)) as [f|[a' d']]; try done;
    intros [= <- <-]; by exists d'.
Qed.

(** Whatever the parameters and the storage faults, a list answer that
    carries data carries the page and limit as [parseInt] reads them, a
    window of the ordered result of the built query, the count of all its
    matches and the summary of what the [$match] stage selects. *)
Lemma getMovies_data (uid : Id) (reqQuery : gmap string Value) (d : Db)
    (fs : list bool) (r : Response ListData) (w : World) (ld : ListData) :
  getMovies fieldClause orderBy uncast uid reqQuery (mkWorld d fs) = (inr r, w) ->
  data r = Some ld ->
  let query := buildQuery uid reqQuery in
  let found := matching fieldClause query d in
  let ordered := orderBy (param reqQuery "sort" (VStr "-createdAt")) found in
  exists p l pg,
    parseInt (param reqQuery "page" (VNum 1)) = Some p
    /\ parseInt (param reqQuery "limit" (VNum 10)) = Some l
    /\ (0 <= (p - 1) * l)%Z /\ (0 <= l)%Z
    /\ pagesOf (Z.of_nat (length found)) (param reqQuery "limit" (VNum 10))
       = Some pg
    /\ listMovies ld
       = (if (l =? 0)%Z then drop (Z.to_nat ((p - 1) * l)) ordered
          else take (Z.to_nat l) (drop (Z.to_nat ((p - 1) * l)) ordered))
    /\ pagination ld = mkPagination p l (Z.of_nat (length found)) pg
    /\ stats ld
       = orElse (first (groupSummary (aggregated fieldClause uncast query d)))
                statsDefault.
Proof.
  intros Hrun Hdata query found ordered. unfold getMovies in Hrun.
  apply (tryCatch_data _ _ _ _ _ Hdata) in Hrun.
  apply bindM_inr in Hrun as (sk & w1 & Hw1 & Hrun).
  apply within_inr in Hw1 as [Hsk ->].
  apply bindM_inr in Hrun as (lm & w2 & Hw2 & Hrun).
  apply within_inr in Hw2 as [Hl ->].
  apply bindM_inr in Hrun as (fnd & w3 & Hfind & Hrun).
  apply bindM_inr in Hrun as (tot & w4 & Hcount & Hrun).
  apply bindM_inr in Hrun as (st & w5 & Hstats & Hrun).
  apply bindM_inr in Hrun as (pn & w6 & Hw6 & Hrun).
  apply within_inr in Hw6 as [Hp ->].
  apply bindM_inr in Hrun as (pg & w7 & Hw7 & Hrun).
  apply within_inr in Hw7 as [Hpg ->].
  injection Hrun as <- _. simpl in Hdata. injection Hdata as <-. simpl.
  rewrite (skipOf_spec _ _ pn lm Hp Hl) in Hsk. injection Hsk as <-.
  unfold Movie_find in Hfind. apply storage_inr in Hfind as (d3 & Hfind & Hd3).
  simpl in Hfind.
  destruct (_ && _) eqn:Hguard; [| done]. injection Hfind as <- <-.
  apply andb_true_iff in Hguard as [Hskip Hlimit].
  apply Z.leb_le in Hskip. apply Z.leb_le in Hlimit.
  unfold Movie_countDocuments in Hcount.
  apply storage_inr in Hcount as (d4 & [= <- <-] & Hd4).
  unfold Movie_aggregate in Hstats.
  apply storage_inr in Hstats as (d5 & [= <- _] & _).
  rewrite Hd3 in Hd4. rewrite Hd3 in Hpg. rewrite Hd4, Hd3.
  exists pn, lm, pg. unfold ordered, found, query.
  destruct (lm =? 0)%Z; done.
Qed.

(** C3. Every list answer that carries data and a limit of 1 or more,
    whatever the storage faults: its page and limit are what [parseInt]
    reads from the parameters; it holds the records of the ordered result
    from position (page - 1) * limit on, at most limit of them; total is
    the number of matching records; pages is a whole number, the least
    count of limit-sized pages that holds total, that is
    ceil(total / limit); page and limit default to 1 and 10; and page 2
    with limit 10 over 15 matching records holds records 11 to 15, and
    pages is 2.  The sort defaults to "-createdAt".  Such an answer is
    given when page and limit are absent or whole numbers from 1 on and
    storage answers.  (A page or limit is read when it is absent, a whole
    number or a plain decimal numeral; a request with any other page or
    limit has no answer in this model.) *)
Theorem C3_pagination (uid : Id) (reqQuery : gmap string Value) (d : Db) :
  let ordered :=
    orderBy (param reqQuery "sort" (VStr "-createdAt"))
            (matching fieldClause (buildQuery uid reqQuery) d) in
  (forall fs r w ld,
     getMovies fieldClause orderBy uncast uid reqQuery (mkWorld d fs) = (inr r, w) ->
     data r = Some ld ->
     (1 <= limit (pagination ld))%Z ->
     let p := page (pagination ld) in
     let l := limit (pagination ld) in
     parseInt (param reqQuery "page" (VNum 1)) = Some p
     /\ parseInt (param reqQuery "limit" (VNum 10)) = Some l
     /\ (1 <= p)%Z
     /\ listMovies ld
        = take (Z.to_nat l) (drop (Z.to_nat ((p - 1) * l)) ordered)
     /\ (Z.of_nat (length (listMovies ld)) <= l)%Z
     /\ total (pagination ld) = Z.of_nat (length ordered)
     /\ (exists n, pages (pagination ld) = Whole n
                   /\ ((n - 1) * l < total (pagination ld) <= n * l)%Z)
     /\ (reqQuery !! "page" = None -> p = 1%Z)
     /\ (reqQuery !! "limit" = None -> l = 10%Z)
     /\ (p = 2%Z -> l = 10%Z -> length ordered = 15 ->
           listMovies ld = drop 10 ordered
           /\ length (listMovies ld) = 5
           /\ pages (pagination ld) = Whole 2))
  /\ (reqQuery !! "sort" = None ->
        ordered = orderBy (VStr "-createdAt")
                    (matching fieldClause (buildQuery uid reqQuery) d))
  /\ (forall p l,
        parseInt (param reqQuery "page" (VNum 1)) = Some p -> (1 <= p)%Z ->
        parseInt (param reqQuery "limit" (VNum 10)) = Some l -> (1 <= l)%Z ->
        exists ld,
          getMovies fieldClause orderBy uncast uid reqQuery (mkWorld d [])
          = (inr (mkResponse 200 (Some ld)), mkWorld d [])
          /\ page (pagination ld) = p /\ limit (pagination ld) = l).
Proof.
  intros ordered.
  assert (length ordered
          = length (matching fieldClause (buildQuery uid reqQuery) d)) as Hlen
    by (unfold ordered; by rewrite orderBy_Permutation).
  split; [| split].
  - intros fs r w ld Hrun Hdata Hl1.
    destruct (getMovies_data uid reqQuery d fs r w ld Hrun Hdata)
      as (p & l & pg & Hp & Hl & Hskip & _ & Hpg & Hlist & Hpag & _).
    fold ordered in Hlist. rewrite Hpag in Hl1 |- *.
    cbv zeta. cbn [page limit total pages] in Hl1 |- *.
    replace (l =? 0)%Z with false in Hlist by (symmetry; apply Z.eqb_neq; lia).
    destruct (pagesOf_spec _ l (Z.of_nat (length ordered)) Hl Hl1)
      as (n & Hn & Hbounds).
    rewrite Hlen, Hpg in Hn. injection Hn as ->.
    split; [done |]. split; [done |]. split; [nia |]. split; [done |].
    split; [rewrite Hlist, length_take; lia |]. split; [by rewrite Hlen |].
    split; [exists n; by rewrite <- Hlen |].
    split; [intros H; unfold param in Hp; rewrite H in Hp; by injection Hp |].
    split; [intros H; unfold param in Hl; rewrite H in Hl; by injection Hl |].
    intros -> -> H15. rewrite Hlist. rewrite H15 in Hbounds.
    change (Z.to_nat ((2 - 1) * 10)) with 10%nat. change (Z.to_nat 10) with 10%nat.
    assert (length (drop 10 ordered) = 5) as Hdrop by (rewrite length_drop; lia).
    split; [apply take_ge; lia |]. split; [by rewrite take_ge by lia |].
    f_equal. lia.
  - intros H. unfold ordered, param. by rewrite H.
  - intros p l Hp Hp1 Hl Hl1.
    destruct (getMovies_run uid reqQuery d p l Hp Hp1 Hl Hl1) as (n & _ & Hrun).
    eexists. split; [exact Hrun |]. done.
Qed.

(** C7. When the predicate of a list request matches no movie, every
    answer that carries data carries the zero-valued summary (count 0,
    average rating 0, total runtime 0, no genres), and with well-formed
    pagination and storage that answers such an answer is given; when the
    user owns no movie the overview is the zero-valued structure with no
    top genres and no years.  Every field of both defaults is defined. *)
Theorem C7_zero_match_defaults
    (uid : Id) (reqQuery : gmap string Value) (d : Db) (p l : Z) :
  parseInt (param reqQuery "page" (VNum 1)) = Some p -> (1 <= p)%Z ->
  parseInt (param reqQuery "limit" (VNum 10)) = Some l -> (1 <= l)%Z ->
  (matching fieldClause (buildQuery uid reqQuery) d = [] ->
     (exists ld,
        getMovies fieldClause orderBy uncast uid reqQuery (mkWorld d [])
        = (inr (mkResponse 200 (Some ld)), mkWorld d [])
        /\ stats ld = statsDefault)
     /\ (forall fs r w ld,
           getMovies fieldClause orderBy uncast uid reqQuery (mkWorld d fs)
           = (inr r, w) ->
           data r = Some ld -> stats ld = statsDefault))
  /\ (matching fieldClause {[ "addedBy" := VStr uid ]} d = [] ->
       getOverviewStats fieldClause uncast uid (mkWorld d [])
       = (inr (mkResponse 200 (Some (mkOverviewData overviewDefault [] []))),
          mkWorld d []))
  /\ (getPropOpt statsDefault "totalMovies" = VNum 0
      /\ getPropOpt statsDefault "avgRating" = VNum 0
      /\ getPropOpt statsDefault "totalRuntime" = VNum 0
      /\ getPropOpt statsDefault "genres" = VArr [])
  /\ (getPropOpt overviewDefault "totalMovies" = VNum 0
      /\ getPropOpt overviewDefault "avgRating" = VNum 0
      /\ getPropOpt overviewDefault "totalRuntime" = VNum 0
      /\ getPropOpt overviewDefault "watchedCount" = VNum 0).
Proof.
  intros Hp Hp1 Hl Hl1. split; [| split; [| by repeat split]].
  - intros Hnone. split.
    + destruct (getMovies_run uid reqQuery d p l Hp Hp1 Hl Hl1) as (n & _ & Hrun).
      eexists. split; [exact Hrun |]. simpl. unfold aggregated. by rewrite Hnone.
    + intros fs r w ld Hrun Hdata.
      destruct (getMovies_data uid reqQuery d fs r w ld Hrun Hdata)
        as (? & ? & ? & _ & _ & _ & _ & _ & _ & _ & ->).
      unfold aggregated. by rewrite Hnone.
  - intros Hnone.
    unfold getOverviewStats, tryCatch, bindM, Movie_aggregate, storage, ret,
      aggregated.
    simpl. by rewrite Hnone.
Qed.

(** X27. Every query the movie handlers build carries the condition
    "addedBy is the requesting user", whatever the request parameters; a
    query that carries it only matches movies of that user; so the list and
    get-one answers only hold movies of the requesting user, toggle-watch
    answers with a movie that was and is the requester's, the movie an
    update selects was the requester's before the update, and update,
    delete and toggle-watch leave every movie of another user as it was. *)
Theorem X27_queries_are_scoped_to_the_requester (uid : Id) :
  (forall reqQuery, scoped uid (buildQuery uid reqQuery))
  /\ (forall id, scoped uid (ownedQuery uid id))
  /\ (forall q d doc,
        scoped uid q -> doc ∈ matching fieldClause q d ->
        movies d !! doc.1 = Some doc.2 /\ addedBy doc.2 = uid)
  /\ (forall reqQuery d fs r w ld,
        getMovies fieldClause orderBy uncast uid reqQuery (mkWorld d fs)
        = (inr r, w) ->
        data r = Some ld ->
        forall doc, doc ∈ listMovies ld ->
          movies d !! doc.1 = Some doc.2 /\ addedBy doc.2 = uid)
  /\ (forall id d fs r w doc,
        getMovie fieldClause uid id (mkWorld d fs) = (inr r, w) ->
        data r = Some doc ->
        movies d !! doc.1 = Some doc.2 /\ addedBy doc.2 = uid)
  /\ (forall id now stamp d fs r w doc,
        toggleWatchStatus fieldClause uid id now stamp (mkWorld d fs) = (inr r, w) ->
        data r = Some doc ->
        addedBy doc.2 = uid
        /\ exists m, movies d !! doc.1 = Some m /\ addedBy m = uid)
  /\ (forall id errors update d fs r w doc,
        updateMovie fieldClause uid id errors update (mkWorld d fs) = (inr r, w) ->
        data r = Some doc ->
        exists m, movies d !! doc.1 = Some m /\ addedBy m = uid
                  /\ doc.2 = update m)
  /\ (forall id errors update now stamp d fs j m,
        movies d !! j = Some m -> addedBy m <> uid ->
        movies (db (updateMovie fieldClause uid id errors update
                      (mkWorld d fs)).2) !! j = Some m
        /\ movies (db (deleteMovie fieldClause uid id (mkWorld d fs)).2) !! j
           = Some m
        /\ movies (db (toggleWatchStatus fieldClause uid id now stamp
                         (mkWorld d fs)).2) !! j = Some m).
Proof.
  assert (Hmatch : forall q d doc,
    scoped uid q -> doc ∈ matching fieldClause q d ->
    movies d !! doc.1 = Some doc.2 /\ addedBy doc.2 = uid).
  { intros q d doc Hq [Hdoc Hm]%matching_elem. split; [done |].
    by eapply matches_scoped. }
  split; [apply buildQuery_scoped |]. split; [apply ownedQuery_scoped |].
  split; [exact Hmatch |]. split; [| split; [| split; [| split]]].
  - intros reqQuery d fs r w ld Hrun Hdata doc Hdoc.
    destruct (getMovies_data uid reqQuery d fs r w ld Hrun Hdata)
      as (p & l & pg & _ & _ & _ & _ & _ & Hlist & _).
    rewrite Hlist in Hdoc.
    assert (doc ∈ orderBy (param reqQuery "sort" (VStr "-createdAt"))
                    (matching fieldClause (buildQuery uid reqQuery) d)) as Hin.
    { destruct (l =? 0)%Z.
      - by apply subseteq_drop in Hdoc.
      - by apply subseteq_take, subseteq_drop in Hdoc. }
    rewrite orderBy_Permutation in Hin.
    eapply Hmatch; [apply buildQuery_scoped | done].
  - intros id d fs r w doc Hrun Hdata.
    unfold getMovie, tryCatch, bindM, Movie_findOne, storage, ret in Hrun.
    pose proof (head_matching_owned_inv fieldClause uid id d) as Hinv.
    destruct fs as [|[] fs]; simpl in Hrun;
      destruct (head (matching fieldClause (ownedQuery uid id) d)) as [doc'|];
      simplify_eq/=; destruct (Hinv _ eq_refl) as (-> & ? & ?); done.
  - intros id now stamp d fs r w doc Hrun Hdata.
    unfold toggleWatchStatus, tryCatch, bindM, Movie_findOne, Movie_save,
      storage, ret in Hrun.
    pose proof (head_matching_owned_inv fieldClause uid id d) as Hinv.
    destruct fs as [|[] [|[] fs]]; simpl in Hrun;
      destruct (head (matching fieldClause (ownedQuery uid id) d)) as [[i m]|];
      simplify_eq/=; destruct (Hinv _ eq_refl) as (? & ? & ?); simplify_eq/=;
      (split; [done | by exists m]).
  - intros id errors update d fs r w doc Hrun Hdata.
    unfold updateMovie, tryCatch, bindM, Movie_findOneAndUpdate, storage, ret
      in Hrun.
    pose proof (head_matching_owned_inv fieldClause uid id d) as Hinv.
    destruct errors; [| by simplify_eq/=].
    destruct fs as [|[] fs]; simpl in Hrun;
      destruct (head (matching fieldClause (ownedQuery uid id) d)) as [[i m]|];
      simplify_eq/=; destruct (Hinv _ eq_refl) as (? & ? & ?); simplify_eq/=;
      by exists m.
  - intros id errors update now stamp d fs j m Hj Hforeign.
    pose proof (head_matching_owned_inv fieldClause uid id d) as Hinv.
    assert (forall doc, head (matching fieldClause (ownedQuery uid id) d) = Some doc ->
                        doc.1 <> j) as Hne.
    { intros doc (-> & Hdoc & Hu)%Hinv ->. congruence. }
    unfold updateMovie, deleteMovie, toggleWatchStatus, tryCatch, bindM,
      Movie_findOneAndUpdate, Movie_findOneAndDelete, Movie_findOne, Movie_save,
      User_findByIdAndUpdate_inc, storage, ret.
    destruct (head (matching fieldClause (ownedQuery uid id) d)) as [[i m']|] eqn:Hhead.
    + specialize (Hne _ eq_refl). simpl in Hne.
      destruct errors; destruct fs as [|[] [|[] fs]]; simpl; rewrite ?Hhead; simpl;
        rewrite ?lookup_insert_ne, ?lookup_delete_ne by done; done.
    + destruct errors; destruct fs as [|[] [|[] fs]]; simpl; rewrite ?Hhead; done.
Qed.

End Listing.

Lemma C3_pagination_witness :
  let reqQuery : gmap string Value :=
    list_to_map [("page", VStr "2"); ("limit", VStr "10")] in
  let ordered :=
    newestFirst (param reqQuery "sort" (VStr "-createdAt"))
                (matching plainClause (buildQuery "u1" reqQuery) sampleDb) in
  exists ld,
    getMovies plainClause newestFirst sameTypes "u1" reqQuery (mkWorld sampleDb [])
    = (inr (mkResponse 200 (Some ld)), mkWorld sampleDb [])
    /\ page (pagination ld) = 2%Z /\ limit (pagination ld) = 10%Z
    /\ total (pagination ld) = 15%Z
    /\ listMovies ld = drop 10 ordered
    /\ fst <$> listMovies ld = ["m05"; "m04"; "m03"; "m02"; "m01"]
    /\ pages (pagination ld) = Whole 2.
Proof.
  intros reqQuery ordered.
  destruct (C3_pagination plainClause newestFirst sameTypes
              newestFirst_Permutation "u1" reqQuery sampleDb)
    as (Hfacts & _ & Hgiven).
  destruct (Hgiven 2%Z 10%Z) as (ld & Hrun & Hp & Hl);
    [reflexivity | lia | reflexivity | lia |].
  exists ld. split; [exact Hrun |].
  destruct (Hfacts [] _ _ ld Hrun eq_refl) as
    (_ & _ & _ & _ & _ & Htotal & _ & _ & _ & Hfifteen); [lia |].
  destruct (Hfifteen Hp Hl) as (Hlist & _ & Hpages); [vm_compute; reflexivity |].
  split; [done |]. split; [done |].
  split; [rewrite Htotal; vm_compute; reflexivity |].
  split; [exact Hlist |].
  split; [rewrite Hlist; vm_compute; reflexivity | exact Hpages].
Defined.

(** A limit of 0 is no limit to the engine and a division by zero to the
    envelope: the answer holds all fifteen movies of "u1" under limit 0,
    and pages is not a number of pages. *)
Lemma C3_counterexample :
  let reqQuery : gmap string Value := {[ "limit" := VStr "0" ]} in
  exists ld,
    getMovies plainClause newestFirst sameTypes "u1" reqQuery (mkWorld sampleDb [])
    = (inr (mkResponse 200 (Some ld)), mkWorld sampleDb [])
    /\ limit (pagination ld) = 0%Z
    /\ length (listMovies ld) = 15
    /\ ~ (Z.of_nat (length (listMovies ld)) <= limit (pagination ld))%Z
    /\ pages (pagination ld) = Infinity
    /\ (forall n, pages (pagination ld) <> Whole n).
Proof.
  intros reqQuery. eexists. split; [vm_compute; reflexivity |]. simpl.
  split; [done |]. split; [done |]. split; [lia |]. split; [done |]. done.
Qed.

(** Page 2 of the fifteen movies of "u1", newest first. *)
Example list_page_two :
  let reqQuery : gmap string Value :=
    list_to_map [("page", VStr "2"); ("limit", VStr "10")] in
  match (getMovies plainClause newestFirst sameTypes "u1" reqQuery
           (mkWorld sampleDb [])).1 with
  | inr r => (fun ld => (fst <$> listMovies ld, pagination ld)) <$> data r
  | inl _ => None
  end
  = Some (["m05"; "m04"; "m03"; "m02"; "m01"], mkPagination 2 10 15 (Whole 2)).
Proof. vm_compute. reflexivity. Qed.

Lemma C7_zero_match_defaults_witness :
  (matching plainClause (buildQuery "u3" ∅) sampleDb = [] ->
     (exists ld,
        getMovies plainClause newestFirst sameTypes "u3" ∅ (mkWorld sampleDb [])
        = (inr (mkResponse 200 (Some ld)), mkWorld sampleDb [])
        /\ stats ld = statsDefault)
     /\ (forall fs r w ld,
           getMovies plainClause newestFirst sameTypes "u3" ∅ (mkWorld sampleDb fs)
           = (inr r, w) ->
           data r = Some ld -> stats ld = statsDefault))
  /\ (matching plainClause {[ "addedBy" := VStr "u3" ]} sampleDb = [] ->
       getOverviewStats plainClause sameTypes "u3" (mkWorld sampleDb [])
       = (inr (mkResponse 200 (Some (mkOverviewData overviewDefault [] []))),
          mkWorld sampleDb []))
  /\ (getPropOpt statsDefault "totalMovies" = VNum 0
      /\ getPropOpt statsDefault "avgRating" = VNum 0
      /\ getPropOpt statsDefault "totalRuntime" = VNum 0
      /\ getPropOpt statsDefault "genres" = VArr [])
  /\ (getPropOpt overviewDefault "totalMovies" = VNum 0
      /\ getPropOpt overviewDefault "avgRating" = VNum 0
      /\ getPropOpt overviewDefault "totalRuntime" = VNum 0
      /\ getPropOpt overviewDefault "watchedCount" = VNum 0).
Proof.
  apply (C7_zero_match_defaults plainClause newestFirst sameTypes "u3" ∅
           sampleDb 1 10);
    [reflexivity | lia | reflexivity | lia].
Defined.

(** "u3" owns no movie. *)
Example overview_of_nothing :
  getOverviewStats plainClause sameTypes "u3" (mkWorld sampleDb [])
  = (inr (mkResponse 200 (Some (mkOverviewData overviewDefault [] []))),
     mkWorld sampleDb []).
Proof. vm_compute. reflexivity. Qed.

(** C8. A movie of one user can be answered to another.  An update whose
    body names another user in [addedBy] passes the ownership condition of
    the query (the movie is the requester's when it is selected) and is
    answered with status 200 and the updated movie, which now belongs to
    the user the body names: "u1" is answered with a movie of "u2", can no
    longer read it, and "u2" can.  A create with the same body is stored
    under the requester. *)
Theorem C8_update_answers_with_a_foreign_movie :
  let give (m : Movie) : Movie :=
    mkMovie (title m) (description m) (director m) (year m) (genres m)
            (duration m) (rating m) "u2" (watched m) (watchDate m)
            (createdAt m) 99 (others m) in
  let updated := updateMovie plainClause "u1" "m03" [] give
                   (mkWorld sampleDb []) in
  let created := createMovie "u1" [] (give (sampleMovie "u1" 20)) "m20"
                   (mkWorld sampleDb []) in
  scoped "u1" (ownedQuery "u1" "m03")
  /\ movies sampleDb !! "m03" = Some (sampleMovie "u1" 3)
  /\ updated.1 = inr (mkResponse 200 (Some ("m03", give (sampleMovie "u1" 3))))
  /\ addedBy (give (sampleMovie "u1" 3)) = "u2"
  /\ (getMovie plainClause "u1" "m03" (mkWorld (db updated.2) [])).1
     = inr (mkResponse 404 None)
  /\ (getMovie plainClause "u2" "m03" (mkWorld (db updated.2) [])).1
     = inr (mkResponse 200 (Some ("m03", give (sampleMovie "u1" 3))))
  /\ (exists doc, created.1 = inr (mkResponse 201 (Some doc))
                  /\ addedBy doc.2 = "u1").
Proof.
  intros give updated created.
  split; [apply ownedQuery_scoped |].
  split; [vm_compute; reflexivity |]. split; [vm_compute; reflexivity |].
  split; [reflexivity |]. split; [vm_compute; reflexivity |].
  split; [vm_compute; reflexivity |].
  eexists. split; [vm_compute; reflexivity | reflexivity].
Qed.

Lemma X27_queries_are_scoped_to_the_requester_witness :
  (forall reqQuery, scoped "u1" (buildQuery "u1" reqQuery))
  /\ (forall id, scoped "u1" (ownedQuery "u1" id))
  /\ (forall q d doc,
        scoped "u1" q -> doc ∈ matching plainClause q d ->
        movies d !! doc.1 = Some doc.2 /\ addedBy doc.2 = "u1")
  /\ (forall reqQuery d fs r w ld,
        getMovies plainClause newestFirst sameTypes "u1" reqQuery (mkWorld d fs)
        = (inr r, w) ->
        data r = Some ld ->
        forall doc, doc ∈ listMovies ld ->
          movies d !! doc.1 = Some doc.2 /\ addedBy doc.2 = "u1")
  /\ (forall id d fs r w doc,
        getMovie plainClause "u1" id (mkWorld d fs) = (inr r, w) ->
        data r = Some doc ->
        movies d !! doc.1 = Some doc.2 /\ addedBy doc.2 = "u1")
  /\ (forall id now stamp d fs r w doc,
        toggleWatchStatus plainClause "u1" id now stamp (mkWorld d fs) = (inr r, w) ->
        data r = Some doc ->
        addedBy doc.2 = "u1"
        /\ exists m, movies d !! doc.1 = Some m /\ addedBy m = "u1")
  /\ (forall id errors update d fs r w doc,
        updateMovie plainClause "u1" id errors update (mkWorld d fs) = (inr r, w) ->
        data r = Some doc ->
        exists m, movies d !! doc.1 = Some m /\ addedBy m = "u1"
                  /\ doc.2 = update m)
  /\ (forall id errors update now stamp d fs j m,
        movies d !! j = Some m -> addedBy m <> "u1" ->
        movies (db (updateMovie plainClause "u1" id errors update
                      (mkWorld d fs)).2) !! j = Some m
        /\ movies (db (deleteMovie plainClause "u1" id (mkWorld d fs)).2) !! j
           = Some m
        /\ movies (db (toggleWatchStatus plainClause "u1" id now stamp
                         (mkWorld d fs)).2) !! j = Some m).
Proof.
  exact (X27_queries_are_scoped_to_the_requester plainClause newestFirst
           sameTypes newestFirst_Permutation "u1").
Defined.

(** A movie of "u2" is not found, changed or deleted by "u1". *)
Example foreign_movie_out_of_reach :
  (getMovie plainClause "u1" "x01" (mkWorld sampleDb [])).1
  = inr (mkResponse 404 None)
  /\ (deleteMovie plainClause "u1" "x01" (mkWorld sampleDb []))
     = (inr (mkResponse 404 None), mkWorld sampleDb []).
Proof. split; vm_compute; reflexivity. Qed.

End ServerFacts.

(** ** More of the client component *)

Module MovieListMoreFacts.

Import MovieListFacts.

(** *** The filter with an empty search term *)

Lemma filterCallback_empty_search {toLowerCase : string -> string}
    (g : string) (m : Value) :
  filterCallback toLowerCase "" g m = Ok (isRecord m && genreMatches g m).
Proof.
  destruct (isRecord m) eqn:Hrec.
  - unfold filterCallback, genreMatches.
    replace (negb (truthy m) || negb (typeofObject m)) with false
      by (by destruct m).
    rewrite !getProp_record by done. done.
  - by rewrite filterCallback_other.
Qed.

Lemma filteredMovies_empty_search {toLowerCase : string -> string}
    (movies : Value) (g : string) :
  filteredMovies toLowerCase movies "" g
  = Ok (List.filter (fun m => isRecord m && genreMatches g m) (entries movies)).
Proof.
  destruct movies as [| | | | | |items]; try done.
  unfold filteredMovies. destruct items as [|x items]; [done |].
  cbn [length Nat.eqb entries]. apply filterM_pure.
  intros m _. apply filterCallback_empty_search.
Qed.

(** X1. With an empty search term the filter never raises, whatever the
    collection holds (entries of any type, fields of any type), and keeps,
    in order, exactly the object entries the genre filter accepts: the
    search plays no part. *)
Theorem X1_empty_search_is_genre_filter
    (toLowerCase : string -> string) (movies : Value) (g : string) :
  exists out,
    filteredMovies toLowerCase movies "" g = Ok out
    /\ sublist out (entries movies)
    /\ forall m, m ∈ out <->
         m ∈ entries movies /\ isRecord m = true /\ genreMatches g m = true.
Proof.
  eexists. split; [apply filteredMovies_empty_search |].
  split; [apply filter_sublist |]. intros m.
  by rewrite list_elem_of_In, filter_In, <- list_elem_of_In, andb_true_iff.
Qed.

(** The sort keeps what it is given. *)
Lemma insertSorted_Permutation (cmp : Value -> Value -> Cmp) (x : Value)
    (l l' : list Value) :
  insertSorted cmp x l = Some l' -> l' ≡ₚ x :: l.
Proof.
  revert l'. induction l as [|y l IH]; intros l'; simpl.
  - by intros [= <-].
  - destruct (cmp x y) as [c| |]; try done.
    destruct (Qle_bool c 0); [by intros [= <-] |].
    destruct (insertSorted cmp x l) as [rest|]; [| done]. simpl.
    intros [= <-]. rewrite (IH rest eq_refl). apply Permutation_swap.
Qed.

Lemma arraySort_Permutation (cmp : Value -> Value -> Cmp) (l v : list Value) :
  arraySort cmp l = Some v -> v ≡ₚ l.
Proof.
  revert v. induction l as [|x l IH]; intros v; simpl.
  - by intros [= <-].
  - destruct (arraySort cmp l) as [sorted|]; [| done]. simpl. intros Hv.
    apply insertSorted_Permutation in Hv. by rewrite Hv, (IH sorted eq_refl).
Qed.

(** X2. Every genre the component offers besides the leading "all" is the
    genre of some movie of the collection; with an empty search and that
    genre chosen the filter keeps that movie, and every view that is
    computed for that choice, under any sort, shows it. *)
Theorem X2_offered_genre_shows_a_movie
    (toLowerCase : string -> string) (localeCompare : string -> string -> Z)
    (movies : Value) (g : string) :
  g ∈ tail (uniqueGenres movies) ->
  exists m out,
    m ∈ entries movies
    /\ getPropOpt m "genre" = VStr g
    /\ filteredMovies toLowerCase movies "" g = Ok out
    /\ m ∈ out
    /\ forall st v,
         view toLowerCase localeCompare movies "" g st = Some (Ok v) -> m ∈ v.
Proof.
  intros Hg.
  assert (g <> "" /\ exists m, m ∈ entries movies /\ getPropOpt m "genre" = VStr g)
    as (Hne & m & Hm & Hgenre).
  { destruct movies as [| | | | | |items]; try by apply elem_of_nil in Hg.
    destruct items as [|x items]; [by apply elem_of_nil in Hg |].
    unfold uniqueGenres in Hg. cbn [length Nat.eqb tail] in Hg.
    unfold newSet in Hg. rewrite foldl_setAdd_elem in Hg.
    destruct Hg as [Hg | Hg]; [by apply elem_of_nil in Hg |].
    by apply genre_strings_elem in Hg. }
  assert (m ∈ List.filter (fun m => isRecord m && genreMatches g m)
                (entries movies)) as Hkept.
  { apply list_elem_of_In, filter_In. split; [by apply list_elem_of_In |].
    unfold genreMatches, orElse. rewrite Hgenre. simpl.
    destruct (String.eqb_spec g ""); [done |]. simpl.
    rewrite String.eqb_refl, orb_true_r, andb_true_r.
    by destruct m. }
  exists m. eexists. split; [done |]. split; [done |].
  split; [apply filteredMovies_empty_search |]. split; [done |].
  intros st v Hv. unfold view, filteredAndSortedMovies in Hv.
  rewrite filteredMovies_empty_search in Hv.
  destruct (arraySort _ _) as [v'|] eqn:Hsort; [| done].
  injection Hv as <-. apply arraySort_Permutation in Hsort. by rewrite Hsort.
Qed.

Lemma X2_offered_genre_shows_a_movie_witness :
  exists m out,
    m ∈ entries (VArr [dune; VNum 3; arrival])
    /\ getPropOpt m "genre" = VStr "Sci-Fi"
    /\ filteredMovies asciiLowerCase (VArr [dune; VNum 3; arrival]) "" "Sci-Fi"
       = Ok out
    /\ m ∈ out
    /\ forall st v,
         view asciiLowerCase codeCompare (VArr [dune; VNum 3; arrival])
              "" "Sci-Fi" st = Some (Ok v) -> m ∈ v.
Proof.
  apply X2_offered_genre_shows_a_movie. vm_compute. left.
Defined.

(** *** The folds on an array *)

Lemma mapM_pure (f : Value -> Res Value) (h : Value -> Value) (l : list Value) :
  (forall m, m ∈ l -> f m = Ok (h m)) -> Js.mapM f l = Ok (map h l).
Proof.
  induction l as [|x l IH]; intros H; simpl; [done |].
  rewrite (H x) by left. simpl. by rewrite IH by (intros; apply H; by right).
Qed.

Lemma updateUpdater_run (items : list Value) (id : string) (u : Value) :
  (forall m, m ∈ items -> nullish m = false) ->
  updateUpdater id u (VArr items)
  = Ok (VArr (map (fun m => if hasId id m then u else m) items)).
Proof.
  intros H. unfold updateUpdater.
  rewrite (mapM_pure _ (fun m => if hasId id m then u else m)); [done |].
  intros m Hm. by rewrite (getProp_defined _ _ (H m Hm)).
Qed.

Lemma filter_twice {A} (p : A -> bool) (l : list A) :
  List.filter p (List.filter p l) = List.filter p l.
Proof.
  apply filter_keeps_all. intros x Hx. by apply list_elem_of_In, filter_In in Hx as [_ ?].
Qed.

Lemma filter_swap {A} (p q : A -> bool) (l : list A) :
  List.filter p (List.filter q l) = List.filter q (List.filter p l).
Proof.
  induction l as [|x l IH]; simpl; [done |].
  destruct (p x) eqn:Hp, (q x) eqn:Hq; simpl; rewrite ?Hp, ?Hq; by rewrite IH.
Qed.

Lemma filtered_not_nullish (p : Value -> bool) (l : list Value) :
  (forall m, m ∈ l -> nullish m = false) ->
  forall m, m ∈ List.filter p l -> nullish m = false.
Proof.
  intros H m Hm. apply H. by apply list_elem_of_In, filter_In in Hm as [?%list_elem_of_In _].
Qed.

(** X3. On an array without [null] or [undefined] entries the delete fold
    leaves no entry carrying the identifier, folding the same identifier
    again changes nothing, and folds for two identifiers give the same
    collection in either order. *)
Theorem X3_delete_fold_laws (items : list Value) (id id' : string) :
  (forall m, m ∈ items -> nullish m = false) ->
  exists kept,
    deleteUpdater id (VArr items) = Ok (VArr kept)
    /\ (forall m, m ∈ kept -> hasId id m = false)
    /\ deleteUpdater id (VArr kept) = Ok (VArr kept)
    /\ (kept' <- deleteUpdater id' (VArr items) ;; deleteUpdater id kept')%js
       = deleteUpdater id' (VArr kept).
Proof.
  intros H. eexists. split; [by apply deleteUpdater_run |].
  split; [| split].
  - intros m Hm. apply list_elem_of_In, filter_In in Hm as [_ Hm].
    by apply negb_true_iff.
  - rewrite deleteUpdater_run by (by apply filtered_not_nullish).
    by rewrite filter_twice.
  - rewrite (deleteUpdater_run items id') by done. cbn [bind].
    rewrite !deleteUpdater_run by (by apply filtered_not_nullish).
    by rewrite filter_swap.
Qed.

Lemma X3_delete_fold_laws_witness :
  exists kept,
    deleteUpdater "m1" (VArr [dune; arrival; dune]) = Ok (VArr kept)
    /\ (forall m, m ∈ kept -> hasId "m1" m = false)
    /\ deleteUpdater "m1" (VArr kept) = Ok (VArr kept)
    /\ (kept' <- deleteUpdater "m2" (VArr [dune; arrival; dune]) ;;
        deleteUpdater "m1" kept')%js
       = deleteUpdater "m2" (VArr kept).
Proof.
  apply X3_delete_fold_laws. intros m Hm.
  apply elem_of_cons in Hm as [-> | Hm]; [reflexivity |].
  apply elem_of_cons in Hm as [-> | Hm]; [reflexivity |].
  apply elem_of_cons in Hm as [-> | Hm]; [reflexivity |].
  by apply elem_of_nil in Hm.
Defined.

(** X4. On an array without [null] or [undefined] entries the update fold
    keeps the length and every position: an entry carrying the identifier
    becomes the updated record where it stands, every other entry stays;
    when no entry carries the identifier the collection is unchanged. *)
Theorem X4_update_fold_in_place (items : list Value) (id : string) (u : Value) :
  (forall m, m ∈ items -> nullish m = false) ->
  exists items',
    updateUpdater id u (VArr items) = Ok (VArr items')
    /\ length items' = length items
    /\ (forall i m, items !! i = Some m ->
          items' !! i = Some (if hasId id m then u else m))
    /\ ((forall m, m ∈ items -> hasId id m = false) -> items' = items).
Proof.
  intros H. eexists. split; [by apply updateUpdater_run |].
  split; [apply length_map |]. split.
  - intros i m Hi. change (map ?f ?l) with (f <$> l).
    by rewrite list_lookup_fmap, Hi.
  - intros Hnone. clear H. induction items as [|x items IH]; simpl; [done |].
    rewrite (Hnone x) by left. f_equal. apply IH. intros; apply Hnone; by right.
Qed.

Lemma X4_update_fold_in_place_witness :
  exists items',
    updateUpdater "m2" (obj [("_id", VStr "m2"); ("name", VStr "Arrival II")])
                  (VArr [dune; arrival]) = Ok (VArr items')
    /\ length items' = length [dune; arrival]
    /\ (forall i m, [dune; arrival] !! i = Some m ->
          items' !! i
          = Some (if hasId "m2" m
                  then obj [("_id", VStr "m2"); ("name", VStr "Arrival II")]
                  else m))
    /\ ((forall m, m ∈ [dune; arrival] -> hasId "m2" m = false) ->
        items' = [dune; arrival]).
Proof.
  apply X4_update_fold_in_place. intros m Hm.
  apply elem_of_cons in Hm as [-> | Hm]; [reflexivity |].
  apply elem_of_cons in Hm as [-> | Hm]; [reflexivity |].
  by apply elem_of_nil in Hm.
Defined.

(** X5. When the updated record carries the identifier it was stored
    under, updating twice is updating once, and an update followed by the
    delete of that identifier leaves what the delete alone leaves. *)
Theorem X5_update_then_delete (items : list Value) (id : string) (u : Value) :
  (forall m, m ∈ items -> nullish m = false) ->
  hasId id u = true ->
  (items' <- updateUpdater id u (VArr items) ;; updateUpdater id u items')%js
  = updateUpdater id u (VArr items)
  /\ (items' <- updateUpdater id u (VArr items) ;; deleteUpdater id items')%js
     = deleteUpdater id (VArr items).
Proof.
  intros H Hu.
  assert (nullish u = false) as Hnu by (by destruct u).
  assert (forall m, m ∈ map (fun m => if hasId id m then u else m) items ->
                    nullish m = false) as H'.
  { intros m (x & -> & Hx)%list_elem_of_fmap. destruct (hasId id x); auto. }
  rewrite updateUpdater_run by done. cbn [bind].
  rewrite updateUpdater_run, deleteUpdater_run by done.
  rewrite deleteUpdater_run by done. split; do 2 f_equal.
  - rewrite map_map. apply map_ext. intros m.
    destruct (hasId id m) eqn:Hm; by rewrite ?Hu, ?Hm.
  - clear H H'. induction items as [|x items IH]; simpl; [done |].
    destruct (hasId id x) eqn:Hx; simpl; rewrite ?Hu, ?Hx; simpl; by rewrite IH.
Qed.

Lemma X5_update_then_delete_witness :
  let u := obj [("_id", VStr "m2"); ("name", VStr "Arrival II")] in
  (items' <- updateUpdater "m2" u (VArr [dune; arrival]) ;;
   updateUpdater "m2" u items')%js
  = updateUpdater "m2" u (VArr [dune; arrival])
  /\ (items' <- updateUpdater "m2" u (VArr [dune; arrival]) ;;
      deleteUpdater "m2" items')%js
     = deleteUpdater "m2" (VArr [dune; arrival]).
Proof.
  intros u. apply X5_update_then_delete; [| reflexivity]. intros m Hm.
  apply elem_of_cons in Hm as [-> | Hm]; [reflexivity |].
  apply elem_of_cons in Hm as [-> | Hm]; [reflexivity |].
  by apply elem_of_nil in Hm.
Defined.

(** *** The sort keeps what the filter kept *)

Lemma filterM_Ok (f : Value -> Res bool) (l out : list Value) :
  filterM f l = Ok out ->
  sublist out l /\ forall m, m ∈ out -> f m = Ok true.
Proof.
  revert out. induction l as [|x l IH]; intros out; simpl.
  - intros [= <-]. split; [constructor |]. by intros m ?%elem_of_nil.
  - destruct (f x) as [keep|] eqn:Hx; [| done]. simpl.
    destruct (filterM f l) as [rest|]; [| done]. simpl.
    destruct (IH rest eq_refl) as [Hsub Hall].
    destruct keep; intros [= <-].
    + split; [by constructor |].
      intros m [-> | Hm]%elem_of_cons; auto.
    + split; [by constructor | done].
Qed.

(** What the filter keeps is an object entry of the collection. *)
Lemma filteredMovies_Ok {toLowerCase : string -> string}
    (movies : Value) (s g : string) (out : list Value) :
  filteredMovies toLowerCase movies s g = Ok out ->
  sublist out (entries movies) /\ forall m, m ∈ out -> isRecord m = true.
Proof.
  assert (out = [] -> sublist out (entries movies)
                      /\ forall m, m ∈ out -> isRecord m = true) as Hnil.
  { intros ->. split; [apply sublist_nil_l |]. by intros m ?%elem_of_nil. }
  destruct movies as [| | | | | |items]; try by intros [= <-]; apply Hnil.
  unfold filteredMovies. destruct items as [|x items]; [by intros [= <-]; apply Hnil |].
  cbn [length Nat.eqb entries]. intros [Hsub Hall]%filterM_Ok. split; [done |].
  intros m Hm. specialize (Hall m Hm).
  destruct (isRecord m) eqn:Hrec; [done |].
  by rewrite filterCallback_other in Hall.
Qed.

(** X6. Whatever the sort key and direction, a view that is computed is a
    rearrangement of what the filter kept: sorting neither drops nor
    repeats a movie, every movie shown is an object entry of the
    collection, and "Showing" never exceeds "Total". *)
Theorem X6_view_rearranges_filtered
    (toLowerCase : string -> string) (localeCompare : string -> string -> Z) (movies : Value) (s g : string)
    (st : SortState) (v : list Value) :
  view toLowerCase localeCompare movies s g st = Some (Ok v) ->
  exists filtered,
    filteredMovies toLowerCase movies s g = Ok filtered
    /\ v ≡ₚ filtered
    /\ (forall m, m ∈ v -> m ∈ entries movies /\ isRecord m = true)
    /\ length v <= length (entries movies).
Proof.
  unfold view, filteredAndSortedMovies.
  destruct (filteredMovies toLowerCase movies s g) as [filtered|] eqn:Hf; [| done].
  destruct (arraySort _ filtered) as [v'|] eqn:Hsort; [| done].
  intros [= <-]. apply arraySort_Permutation in Hsort.
  destruct (filteredMovies_Ok _ _ _ _ Hf) as [Hsub Hrec].
  exists filtered. split; [done |]. split; [done |]. split.
  - intros m Hm. rewrite Hsort in Hm. split; [| by apply Hrec].
    by apply (sublist_subseteq _ _ Hsub).
  - rewrite Hsort. by apply sublist_length.
Qed.

Lemma X6_view_rearranges_filtered_witness :
  exists filtered,
    filteredMovies asciiLowerCase (VArr [dune; VNull; arrival]) "" "all" = Ok filtered
    /\ [arrival; dune] ≡ₚ filtered
    /\ (forall m, m ∈ [arrival; dune] ->
          m ∈ entries (VArr [dune; VNull; arrival]) /\ isRecord m = true)
    /\ length [arrival; dune] <= length (entries (VArr [dune; VNull; arrival])).
Proof.
  apply (X6_view_rearranges_filtered asciiLowerCase codeCompare (VArr [dune; VNull; arrival])
           "" "all" {| sortBy := "year"; sortOrder := "asc" |}).
  vm_compute. reflexivity.
Defined.

(** *** Sorting by a number: order and stability *)

Section Ranked.

Variable cmp : Value -> Value -> Cmp.
Variable key : Value -> option Q.

Let le (a b : Value) : Prop :=
  exists x y, key a = Some x /\ key b = Some y /\ (x <= y)%Q.

Let agree (x y : Value) : Prop :=
  exists kx ky c,
    key x = Some kx /\ key y = Some ky
    /\ cmp x y = CmpNum c /\ (c == kx - ky)%Q.

Let classy (p : Value -> bool) : Prop :=
  forall a b, p a = true -> p b = true ->
    exists x y, key a = Some x /\ key b = Some y /\ (x == y)%Q.

Lemma insertSorted_ranked (x : Value) (l : list Value) :
  (forall y, y ∈ l -> agree x y) ->
  StronglySorted le l ->
  exists l',
    insertSorted cmp x l = Some l'
    /\ l' ≡ₚ x :: l
    /\ StronglySorted le l'
    /\ forall p, classy p -> List.filter p l' = List.filter p (x :: l).
Proof.
  induction l as [|y l IH]; intros Hx Hl.
  - exists [x]. simpl. split; [done |]. split; [done |].
    split; [repeat constructor | done].
  - apply StronglySorted_cons in Hl as [Hy Hl].
    destruct (Hx y) as (kx & ky & c & Hkx & Hky & Hc & Hval); [by left |].
    simpl. rewrite Hc. destruct (Qle_bool c 0) eqn:Hle.
    + apply Qle_bool_iff in Hle. eexists. split; [done |]. split; [done |].
      split; [| done].
      apply StronglySorted_cons. split; [| by apply StronglySorted_cons].
      constructor.
      * exists kx, ky. repeat split; [done.. | lra].
      * eapply Forall_impl; [exact Hy |]. intros z (ky' & kz & Hky' & Hkz & Hyz).
        exists kx, kz. repeat split; [done.. |].
        rewrite Hky in Hky'. injection Hky' as <-. lra.
    + assert (~ (c <= 0)%Q) as Hgt by (intros H%Qle_bool_iff; congruence).
      destruct IH as (l' & -> & Hperm & Hsorted & Hstable);
        [by intros; apply Hx; right | done |].
      simpl. eexists. split; [done |]. split; [| split].
      * rewrite Hperm. apply Permutation_swap.
      * apply StronglySorted_cons. split; [| done]. rewrite Hperm.
        constructor; [| done]. exists ky, kx. repeat split; [done.. | lra].
      * intros p Hp. simpl. rewrite (Hstable p Hp). simpl.
        destruct (p x) eqn:Hpx, (p y) eqn:Hpy; try done.
        destruct (Hp x y Hpx Hpy) as (kx' & ky' & Hkx' & Hky' & Heq).
        rewrite Hkx in Hkx'. rewrite Hky in Hky'.
        injection Hkx' as <-. injection Hky' as <-. lra.
Qed.

Lemma arraySort_ranked (l : list Value) :
  (forall x y, x ∈ l -> y ∈ l -> agree x y) ->
  exists v,
    arraySort cmp l = Some v
    /\ v ≡ₚ l
    /\ StronglySorted le v
    /\ forall p, classy p -> List.filter p v = List.filter p l.
Proof.
  induction l as [|x l IH]; intros Hl.
  - exists []. simpl. split; [done |]. split; [done |]. split; [constructor | done].
  - destruct IH as (s & Hs & Hperm & Hsorted & Hstable).
    { intros y z Hy Hz. apply Hl; by right. }
    destruct (insertSorted_ranked x s) as (v & Hv & Hperm' & Hsorted' & Hstable').
    { intros y Hy. rewrite Hperm in Hy. apply Hl; [left | by right]. }
    { done. }
    exists v. simpl. rewrite Hs. simpl. split; [done |].
    split; [by rewrite Hperm', Hperm |]. split; [done |].
    intros p Hp. rewrite (Hstable' p Hp). simpl. by rewrite (Hstable p Hp).
Qed.

(** An element that no later one precedes goes in front. *)
Lemma insertSorted_front (x : Value) (l : list Value) (kx : Q) :
  key x = Some kx ->
  (forall z, z ∈ l -> agree x z /\ exists kz, key z = Some kz /\ (kx <= kz)%Q) ->
  insertSorted cmp x l = Some (x :: l).
Proof.
  intros Hkx H. destruct l as [|z l]; [done |]. simpl.
  destruct (H z) as [(kx' & kz & c & Hkx' & Hkz & -> & Hc) (kz' & Hkz' & Hle)];
    [by left |].
  rewrite Hkx in Hkx'. rewrite Hkz in Hkz'.
  injection Hkx' as <-. injection Hkz' as <-.
  replace (Qle_bool c 0) with true; [done |].
  symmetry. apply Qle_bool_iff. lra.
Qed.

(** Sorting what a test keeps is keeping what the test keeps of the sorted
    list. *)
Lemma insertSorted_filter (p : Value -> bool) (x : Value) (l l' : list Value) :
  (forall y, y ∈ l -> agree x y) ->
  StronglySorted le l ->
  insertSorted cmp x l = Some l' ->
  exists l'',
    insertSorted cmp x (List.filter p l) = Some l''
    /\ List.filter p l' = (if p x then l'' else List.filter p l).
Proof.
  revert l'. induction l as [|y l IH]; intros l' Hx Hl.
  - simpl. intros [= <-]. exists [x]. simpl. by destruct (p x).
  - apply StronglySorted_cons in Hl as [Hy Hl].
    destruct (Hx y) as (kx & ky & c & Hkx & Hky & Hc & Hval); [by left |].
    cbn [insertSorted]. rewrite Hc. destruct (Qle_bool c 0) eqn:Hle.
    + apply Qle_bool_iff in Hle. intros [= <-].
      exists (x :: List.filter p (y :: l)). split.
      * apply (insertSorted_front _ _ kx Hkx). intros z Hz.
        apply list_elem_of_In, filter_In in Hz as [Hz%list_elem_of_In _].
        split; [by apply Hx |].
        apply elem_of_cons in Hz as [-> | Hz].
        -- exists ky. split; [done | lra].
        -- rewrite Forall_forall in Hy.
           destruct (Hy z Hz) as (ky' & kz & Hky' & Hkz & Hyz).
           rewrite Hky in Hky'. injection Hky' as <-.
           exists kz. split; [done | lra].
      * cbn [List.filter]. by destruct (p x).
    + destruct (insertSorted cmp x l) as [rest|] eqn:Hrest; [| done].
      simpl. intros [= <-].
      destruct (IH rest) as (rest' & Hrest' & Hfilter);
        [by intros; apply Hx; right | done | done |].
      cbn [List.filter]. destruct (p y) eqn:Hpy.
      * cbn [insertSorted]. rewrite Hc, Hle, Hrest'. simpl.
        eexists. split; [done |]. rewrite Hfilter. by destruct (p x).
      * exists rest'. split; [done |]. exact Hfilter.
Qed.

Lemma arraySort_filter (p : Value -> bool) (l v : list Value) :
  (forall x y, x ∈ l -> y ∈ l -> agree x y) ->
  arraySort cmp l = Some v ->
  arraySort cmp (List.filter p l) = Some (List.filter p v).
Proof.
  revert v. induction l as [|x l IH]; intros v Hl.
  - simpl. by intros [= <-].
  - destruct (arraySort_ranked l) as (sorted & Hsorted & Hperm & Hord & _);
      [by intros y z Hy Hz; apply Hl; right |].
    cbn [arraySort]. rewrite Hsorted. simpl. intros Hv.
    specialize (IH sorted ltac:(by intros y z Hy Hz; apply Hl; right) Hsorted).
    destruct (insertSorted_filter p x sorted v) as (v' & Hv' & Hfilter);
      [| done | done |].
    { intros y Hy. rewrite Hperm in Hy. apply Hl; [by left | by right]. }
    cbn [List.filter]. rewrite Hfilter. destruct (p x); [| done].
    cbn [arraySort]. rewrite IH. simpl. exact Hv'.
Qed.

End Ranked.

Lemma comparisonOf_numeric (localeCompare : string -> string -> Z)
    (k : string) (x y : Value) (kx ky : Q) :
  k = "year" \/ k = "rating" ->
  isRecord x = true -> isRecord y = true ->
  sortKey k x = Some kx -> sortKey k y = Some ky ->
  comparisonOf localeCompare k x y = CmpNum (kx - ky).
Proof.
  intros Hk Hx Hy. unfold comparisonOf, sortKey, subtract.
  replace (nullish x || nullish y) with false
    by (by destruct x, y).
  by destruct Hk as [-> | ->]; simpl; intros -> ->.
Qed.

(** X7. Sorting by year or by rating, when every visible movie has a
    numeric (or missing) value there: the ascending view is in
    non-decreasing key order and the descending view in non-increasing
    key order, and in both the movies that share a key stand in the order
    the collection has them (the sort is stable). *)
Theorem X7_numeric_sort_ordered_and_stable
    (toLowerCase : string -> string) (localeCompare : string -> string -> Z) (movies : Value) (s g k : string)
    (filtered : list Value) :
  k = "year" \/ k = "rating" ->
  filteredMovies toLowerCase movies s g = Ok filtered ->
  forallb (hasSortKey k) filtered = true ->
  exists up down,
    view toLowerCase localeCompare movies s g {| sortBy := k; sortOrder := "asc" |}
    = Some (Ok up)
    /\ view toLowerCase localeCompare movies s g {| sortBy := k; sortOrder := "desc" |}
       = Some (Ok down)
    /\ StronglySorted (keyLe k) up
    /\ StronglySorted (flip (keyLe k)) down
    /\ forall q,
         List.filter (keyIs k q) up = List.filter (keyIs k q) filtered
         /\ List.filter (keyIs k q) down = List.filter (keyIs k q) filtered.
Proof.
  intros Hk Hf Hkeys.
  destruct (filteredMovies_Ok _ _ _ _ Hf) as [_ Hrec].
  rewrite forallb_forall in Hkeys.
  assert (forall m, m ∈ filtered -> exists q, sortKey k m = Some q) as Hkey.
  { intros m Hm%list_elem_of_In. specialize (Hkeys m Hm). unfold hasSortKey in Hkeys.
    destruct (sortKey k m); [by eexists | done]. }
  destruct (arraySort_ranked (comparisonOf localeCompare k) (sortKey k) filtered)
    as (up & Hup & _ & Hsorted & Hstable).
  { intros x y Hx Hy. destruct (Hkey x Hx) as [kx Hkx], (Hkey y Hy) as [ky Hky].
    exists kx, ky, (kx - ky)%Q.
    split; [done |]. split; [done |]. split; [| done].
    apply comparisonOf_numeric; auto. }
  destruct (arraySort_ranked (flipped (comparisonOf localeCompare k))
              (fun m => Qopp <$> sortKey k m) filtered)
    as (down & Hdown & _ & Hsorted' & Hstable').
  { intros x y Hx Hy. destruct (Hkey x Hx) as [kx Hkx], (Hkey y Hy) as [ky Hky].
    exists (- kx)%Q, (- ky)%Q, (- (kx - ky))%Q. rewrite Hkx, Hky.
    split; [done |]. split; [done |]. split; [| ring]. unfold flipped.
    by rewrite (comparisonOf_numeric _ k x y kx ky) by auto. }
  exists up, down. unfold view, filteredAndSortedMovies. simpl. rewrite Hf.
  change (compareMovies localeCompare k "asc")
    with (comparisonOf localeCompare k).
  change (compareMovies localeCompare k "desc")
    with (flipped (comparisonOf localeCompare k)).
  rewrite Hup, Hdown. split; [done |]. split; [done |].
  split; [exact Hsorted |]. split.
  - eapply SortFacts.StronglySorted_weaken; [| exact Hsorted'].
    intros a b (x & y & Ha & Hb & Hle). unfold flip, keyLe.
    destruct (sortKey k a) as [ka|]; [| done].
    destruct (sortKey k b) as [kb|]; [| done].
    simpl in Ha, Hb. injection Ha as <-. injection Hb as <-.
    exists kb, ka. repeat split. lra.
  - intros q. split.
    + apply Hstable. intros a b Ha Hb. unfold keyIs in Ha, Hb.
      destruct (sortKey k a) as [ka|]; [| done].
      destruct (sortKey k b) as [kb|]; [| done].
      apply Qeq_bool_iff in Ha, Hb. exists ka, kb. repeat split. lra.
    + apply Hstable'. intros a b Ha Hb. unfold keyIs in Ha, Hb.
      destruct (sortKey k a) as [ka|]; [| done].
      destruct (sortKey k b) as [kb|]; [| done].
      apply Qeq_bool_iff in Ha, Hb. exists (- ka)%Q, (- kb)%Q. repeat split. lra.
Qed.

Lemma X7_numeric_sort_ordered_and_stable_witness :
  exists up down,
    view asciiLowerCase codeCompare (VArr [dune; VNull; arrival]) "" "all"
         {| sortBy := "year"; sortOrder := "asc" |} = Some (Ok up)
    /\ view asciiLowerCase codeCompare (VArr [dune; VNull; arrival]) "" "all"
            {| sortBy := "year"; sortOrder := "desc" |} = Some (Ok down)
    /\ StronglySorted (keyLe "year") up
    /\ StronglySorted (flip (keyLe "year")) down
    /\ forall q,
         List.filter (keyIs "year" q) up
         = List.filter (keyIs "year" q) [dune; arrival]
         /\ List.filter (keyIs "year" q) down
            = List.filter (keyIs "year" q) [dune; arrival].
Proof.
  apply (X7_numeric_sort_ordered_and_stable asciiLowerCase codeCompare
           (VArr [dune; VNull; arrival]) "" "all" "year" [dune; arrival]).
  - by left.
  - vm_compute. reflexivity.
  - vm_compute. reflexivity.
Defined.

(** *** The year range of the footer *)

Lemma view_filtered {toLowerCase : string -> string}
    (localeCompare : string -> string -> Z) (movies : Value)
    (s g : string) (st : SortState) (v : list Value) :
  view toLowerCase localeCompare movies s g st = Some (Ok v) ->
  exists filtered, filteredMovies toLowerCase movies s g = Ok filtered /\ v ≡ₚ filtered.
Proof.
  unfold view, filteredAndSortedMovies.
  destruct (filteredMovies toLowerCase movies s g) as [filtered|]; [| done].
  destruct (arraySort _ filtered) as [v'|] eqn:Hsort; [| done].
  intros [= <-]. exists filtered. split; [done |].
  by apply arraySort_Permutation in Hsort.
Qed.

Lemma foldl_Qmin_spec (t : list Q) (x : Q) :
  foldl Qmin x t ∈ x :: t
  /\ forall y, y ∈ x :: t -> (foldl Qmin x t <= y)%Q.
Proof.
  revert x. induction t as [|a t IH]; intros x; simpl.
  - split; [by left |]. intros y [-> | []%elem_of_nil]%elem_of_cons. apply Qle_refl.
  - destruct (IH (Qmin x a)) as [Hin Hle]. split.
    + apply elem_of_cons in Hin as [-> | Hin]; [| by right; right].
      unfold Qmin, GenericMinMax.gmin.
      destruct (x ?= a)%Q; [by left | by left | by right; left].
    + intros y Hy.
      assert (foldl Qmin (Qmin x a) t <= Qmin x a)%Q as Hm by (apply Hle; by left).
      apply elem_of_cons in Hy as [-> | [-> | Hy]%elem_of_cons].
      * eapply Qle_trans; [exact Hm | apply Q.le_min_l].
      * eapply Qle_trans; [exact Hm | apply Q.le_min_r].
      * apply Hle. by right.
Qed.

Lemma foldl_Qmax_spec (t : list Q) (x : Q) :
  foldl Qmax x t ∈ x :: t
  /\ forall y, y ∈ x :: t -> (y <= foldl Qmax x t)%Q.
Proof.
  revert x. induction t as [|a t IH]; intros x; simpl.
  - split; [by left |]. intros y [-> | []%elem_of_nil]%elem_of_cons. apply Qle_refl.
  - destruct (IH (Qmax x a)) as [Hin Hle]. split.
    + apply elem_of_cons in Hin as [-> | Hin]; [| by right; right].
      unfold Qmax, GenericMinMax.gmax.
      destruct (x ?= a)%Q; [by left | by right; left | by left].
    + intros y Hy.
      assert (Qmax x a <= foldl Qmax (Qmax x a) t)%Q as Hm by (apply Hle; by left).
      apply elem_of_cons in Hy as [-> | [-> | Hy]%elem_of_cons].
      * eapply Qle_trans; [apply Q.le_max_l | exact Hm].
      * eapply Qle_trans; [apply Q.le_max_r | exact Hm].
      * apply Hle. by right.
Qed.

Lemma numbersOf_years (l : list Value) :
  (forall m, m ∈ l -> is_Some (yearOf m)) ->
  exists ys,
    numbersOf (map (fun m => orElse (getPropOpt m "releaseYear") (VNum 0)) l)
    = Some ys
    /\ Forall2 (fun m y => yearOf m = Some y) l ys.
Proof.
  induction l as [|m l IH]; intros H.
  - exists []. by split.
  - destruct IH as (ys & Hys & Hall); [by intros; apply H; right |].
    destruct (H m) as [y Hy]; [by left |].
    exists (y :: ys). simpl. unfold yearOf in Hy. rewrite Hy, Hys. simpl.
    split; [done |]. by constructor.
Qed.

Lemma Forall2_elem_l {A B} (R : A -> B -> Prop) (l : list A) (k : list B) (x : A) :
  Forall2 R l k -> x ∈ l -> exists y, y ∈ k /\ R x y.
Proof.
  induction 1 as [|a b l k Hab _ IH]; [by intros ?%elem_of_nil |].
  intros [-> | Hx]%elem_of_cons.
  - exists b. split; [by left | done].
  - destruct (IH Hx) as (y & Hy & Hxy). exists y. split; [by right | done].
Qed.

Lemma Forall2_elem_r {A B} (R : A -> B -> Prop) (l : list A) (k : list B) (y : B) :
  Forall2 R l k -> y ∈ k -> exists x, x ∈ l /\ R x y.
Proof.
  induction 1 as [|a b l k Hab _ IH]; [by intros ?%elem_of_nil |].
  intros [-> | Hy]%elem_of_cons.
  - exists a. split; [by left | done].
  - destruct (IH Hy) as (x & Hx & Hxy). exists x. split; [by right | done].
Qed.

Lemma yearRange_spec (l : list Value) :
  l <> [] -> (forall m, m ∈ l -> is_Some (yearOf m)) ->
  exists lo hi,
    yearRange l = Some (lo, hi)
    /\ (forall m, m ∈ l -> exists y, yearOf m = Some y /\ (lo <= y <= hi)%Q)
    /\ (exists m, m ∈ l /\ yearOf m = Some lo)
    /\ (exists m, m ∈ l /\ yearOf m = Some hi).
Proof.
  intros Hne Hyears. destruct (numbersOf_years l Hyears) as (ys & Hys & Hall).
  destruct ys as [|y ys].
  { apply Forall2_nil_inv_r in Hall. done. }
  destruct (foldl_Qmin_spec ys y) as [Hlo_in Hlo].
  destruct (foldl_Qmax_spec ys y) as [Hhi_in Hhi].
  exists (foldl Qmin y ys), (foldl Qmax y ys).
  unfold yearRange, mathMin, mathMax. rewrite Hys. simpl.
  split; [done |]. split; [| split].
  - intros m Hm. destruct (Forall2_elem_l _ _ _ _ Hall Hm) as (x & Hx & Hmx).
    exists x. split; [done |]. split; [by apply Hlo | by apply Hhi].
  - destruct (Forall2_elem_r _ _ _ _ Hall Hlo_in) as (m & Hm & Hmy). by exists m.
  - destruct (Forall2_elem_r _ _ _ _ Hall Hhi_in) as (m & Hm & Hmy). by exists m.
Qed.

(** X8. The year range of the footer, for a non-empty view whose years are
    numbers (or missing, which count as 0): every visible movie's year lies
    between the two ends, each end is the year of a visible movie, and the
    range is the same under every other sort of the same filter. *)
Theorem X8_year_range_of_view
    (toLowerCase : string -> string) (localeCompare : string -> string -> Z) (movies : Value) (s g : string)
    (st st' : SortState) (visible visible' : list Value) :
  view toLowerCase localeCompare movies s g st = Some (Ok visible) ->
  view toLowerCase localeCompare movies s g st' = Some (Ok visible') ->
  visible <> [] ->
  forallb (hasSortKey "year") visible = true ->
  exists lo hi,
    yearRange visible = Some (lo, hi)
    /\ (forall m, m ∈ visible ->
          exists y, yearOf m = Some y /\ (lo <= y <= hi)%Q)
    /\ (exists m, m ∈ visible /\ yearOf m = Some lo)
    /\ (exists m, m ∈ visible /\ yearOf m = Some hi)
    /\ exists lo' hi',
         yearRange visible' = Some (lo', hi') /\ (lo' == lo)%Q /\ (hi' == hi)%Q.
Proof.
  intros Hv Hv' Hne Hkeys.
  destruct (view_filtered _ _ _ _ _ _ Hv) as (filtered & Hf & Hperm).
  destruct (view_filtered _ _ _ _ _ _ Hv') as (filtered' & Hf' & Hperm').
  rewrite Hf in Hf'. injection Hf' as <-.
  assert (forall m, m ∈ visible -> is_Some (yearOf m)) as Hyears.
  { rewrite forallb_forall in Hkeys. intros m Hm%list_elem_of_In.
    specialize (Hkeys m Hm). unfold hasSortKey in Hkeys.
    change (sortKey "year" m) with (yearOf m) in Hkeys.
    by destruct (yearOf m). }
  assert (visible' ≡ₚ visible) as Hsame by (by rewrite Hperm, Hperm').
  destruct (yearRange_spec visible Hne Hyears)
    as (lo & hi & Hrange & Hbounds & (mlo & Hmlo & Hlo) & (mhi & Hmhi & Hhi)).
  destruct (yearRange_spec visible')
    as (lo' & hi' & Hrange' & Hbounds' & (mlo' & Hmlo' & Hlo') & (mhi' & Hmhi' & Hhi')).
  { intros ->. apply Permutation_nil_l in Hsame. by apply Hne. }
  { intros m Hm. rewrite Hsame in Hm. by apply Hyears. }
  exists lo, hi. split; [done |]. split; [done |].
  split; [by exists mlo |]. split; [by exists mhi |].
  exists lo', hi'. split; [done |].
  rewrite <- Hsame in Hmlo, Hmhi. rewrite Hsame in Hmlo', Hmhi'.
  destruct (Hbounds' mlo Hmlo) as (y1 & Hy1 & Hb1).
  destruct (Hbounds' mhi Hmhi) as (y2 & Hy2 & Hb2).
  destruct (Hbounds mlo' Hmlo') as (y3 & Hy3 & Hb3).
  destruct (Hbounds mhi' Hmhi') as (y4 & Hy4 & Hb4).
  rewrite Hlo in Hy1. rewrite Hhi in Hy2. rewrite Hlo' in Hy3. rewrite Hhi' in Hy4.
  injection Hy1 as <-. injection Hy2 as <-. injection Hy3 as <-. injection Hy4 as <-.
  split; lra.
Qed.

Lemma X8_year_range_of_view_witness :
  exists lo hi,
    yearRange [arrival; dune] = Some (lo, hi)
    /\ (forall m, m ∈ [arrival; dune] ->
          exists y, yearOf m = Some y /\ (lo <= y <= hi)%Q)
    /\ (exists m, m ∈ [arrival; dune] /\ yearOf m = Some lo)
    /\ (exists m, m ∈ [arrival; dune] /\ yearOf m = Some hi)
    /\ exists lo' hi',
         yearRange [dune; arrival] = Some (lo', hi')
         /\ (lo' == lo)%Q /\ (hi' == hi)%Q.
Proof.
  apply (X8_year_range_of_view asciiLowerCase codeCompare
           (VArr [dune; VNull; arrival]) "" "all"
           {| sortBy := "year"; sortOrder := "asc" |}
           {| sortBy := "year"; sortOrder := "desc" |}).
  - vm_compute. reflexivity.
  - vm_compute. reflexivity.
  - discriminate.
  - vm_compute. reflexivity.
Defined.

(** *** Loading the collection *)




(** A request rejected with an [Error], and one rejected with [null]. *)
Example fetch_rejected :
  let prev := mkFetchState (VArr [dune]) false "" in
  fetchMovies (fun _ => []) prev
    (Rejected (obj [("message", VStr "Network Error")]))
  = Some (mkFetchResult
            (mkFetchState (VArr []) false "Failed to load movies: Network Error")
            false)
  /\ fetchMovies (fun _ => []) prev (Rejected VNull)
     = Some (mkFetchResult (mkFetchState (VArr [dune]) false "") true).
Proof. split; vm_compute; reflexivity. Qed.

(** *** Deleting under a filter *)

Lemma filterM_filter (f : Value -> Res bool) (p : Value -> bool)
    (l out : list Value) :
  filterM f l = Ok out ->
  filterM f (List.filter p l) = Ok (List.filter p out).
Proof.
  revert out. induction l as [|x l IH]; intros out; simpl.
  - by intros [= <-].
  - destruct (f x) as [keep|] eqn:Hx; [| done]. simpl.
    destruct (filterM f l) as [rest|]; [| done]. simpl.
    specialize (IH rest eq_refl).
    destruct keep; intros [= <-]; simpl; destruct (p x) eqn:Hp; simpl;
      rewrite ?Hx; simpl; rewrite ?IH; done.
Qed.

Lemma filteredMovies_array {toLowerCase : string -> string}
    (items : list Value) (s g : string) :
  filteredMovies toLowerCase (VArr items) s g = filterM (filterCallback toLowerCase s g) items.
Proof. by destruct items. Qed.

(** X22. Deleting acts on the view without a reload: when the filter
    computes a view of an array without [null] or [undefined] entries, the
    filter of the collection after the delete fold is that view without the
    entries carrying the identifier, everything else in its place. *)
Theorem X22_delete_acts_on_the_view
    (toLowerCase : string -> string) (items out : list Value) (id s g : string) :
  (forall m, m ∈ items -> nullish m = false) ->
  filteredMovies toLowerCase (VArr items) s g = Ok out ->
  exists kept,
    deleteUpdater id (VArr items) = Ok (VArr kept)
    /\ filteredMovies toLowerCase (VArr kept) s g
       = Ok (List.filter (fun m => negb (hasId id m)) out)
    /\ forall m, m ∈ out -> hasId id m = false ->
         m ∈ List.filter (fun m => negb (hasId id m)) out.
Proof.
  intros Hitems Hout. eexists. split; [by apply deleteUpdater_run |].
  rewrite filteredMovies_array in Hout. rewrite filteredMovies_array.
  split; [by apply filterM_filter |].
  intros m Hm Hid. apply list_elem_of_In, filter_In.
  split; [by apply list_elem_of_In | by rewrite Hid].
Qed.

Lemma X22_delete_acts_on_the_view_witness :
  exists kept,
    deleteUpdater "m1" (VArr [dune; arrival]) = Ok (VArr kept)
    /\ filteredMovies asciiLowerCase (VArr kept) "" "Sci-Fi"
       = Ok (List.filter (fun m => negb (hasId "m1" m)) [dune; arrival])
    /\ forall m, m ∈ [dune; arrival] -> hasId "m1" m = false ->
         m ∈ List.filter (fun m => negb (hasId "m1" m)) [dune; arrival].
Proof.
  apply (X22_delete_acts_on_the_view asciiLowerCase [dune; arrival] [dune; arrival]
           "m1" "" "Sci-Fi").
  - intros m Hm.
    repeat (apply elem_of_cons in Hm as [-> | Hm]); [reflexivity.. |].
    by apply elem_of_nil in Hm.
  - vm_compute. reflexivity.
Defined.

(** X26. Deleting does not reshuffle a view sorted by year or by rating:
    when every visible movie has a numeric (or missing) value there, the
    view of the collection after the delete fold is the old view without
    the entries carrying the identifier, in the same order, for either
    direction. *)
Theorem X26_delete_keeps_the_sorted_order
    (toLowerCase : string -> string) (localeCompare : string -> string -> Z)
    (items filtered v : list Value) (id s g k o : string) :
  (forall m, m ∈ items -> nullish m = false) ->
  k = "year" \/ k = "rating" ->
  filteredMovies toLowerCase (VArr items) s g = Ok filtered ->
  forallb (hasSortKey k) filtered = true ->
  view toLowerCase localeCompare (VArr items) s g {| sortBy := k; sortOrder := o |}
  = Some (Ok v) ->
  exists kept,
    deleteUpdater id (VArr items) = Ok (VArr kept)
    /\ view toLowerCase localeCompare (VArr kept) s g {| sortBy := k; sortOrder := o |}
       = Some (Ok (List.filter (fun m => negb (hasId id m)) v)).
Proof.
  intros Hitems Hk Hf Hkeys Hview.
  eexists. split; [by apply deleteUpdater_run |].
  destruct (filteredMovies_Ok _ _ _ _ Hf) as [_ Hrec].
  rewrite forallb_forall in Hkeys.
  assert (forall m, m ∈ filtered -> exists q, sortKey k m = Some q) as Hkey.
  { intros m Hm%list_elem_of_In. specialize (Hkeys m Hm). unfold hasSortKey in Hkeys.
    destruct (sortKey k m); [by eexists | done]. }
  unfold view, filteredAndSortedMovies in Hview. cbn [sortBy sortOrder] in Hview.
  rewrite Hf in Hview.
  destruct (arraySort _ filtered) as [v'|] eqn:Hsort; [| done].
  injection Hview as ->.
  unfold view, filteredAndSortedMovies. cbn [sortBy sortOrder].
  rewrite filteredMovies_array in Hf. rewrite filteredMovies_array.
  rewrite (filterM_filter _ (fun m => negb (hasId id m)) _ _ Hf).
  rewrite (arraySort_filter (compareMovies localeCompare k o)
             (fun m => if String.eqb o "asc" then sortKey k m
                       else Qopp <$> sortKey k m) _ filtered v); [done | | done].
  intros x y Hx Hy. destruct (Hkey x Hx) as [kx Hkx], (Hkey y Hy) as [ky Hky].
  unfold compareMovies.
  rewrite (comparisonOf_numeric _ k x y kx ky) by auto.
  rewrite Hkx, Hky. destruct (String.eqb o "asc"); simpl.
  - exists kx, ky, (kx - ky)%Q. done.
  - exists (- kx)%Q, (- ky)%Q, (- (kx - ky))%Q.
    split; [done |]. split; [done |]. split; [done | ring].
Qed.

Lemma X26_delete_keeps_the_sorted_order_witness :
  exists kept,
    deleteUpdater "m1" (VArr [dune; arrival]) = Ok (VArr kept)
    /\ view asciiLowerCase codeCompare (VArr kept) "" "all"
            {| sortBy := "year"; sortOrder := "asc" |}
       = Some (Ok (List.filter (fun m => negb (hasId "m1" m)) [arrival; dune])).
Proof.
  apply (X26_delete_keeps_the_sorted_order asciiLowerCase codeCompare [dune; arrival]
           [dune; arrival] [arrival; dune] "m1" "" "all" "year" "asc").
  - intros m Hm.
    repeat (apply elem_of_cons in Hm as [-> | Hm]); [reflexivity.. |].
    by apply elem_of_nil in Hm.
  - by left.
  - vm_compute. reflexivity.
  - vm_compute. reflexivity.
  - vm_compute. reflexivity.
Defined.

End MovieListMoreFacts.

(** ** More of the controller *)

Module ServerMoreFacts.

Import ServerFacts.

(** *** Handlers that only read *)

Lemma readOnly_ret {A} (a : A) : readOnly (ret a).
Proof. done. Qed.

Lemma readOnly_within {A} (o : option A) : readOnly (within o).
Proof. by destruct o. Qed.

Lemma readOnly_bind {A B} (m : M A) (k : A -> M B) :
  readOnly m -> (forall a, readOnly (k a)) -> readOnly (bindM m k).
Proof.
  intros Hm Hk w. unfold bindM. specialize (Hm w).
  destruct (m w) as [[f|a] w0]; simpl in *; [done |].
  by rewrite Hk.
Qed.

Lemma readOnly_tryCatch {A} (body : M (Response A)) :
  readOnly body -> readOnly (tryCatch body).
Proof.
  intros H w. unfold tryCatch. specialize (H w).
  by destruct (body w) as [[[]|r] w0].
Qed.

Lemma readOnly_storage {A} (op : Db -> Failure + A * Db) :
  (forall d a d', op d = inr (a, d') -> d' = d) -> readOnly (storage op).
Proof.
  intros H w. unfold storage.
  destruct (faults w) as [|[] rest]; simpl; try done;
    destruct (op (db w)) as [f|[a d']] eqn:Hop; simpl; try done;
    by apply H in Hop.
Qed.

(** X10. The three reading handlers, [getMovies], [getMovie] and
    [getOverviewStats], never change the database: whatever the request
    parameters and whichever storage calls fail, both collections are
    afterwards what they were. *)
Theorem X10_reading_handlers_change_nothing
    (fieldClause : string -> Value -> Movie -> bool)
    (orderBy : Value -> list (Id * Movie) -> list (Id * Movie))
    (uncast : gmap string Value -> Id * Movie -> bool)
    (uid id : Id) (reqQuery : gmap string Value) :
  readOnly (getMovies fieldClause orderBy uncast uid reqQuery)
  /\ readOnly (getMovie fieldClause uid id)
  /\ readOnly (getOverviewStats fieldClause uncast uid).
Proof.
  split; [| split].
  - unfold getMovies. apply readOnly_tryCatch.
    apply readOnly_bind; [apply readOnly_within |]. intros skip.
    apply readOnly_bind; [apply readOnly_within |]. intros limitN.
    apply readOnly_bind.
    { apply readOnly_storage. intros d a d'.
      destruct (_ && _); [by intros [= _ <-] | done]. }
    intros found. apply readOnly_bind.
    { apply readOnly_storage. by intros d a d' [= _ <-]. }
    intros total. apply readOnly_bind.
    { apply readOnly_storage. by intros d a d' [= _ <-]. }
    intros stats. apply readOnly_bind; [apply readOnly_within |]. intros pageN.
    apply readOnly_bind; [apply readOnly_within |]. intros pages.
    apply readOnly_ret.
  - unfold getMovie. apply readOnly_tryCatch. apply readOnly_bind.
    { apply readOnly_storage. by intros d a d' [= _ <-]. }
    intros [m|]; apply readOnly_ret.
  - unfold getOverviewStats. apply readOnly_tryCatch.
    apply readOnly_bind.
    { apply readOnly_storage. by intros d a d' [= _ <-]. }
    intros stats. apply readOnly_bind.
    { apply readOnly_storage. by intros d a d' [= _ <-]. }
    intros genreStats. apply readOnly_bind.
    { apply readOnly_storage. by intros d a d' [= _ <-]. }
    intros yearStats. apply readOnly_ret.
Qed.

(** *** A movie that is absent or belongs to someone else *)

Section NotFound.

Variable fieldClause : string -> Value -> Movie -> bool.

Lemma head_matching_owned_None (uid id : Id) (d : Db) :
  (forall m, movies d !! id = Some m -> addedBy m <> uid) ->
  head (matching fieldClause (ownedQuery uid id) d) = None.
Proof.
  intros H. destruct (head _) as [doc|] eqn:Hhead; [| done].
  apply head_matching_owned_inv in Hhead as (_ & Hdoc & Hown).
  by destruct (H _ Hdoc).
Qed.

(** X11. When the identifier names no movie, or a movie of another user,
    reading, updating, deleting and toggling it all answer 404 and leave
    both collections (the movie and every counter) untouched; and whichever
    storage calls fail, the database still stays as it was. *)
Theorem X11_absent_or_foreign_movie_is_not_found
    (uid id : Id) (now stamp : Z) (update : Movie -> Movie) (d : Db) :
  (forall m, movies d !! id = Some m -> addedBy m <> uid) ->
  getMovie fieldClause uid id (mkWorld d [])
  = (inr (mkResponse 404 None), mkWorld d [])
  /\ updateMovie fieldClause uid id [] update (mkWorld d [])
     = (inr (mkResponse 404 None), mkWorld d [])
  /\ deleteMovie fieldClause uid id (mkWorld d [])
     = (inr (mkResponse 404 None), mkWorld d [])
  /\ toggleWatchStatus fieldClause uid id now stamp (mkWorld d [])
     = (inr (mkResponse 404 None), mkWorld d [])
  /\ forall fs errors,
       db (updateMovie fieldClause uid id errors update (mkWorld d fs)).2 = d
       /\ db (deleteMovie fieldClause uid id (mkWorld d fs)).2 = d
       /\ db (toggleWatchStatus fieldClause uid id now stamp (mkWorld d fs)).2
          = d.
Proof.
  intros H%head_matching_owned_None.
  unfold getMovie, updateMovie, deleteMovie, toggleWatchStatus, tryCatch, bindM,
    Movie_findOne, Movie_findOneAndUpdate, Movie_findOneAndDelete, storage.
  simpl. rewrite H. simpl. repeat (split; [done |]).
  intros fs errors. destruct fs as [|[] fs], errors as [|e errors]; simpl;
    rewrite ?H; simpl; by destruct d.
Qed.

End NotFound.

Lemma X11_absent_or_foreign_movie_is_not_found_witness :
  getMovie plainClause "u1" "x01" (mkWorld sampleDb [])
  = (inr (mkResponse 404 None), mkWorld sampleDb [])
  /\ updateMovie plainClause "u1" "x01" [] id (mkWorld sampleDb [])
     = (inr (mkResponse 404 None), mkWorld sampleDb [])
  /\ deleteMovie plainClause "u1" "x01" (mkWorld sampleDb [])
     = (inr (mkResponse 404 None), mkWorld sampleDb [])
  /\ toggleWatchStatus plainClause "u1" "x01" 0 0 (mkWorld sampleDb [])
     = (inr (mkResponse 404 None), mkWorld sampleDb [])
  /\ forall fs errors,
       db (updateMovie plainClause "u1" "x01" errors id (mkWorld sampleDb fs)).2
       = sampleDb
       /\ db (deleteMovie plainClause "u1" "x01" (mkWorld sampleDb fs)).2 = sampleDb
       /\ db (toggleWatchStatus plainClause "u1" "x01" 0 0
                 (mkWorld sampleDb fs)).2
          = sampleDb.
Proof.
  apply (X11_absent_or_foreign_movie_is_not_found plainClause "u1" "x01" 0 0 id
           sampleDb).
  intros m Hm. vm_compute in Hm. injection Hm as <-. discriminate.
Defined.

(** *** Toggling the watch status *)

Section Toggle.

Variable fieldClause : string -> Value -> Movie -> bool.

(** What an answer of [toggleWatchStatus] that carries the movie tells. *)
Lemma toggleWatchStatus_data (uid id : Id) (now stamp : Z) (d : Db)
    (fs : list bool) (r : Response (Id * Movie)) (w : World) (doc : Id * Movie) :
  toggleWatchStatus fieldClause uid id now stamp (mkWorld d fs) = (inr r, w) ->
  data r = Some doc ->
  exists m,
    movies d !! id = Some m /\ addedBy m = uid
    /\ doc = (id, restamped
                    (mkMovie (title m) (description m) (director m) (year m)
                             (genres m) (duration m) (rating m) (addedBy m)
                             (negb (watched m)) (watchDate m) (createdAt m)
                             (updatedAt m) (others m))
                    (if watched m then None else Some now) stamp)
    /\ db w = mkDb (<[id := doc.2]> (movies d)) (users d).
Proof.
  intros Hrun Hdata. apply (tryCatch_data _ _ _ _ _ Hdata) in Hrun.
  apply bindM_inr in Hrun as (found & w0 & Hfind & Hrun).
  apply storage_inr in Hfind as (d0 & [= <- <-] & Hd0). simpl in Hd0.
  destruct (head _) as [[i m]|] eqn:Hhead.
  - apply head_matching_owned_inv in Hhead as (Hi & Hm & Hown). simpl in *. subst i.
    apply bindM_inr in Hrun as ([] & w1 & Hsave & Hret).
    apply storage_inr in Hsave as (d1 & [= <-] & Hd1).
    injection Hret as <- <-. simpl in Hdata. injection Hdata as <-.
    exists m. split; [done |]. split; [done |]. rewrite Hd1, Hd0.
    unfold restamped. simpl. by destruct (watched m).
  - injection Hrun as <- _. done.
Qed.

(** X12. A toggle that answers with the movie has flipped [watched] on a
    movie of the requester, set [watchDate] to the time of the call when the
    movie became watched and cleared it otherwise, and renewed [updatedAt],
    the stamp of the save.  A second such toggle brings every field of the
    movie back except [watchDate] and [updatedAt]: a movie that was watched
    comes back with the time of the second call, not with its old date, and
    either way with the stamp of the second save. *)
Theorem X12_toggle_twice
    (uid id : Id) (now stamp now' stamp' : Z) (d : Db) (fs : list bool)
    (r1 r2 : Response (Id * Movie)) (w1 w2 : World) (doc1 doc2 : Id * Movie) :
  toggleWatchStatus fieldClause uid id now stamp (mkWorld d fs) = (inr r1, w1) ->
  data r1 = Some doc1 ->
  toggleWatchStatus fieldClause uid id now' stamp' w1 = (inr r2, w2) ->
  data r2 = Some doc2 ->
  exists m,
    movies d !! id = Some m /\ addedBy m = uid
    /\ doc1.1 = id /\ doc2.1 = id
    /\ watched doc1.2 = negb (watched m)
    /\ watchDate doc1.2 = (if watched m then None else Some now)
    /\ updatedAt doc1.2 = stamp
    /\ db w1 = mkDb (<[id := doc1.2]> (movies d)) (users d)
    /\ doc2.2 = restamped m (if watched m then Some now' else None) stamp'
    /\ db w2 = mkDb (<[id := doc2.2]> (movies d)) (users d).
Proof.
  intros Hrun1 Hdata1 Hrun2 Hdata2.
  destruct (toggleWatchStatus_data _ _ _ _ _ _ _ _ _ Hrun1 Hdata1)
    as (m & Hm & Hown & -> & Hw1).
  destruct w1 as [d1 fs1]. simpl in Hw1. subst d1.
  destruct (toggleWatchStatus_data _ _ _ _ _ _ _ _ _ Hrun2 Hdata2)
    as (m1 & Hm1 & Hown1 & -> & Hw2).
  simpl in Hm1. rewrite lookup_insert_eq in Hm1. injection Hm1 as <-.
  exists m. simpl in *. repeat (split; [done |]).
  rewrite Hw2. rewrite insert_insert_eq.
  split; [| done].
  unfold restamped. simpl. destruct m as [? ? ? ? ? ? ? ? wd ? ? ? ?]. simpl.
  by destruct wd.
Qed.

End Toggle.

Lemma X12_toggle_twice_witness :
  let w1 := (toggleWatchStatus plainClause "u1" "m03" 50 51
               (mkWorld sampleDb [])).2 in
  let w2 := (toggleWatchStatus plainClause "u1" "m03" 60 61 w1).2 in
  let doc1 : Id * Movie :=
    ("m03", mkMovie "Sample" "A sample movie" "Somebody" 2003 ["Drama"] 100 7
                    "u1" true (Some 50%Z) 3 51 ∅) in
  let doc2 : Id * Movie :=
    ("m03", mkMovie "Sample" "A sample movie" "Somebody" 2003 ["Drama"] 100 7
                    "u1" false None 3 61 ∅) in
  exists m,
    movies sampleDb !! "m03" = Some m /\ addedBy m = "u1"
    /\ doc1.1 = "m03" /\ doc2.1 = "m03"
    /\ watched doc1.2 = negb (watched m)
    /\ watchDate doc1.2 = (if watched m then None else Some 50%Z)
    /\ updatedAt doc1.2 = 51%Z
    /\ db w1 = mkDb (<["m03" := doc1.2]> (movies sampleDb)) (users sampleDb)
    /\ doc2.2 = restamped m (if watched m then Some 60%Z else None) 61
    /\ db w2 = mkDb (<["m03" := doc2.2]> (movies sampleDb)) (users sampleDb).
Proof.
  intros w1 w2 doc1 doc2.
  apply (X12_toggle_twice plainClause "u1" "m03" 50 51 60 61 sampleDb []
           (mkResponse 200 (Some doc1)) (mkResponse 200 (Some doc2))
           w1 w2 doc1 doc2).
  - vm_compute. reflexivity.
  - reflexivity.
  - vm_compute. reflexivity.
  - reflexivity.
Defined.

(** *** Creating, then reading *)

Section Lifecycle.

Variable fieldClause : string -> Value -> Movie -> bool.

#[local] Instance sumZ_Permutation' : Proper ((≡ₚ) ==> (=)) sumZ.
Proof. induction 1; simpl; lia. Qed.

(** X13. A create answered with 201 stores the movie under the requester,
    whatever [addedBy] the body carries: the requester then reads it back
    as it was answered, and every other user gets 404 for it. *)
Theorem X13_created_movie_is_read_back
    (uid other newId : Id) (errors : list string) (body : Movie)
    (d : Db) (fs : list bool) (r : Response (Id * Movie)) (w : World) :
  createMovie uid errors body newId (mkWorld d fs) = (inr r, w) ->
  status r = 201%Z ->
  other <> uid ->
  data r = Some (newId, withOwner body uid)
  /\ addedBy (withOwner body uid) = uid
  /\ getMovie fieldClause uid newId (mkWorld (db w) [])
     = (inr (mkResponse 200 (data r)), mkWorld (db w) [])
  /\ getMovie fieldClause other newId (mkWorld (db w) [])
     = (inr (mkResponse 404 None), mkWorld (db w) []).
Proof.
  intros Hrun Hstatus Hother.
  destruct (createMovie_success _ _ _ _ _ _ _ _ Hrun Hstatus) as (Hnew & -> & Hdb).
  split; [done |]. split; [done |].
  assert (movies (db w) !! newId = Some (withOwner body uid)) as Hstored
    by (rewrite Hdb; simpl; apply lookup_insert_eq).
  unfold getMovie, tryCatch, bindM, Movie_findOne, storage. simpl. split.
  - by rewrite (head_matching_owned fieldClause uid newId (db w) _ Hstored eq_refl).
  - rewrite (head_matching_owned_None fieldClause other newId (db w)); [done |].
    intros m Hm. rewrite Hstored in Hm. injection Hm as <-. simpl. congruence.
Qed.

(** *** The counters when a handler stops half-way, and on update *)

Lemma tracks_count (d : Db) (uid : Id) (u : User) :
  tracks d -> users d !! uid = Some u ->
  movieCount u = Z.of_nat (length (owned uid d))
  /\ totalWatchTime u = sumZ ((fun doc => duration doc.2) <$> owned uid d).
Proof. intros H. apply H. Qed.

(** X14. [createMovie] and [deleteMovie] write the movie and the counters
    in two separate storage calls.  When the first succeeds and the second
    fails the answer is 500, yet the movie has been stored (or removed) and
    the counters have not moved: counters that tracked the owned movies
    before no longer do. *)
Theorem X14_half_done_write_breaks_counters
    (uid newId id : Id) (body m : Movie) (d : Db) (u : User) (fs : list bool) :
  tracks d -> users d !! uid = Some u ->
  (movies d !! newId = None ->
     let out := createMovie uid [] body newId (mkWorld d (false :: true :: fs)) in
     out.1 = inr (mkResponse 500 None)
     /\ movies (db out.2) = <[newId := withOwner body uid]> (movies d)
     /\ users (db out.2) = users d
     /\ ~ tracks (db out.2))
  /\ (movies d !! id = Some m -> addedBy m = uid ->
       let out := deleteMovie fieldClause uid id (mkWorld d (false :: true :: fs)) in
       out.1 = inr (mkResponse 500 None)
       /\ movies (db out.2) = delete id (movies d)
       /\ users (db out.2) = users d
       /\ ~ tracks (db out.2)).
Proof.
  intros Htracks Hu. destruct (tracks_count d uid u Htracks Hu) as [Hcount _].
  split.
  - intros Hnew. unfold createMovie, tryCatch, bindM, Movie_create,
      User_findByIdAndUpdate_inc, storage. simpl. rewrite Hnew. simpl.
    repeat (split; [done |]). intros Htracks'.
    destruct (tracks_count _ uid u Htracks' Hu) as [Hcount' _].
    rewrite (owned_insert uid uid newId (withOwner body uid) d (users d) Hnew eq_refl)
      in Hcount'.
    rewrite decide_True in Hcount' by done. simpl length in Hcount'. lia.
  - intros Hm Hown. unfold deleteMovie, tryCatch, bindM, Movie_findOneAndDelete,
      User_findByIdAndUpdate_inc, storage. simpl.
    rewrite (head_matching_owned fieldClause uid id d m Hm Hown). simpl.
    repeat (split; [done |]). intros Htracks'.
    destruct (tracks_count _ uid u Htracks' Hu) as [Hcount' _].
    rewrite (owned_delete uid uid id m d (users d) Hm Hown) in Hcount.
    rewrite decide_True in Hcount by done. simpl length in Hcount. lia.
Qed.

(** X15. [updateMovie] never writes to the users, so an update that changes
    the duration of a movie (and leaves it with its owner) succeeds and
    leaves the owner's [totalWatchTime] behind: counters that tracked the
    owned movies before no longer do. *)
Theorem X15_update_leaves_counters_behind
    (uid id : Id) (update : Movie -> Movie) (m : Movie) (d : Db) (u : User) :
  tracks d -> users d !! uid = Some u ->
  movies d !! id = Some m -> addedBy m = uid ->
  addedBy (update m) = uid -> duration (update m) <> duration m ->
  (forall fs errors,
     users (db (updateMovie fieldClause uid id errors update (mkWorld d fs)).2)
     = users d)
  /\ exists w,
       updateMovie fieldClause uid id [] update (mkWorld d [])
       = (inr (mkResponse 200 (Some (id, update m))), w)
       /\ movies (db w) = <[id := update m]> (movies d)
       /\ ~ tracks (db w).
Proof.
  intros Htracks Hu Hm Hown Hown' Hdur.
  destruct (tracks_count d uid u Htracks Hu) as [_ Htime].
  pose proof (head_matching_owned fieldClause uid id d m Hm Hown) as Hhead.
  split.
  - intros fs errors. unfold updateMovie, tryCatch, bindM,
      Movie_findOneAndUpdate, storage.
    destruct errors as [|e errors], fs as [|[] fs]; simpl; try done;
      by rewrite Hhead.
  - unfold updateMovie, tryCatch, bindM, Movie_findOneAndUpdate, storage. simpl.
    rewrite Hhead. simpl. eexists. split; [done |]. simpl. split; [done |].
    intros Htracks'. destruct (tracks_count _ uid u Htracks' Hu) as [_ Htime'].
    pose proof (owned_insert uid uid id (update m)
                  (mkDb (delete id (movies d)) (users d)) (users d)
                  (lookup_delete_eq _ _) Hown') as Hins.
    simpl in Hins. rewrite insert_delete_eq, decide_True in Hins by done.
    rewrite Hins in Htime'.
    rewrite (owned_delete uid uid id m d (users d) Hm Hown) in Htime.
    rewrite decide_True in Htime by done.
    rewrite !fmap_cons in Htime, Htime'. simpl in Htime, Htime'. lia.
Qed.

(** X16. The body of an update may carry [addedBy]: such an update answers
    200 and hands the movie over.  The requester can then no longer read
    it, and the user it names can. *)
Theorem X16_update_can_hand_a_movie_over
    (uid other id : Id) (update : Movie -> Movie) (m : Movie) (d : Db) :
  movies d !! id = Some m -> addedBy m = uid ->
  addedBy (update m) = other -> other <> uid ->
  exists w,
    updateMovie fieldClause uid id [] update (mkWorld d [])
    = (inr (mkResponse 200 (Some (id, update m))), w)
    /\ getMovie fieldClause uid id (mkWorld (db w) [])
       = (inr (mkResponse 404 None), mkWorld (db w) [])
    /\ getMovie fieldClause other id (mkWorld (db w) [])
       = (inr (mkResponse 200 (Some (id, update m))), mkWorld (db w) []).
Proof.
  intros Hm Hown Hother Hne.
  pose proof (head_matching_owned fieldClause uid id d m Hm Hown) as Hhead.
  unfold updateMovie, tryCatch, bindM, Movie_findOneAndUpdate, storage. simpl.
  rewrite Hhead. simpl. eexists. split; [done |]. simpl.
  set (d' := mkDb (<[id := update m]> (movies d)) (users d)).
  assert (movies d' !! id = Some (update m)) as Hstored by apply lookup_insert_eq.
  unfold getMovie, tryCatch, bindM, Movie_findOne, storage. simpl. split.
  - rewrite (head_matching_owned_None fieldClause uid id d'); [done |].
    intros m' Hm'. rewrite Hstored in Hm'. injection Hm' as <-. congruence.
  - by rewrite (head_matching_owned fieldClause other id d' _ Hstored Hother).
Qed.

End Lifecycle.

Lemma X13_created_movie_is_read_back_witness :
  let out := createMovie "u1" [] (sampleMovie "u9" 20) "m20" (mkWorld sampleDb []) in
  let r := mkResponse 201 (Some ("m20", sampleMovie "u1" 20)) in
  data r = Some ("m20", withOwner (sampleMovie "u9" 20) "u1")
  /\ addedBy (withOwner (sampleMovie "u9" 20) "u1") = "u1"
  /\ getMovie plainClause "u1" "m20" (mkWorld (db out.2) [])
     = (inr (mkResponse 200 (data r)), mkWorld (db out.2) [])
  /\ getMovie plainClause "u2" "m20" (mkWorld (db out.2) [])
     = (inr (mkResponse 404 None), mkWorld (db out.2) []).
Proof.
  intros out r.
  apply (X13_created_movie_is_read_back plainClause "u1" "u2" "m20" []
           (sampleMovie "u9" 20) sampleDb [] r out.2).
  - vm_compute. reflexivity.
  - reflexivity.
  - discriminate.
Defined.

Lemma X14_half_done_write_breaks_counters_witness :
  (let out := createMovie "u1" [] (sampleMovie "u9" 20) "m20"
                (mkWorld sampleDb [false; true]) in
   out.1 = inr (mkResponse 500 None)
   /\ movies (db out.2)
      = <["m20" := withOwner (sampleMovie "u9" 20) "u1"]> (movies sampleDb)
   /\ users (db out.2) = users sampleDb
   /\ ~ tracks (db out.2))
  /\ (let out := deleteMovie plainClause "u1" "m03"
                   (mkWorld sampleDb [false; true]) in
      out.1 = inr (mkResponse 500 None)
      /\ movies (db out.2) = delete "m03" (movies sampleDb)
      /\ users (db out.2) = users sampleDb
      /\ ~ tracks (db out.2)).
Proof.
  destruct (X14_half_done_write_breaks_counters plainClause "u1" "m20" "m03"
              (sampleMovie "u9" 20) (sampleMovie "u1" 3) sampleDb
              (mkUser 15 1500 ["m03"]) [] sampleDb_tracks)
    as [Hcreate Hdelete]; [vm_compute; reflexivity |].
  split.
  - apply Hcreate. vm_compute. reflexivity.
  - apply Hdelete; vm_compute; reflexivity.
Defined.

Lemma X15_update_leaves_counters_behind_witness :
  let longer (m : Movie) : Movie :=
    mkMovie (title m) (description m) (director m) (year m) (genres m)
            120 (rating m) (addedBy m) (watched m) (watchDate m) (createdAt m)
            (updatedAt m + 1) (others m) in
  (forall fs errors,
     users (db (updateMovie plainClause "u1" "m03" errors longer
                  (mkWorld sampleDb fs)).2)
     = users sampleDb)
  /\ exists w,
       updateMovie plainClause "u1" "m03" [] longer (mkWorld sampleDb [])
       = (inr (mkResponse 200 (Some ("m03", longer (sampleMovie "u1" 3)))), w)
       /\ movies (db w) = <["m03" := longer (sampleMovie "u1" 3)]> (movies sampleDb)
       /\ ~ tracks (db w).
Proof.
  intros longer.
  apply (X15_update_leaves_counters_behind plainClause "u1" "m03" longer
           (sampleMovie "u1" 3) sampleDb (mkUser 15 1500 ["m03"])).
  - exact sampleDb_tracks.
  - vm_compute. reflexivity.
  - vm_compute. reflexivity.
  - reflexivity.
  - reflexivity.
  - simpl. lia.
Defined.

Lemma X16_update_can_hand_a_movie_over_witness :
  let give (m : Movie) : Movie := withOwner m "u2" in
  exists w,
    updateMovie plainClause "u1" "m03" [] give (mkWorld sampleDb [])
    = (inr (mkResponse 200 (Some ("m03", give (sampleMovie "u1" 3)))), w)
    /\ getMovie plainClause "u1" "m03" (mkWorld (db w) [])
       = (inr (mkResponse 404 None), mkWorld (db w) [])
    /\ getMovie plainClause "u2" "m03" (mkWorld (db w) [])
       = (inr (mkResponse 200 (Some ("m03", give (sampleMovie "u1" 3)))),
          mkWorld (db w) []).
Proof.
  intros give.
  apply (X16_update_can_hand_a_movie_over plainClause "u1" "u2" "m03" give
           (sampleMovie "u1" 3) sampleDb).
  - vm_compute. reflexivity.
  - reflexivity.
  - reflexivity.
  - discriminate.
Defined.

(** *** The pages of a listing *)


Section Pages.

Variable fieldClause : string -> Value -> Movie -> bool.
Variable orderBy : Value -> list (Id * Movie) -> list (Id * Movie).
Variable uncast : gmap string Value -> Id * Movie -> bool.

Hypothesis orderBy_Permutation : forall sort l, orderBy sort l ≡ₚ l.

(** X17. With [page] and [limit] absent or whole numbers from 1 on and
    storage that answers, [pages] is a whole number and: every page before
    the last is full, the last page holds the rest (at least one movie),
    and every page after it is empty; so a page is non-empty exactly up to
    [pages]. *)
Theorem X17_pages_fill_up
    (uid : Id) (reqQuery : gmap string Value) (d : Db) (p l : Z) :
  parseInt (param reqQuery "page" (VNum 1)) = Some p -> (1 <= p)%Z ->
  parseInt (param reqQuery "limit" (VNum 10)) = Some l -> (1 <= l)%Z ->
  exists ld n,
    getMovies fieldClause orderBy uncast uid reqQuery (mkWorld d [])
    = (inr (mkResponse 200 (Some ld)), mkWorld d [])
    /\ pages (pagination ld) = Whole n
    /\ let shown := Z.of_nat (length (listMovies ld)) in
       let t := total (pagination ld) in
       ((p < n)%Z -> shown = l)
       /\ (p = n -> shown = (t - (n - 1) * l)%Z /\ (1 <= shown)%Z)
       /\ ((n < p)%Z -> listMovies ld = [])
       /\ (listMovies ld <> [] <-> (p <= n)%Z).
Proof.
  intros Hp Hp1 Hl Hl1.
  destruct (getMovies_run fieldClause orderBy uncast uid reqQuery d p l
              Hp Hp1 Hl Hl1)
    as (n & Hn & Hrun).
  eexists. exists n. split; [exact Hrun |]. split; [done |]. simpl.
  set (found := matching fieldClause (buildQuery uid reqQuery) d) in *.
  set (ordered := orderBy (param reqQuery "sort" (VStr "-createdAt")) found).
  assert (length ordered = length found) as Hlen
    by (unfold ordered; by rewrite orderBy_Permutation).
  assert (Z.of_nat (length (take (Z.to_nat l) (drop (Z.to_nat ((p - 1) * l)) ordered)))
          = Z.max 0 (Z.min l (Z.of_nat (length found) - (p - 1) * l))) as Hshown.
  { rewrite length_take, length_drop, Hlen. nia. }
  rewrite Hshown.
  assert (take (Z.to_nat l) (drop (Z.to_nat ((p - 1) * l)) ordered) = []
          <-> Z.max 0 (Z.min l (Z.of_nat (length found) - (p - 1) * l)) = 0%Z)
    as Hnil.
  { rewrite <- Hshown. split; [by intros -> |].
    intros H. apply nil_length_inv. lia. }
  split; [nia |]. split; [intros ->; nia |]. split.
  - intros Hlt. apply Hnil. nia.
  - rewrite Hnil. nia.
Qed.


End Pages.

Lemma X17_pages_fill_up_witness :
  let reqQuery : gmap string Value :=
    list_to_map [("page", VStr "2"); ("limit", VStr "10")] in
  exists ld n,
    getMovies plainClause newestFirst sameTypes "u1" reqQuery (mkWorld sampleDb [])
    = (inr (mkResponse 200 (Some ld)), mkWorld sampleDb [])
    /\ pages (pagination ld) = Whole n
    /\ let shown := Z.of_nat (length (listMovies ld)) in
       let t := total (pagination ld) in
       ((2 < n)%Z -> shown = 10%Z)
       /\ (2%Z = n -> shown = (t - (n - 1) * 10)%Z /\ (1 <= shown)%Z)
       /\ ((n < 2)%Z -> listMovies ld = [])
       /\ (listMovies ld <> [] <-> (2 <= n)%Z).
Proof.
  intros reqQuery.
  apply (X17_pages_fill_up plainClause newestFirst sameTypes
           newestFirst_Permutation "u1" reqQuery sampleDb 2 10).
  - vm_compute. reflexivity.
  - lia.
  - vm_compute. reflexivity.
  - lia.
Defined.


(** *** The overview *)










Section Overview.

Variable fieldClause : string -> Value -> Movie -> bool.
Variable uncast : gmap string Value -> Id * Movie -> bool.


Lemma filter_bool_decide {A} (f : A -> bool) (P : A -> Prop)
    `{forall x, Decision (P x)} (l : list A) :
  (forall x, f x = true <-> P x) -> List.filter f l = filter P l.
Proof.
  intros Hf. induction l as [|x l IH]; [done |]. simpl. rewrite filter_cons.
  destruct (decide (P x)) as [Hx | Hx].
  - apply Hf in Hx. by rewrite Hx, IH.
  - destruct (f x) eqn:Hfx; [by apply Hf in Hfx | done].
Qed.

(** The [$match] stage of the overview selects the owned-movie set. *)
Lemma matching_owner (uid : Id) (d : Db) :
  matching fieldClause {[ "addedBy" := VStr uid ]} d = owned uid d.
Proof.
  unfold matching, owned. apply filter_bool_decide. intros [i m].
  unfold matches. rewrite map_to_list_singleton. simpl.
  unfold clauseHolds. simpl. rewrite andb_true_r. rewrite String.eqb_eq.
  split; congruence.
Qed.

Lemma listing_total
    (orderBy : Value -> list (Id * Movie) -> list (Id * Movie))
    (uid : Id) (d : Db) (u : User) :
  tracks d -> users d !! uid = Some u ->
  exists ld,
    getMovies fieldClause orderBy uncast uid ∅ (mkWorld d [])
    = (inr (mkResponse 200 (Some ld)), mkWorld d [])
    /\ total (pagination ld) = movieCount u.
Proof.
  intros Htracks Hu. destruct (Htracks uid u Hu) as [Hcount _].
  destruct (getMovies_run fieldClause orderBy uncast uid ∅ d 1 10)
    as (n & _ & Hrun);
    [done | lia | done | lia |].
  change (buildQuery uid ∅) with ({[ "addedBy" := VStr uid ]} : gmap string Value)
    in Hrun.
  rewrite matching_owner in Hrun.
  eexists. split; [exact Hrun |]. simpl. by rewrite Hcount.
Qed.

(** X20. While the counters track the owned movies, the [total] of the
    user's unfiltered listing is the user's [movieCount]; and after a
    create answered with 201 both have grown by one together. *)
Theorem X20_listing_total_is_the_movie_count
    (orderBy : Value -> list (Id * Movie) -> list (Id * Movie))
    (uid : Id) (d : Db) (u : User) :
  tracks d -> users d !! uid = Some u ->
  (exists ld,
     getMovies fieldClause orderBy uncast uid ∅ (mkWorld d [])
     = (inr (mkResponse 200 (Some ld)), mkWorld d [])
     /\ total (pagination ld) = movieCount u)
  /\ forall newId errors body fs r w,
       createMovie uid errors body newId (mkWorld d fs) = (inr r, w) ->
       status r = 201%Z ->
       exists u' ld',
         users (db w) !! uid = Some u'
         /\ movieCount u' = (movieCount u + 1)%Z
         /\ getMovies fieldClause orderBy uncast uid ∅ (mkWorld (db w) [])
            = (inr (mkResponse 200 (Some ld')), mkWorld (db w) [])
         /\ total (pagination ld') = (movieCount u + 1)%Z.
Proof.
  intros Htracks Hu. split; [by apply listing_total |].
  intros newId errors body fs r w Hrun Hstatus.
  pose proof (createMovie_tracks _ _ _ _ _ _ _ _ Hrun Hstatus Htracks) as Htracks'.
  destruct (createMovie_success _ _ _ _ _ _ _ _ Hrun Hstatus) as (_ & _ & Hdb).
  assert (users (db w) !! uid
          = Some (mkUser (movieCount u + 1)
                         (totalWatchTime u + orZero (duration body))
                         (watchlist u))) as Hu'
    by (rewrite Hdb; simpl; by rewrite lookup_alter_eq, Hu).
  destruct (listing_total orderBy uid (db w) _ Htracks' Hu') as (ld' & Hrun' & Htotal).
  eexists. exists ld'. split; [exact Hu' |]. simpl. by destruct (db w).
Qed.

End Overview.

Lemma X20_listing_total_is_the_movie_count_witness :
  (exists ld,
     getMovies plainClause newestFirst sameTypes "u1" ∅ (mkWorld sampleDb [])
     = (inr (mkResponse 200 (Some ld)), mkWorld sampleDb [])
     /\ total (pagination ld) = 15%Z)
  /\ forall newId errors body fs r w,
       createMovie "u1" errors body newId (mkWorld sampleDb fs) = (inr r, w) ->
       status r = 201%Z ->
       exists u' ld',
         users (db w) !! "u1" = Some u'
         /\ movieCount u' = (15 + 1)%Z
         /\ getMovies plainClause newestFirst sameTypes "u1" ∅ (mkWorld (db w) [])
            = (inr (mkResponse 200 (Some ld')), mkWorld (db w) [])
         /\ total (pagination ld') = (15 + 1)%Z.
Proof.
  apply (X20_listing_total_is_the_movie_count plainClause sameTypes newestFirst
           "u1" sampleDb
           (mkUser 15 1500 ["m03"]) sampleDb_tracks).
  vm_compute. reflexivity.
Defined.

(** Handed the owner as a string against stored [ObjectId]s, the [$match]
    stage selects nothing: the overview of "u1" and the summary of the
    listing are the zero-valued defaults, while the listing still counts
    the fifteen movies. *)
Example uncast_owner_selects_nothing :
  getOverviewStats plainClause stringOwner "u1" (mkWorld sampleDb [])
  = (inr (mkResponse 200 (Some (mkOverviewData overviewDefault [] []))),
     mkWorld sampleDb [])
  /\ match (getMovies plainClause newestFirst stringOwner "u1" ∅
             (mkWorld sampleDb [])).1 with
     | inr r => (fun ld => (total (pagination ld), stats ld)) <$> data r
     | inl _ => None
     end
     = Some (15%Z, statsDefault).
Proof. split; vm_compute; reflexivity. Qed.

(** *** Watchlists and the movie handlers *)

Lemma keepsWatchlists_refl (d : Db) : keepsWatchlists d d.
Proof. done. Qed.

Lemma keepsWatchlists_movies (d : Db) (ms : gmap Id Movie) :
  keepsWatchlists d (mkDb ms (users d)).
Proof. done. Qed.

Lemma keepsWatchlists_inc (d : Db) (ms : gmap Id Movie) (uid : Id) (a b : Z) :
  keepsWatchlists d
    (mkDb ms (alter (fun u => mkUser (movieCount u + a) (totalWatchTime u + b)
                                     (watchlist u)) uid (users d))).
Proof.
  intros j. simpl. destruct (decide (uid = j)) as [<- |].
  - rewrite lookup_alter_eq. by destruct (users d !! uid).
  - by rewrite lookup_alter_ne.
Qed.

#[local] Hint Resolve keepsWatchlists_refl keepsWatchlists_movies
  keepsWatchlists_inc : core.

Section Watchlists.

Variable fieldClause : string -> Value -> Movie -> bool.

Lemma movie_handlers_keep_watchlists
    (uid id newId : Id) (errors : list string) (body : Movie)
    (update : Movie -> Movie) (now stamp : Z) (d : Db) (fs : list bool) :
  keepsWatchlists d (db (createMovie uid errors body newId (mkWorld d fs)).2)
  /\ keepsWatchlists d
       (db (updateMovie fieldClause uid id errors update (mkWorld d fs)).2)
  /\ keepsWatchlists d (db (deleteMovie fieldClause uid id (mkWorld d fs)).2)
  /\ keepsWatchlists d
       (db (toggleWatchStatus fieldClause uid id now stamp (mkWorld d fs)).2).
Proof.
  unfold createMovie, updateMovie, deleteMovie, toggleWatchStatus, tryCatch, bindM,
    Movie_create, Movie_findOneAndUpdate, Movie_findOneAndDelete, Movie_findOne,
    Movie_save, User_findByIdAndUpdate_inc, storage.
  destruct (head (matching fieldClause (ownedQuery uid id) d)) as [[i m]|] eqn:Hhead;
    destruct (movies d !! newId) eqn:Hnew;
    destruct errors as [|e errors];
    destruct fs as [|[] [|[] fs]]; simpl; rewrite ?Hhead, ?Hnew; simpl; auto.
Qed.

(** X21. No movie handler writes to a watchlist: creating, updating,
    deleting and toggling leave every user's watchlist as it was,
    whichever storage calls fail.  So a deleted movie stays on every
    watchlist that held it: afterwards the entry names no movie. *)
Theorem X21_delete_leaves_watchlist_entries
    (uid reader id : Id) (m : Movie) (u : User) (d : Db) :
  movies d !! id = Some m -> addedBy m = uid ->
  users d !! reader = Some u -> id ∈ watchlist u ->
  (forall newId errors body update now stamp fs,
     keepsWatchlists d (db (createMovie uid errors body newId (mkWorld d fs)).2)
     /\ keepsWatchlists d
          (db (updateMovie fieldClause uid id errors update (mkWorld d fs)).2)
     /\ keepsWatchlists d (db (deleteMovie fieldClause uid id (mkWorld d fs)).2)
     /\ keepsWatchlists d
          (db (toggleWatchStatus fieldClause uid id now stamp
                 (mkWorld d fs)).2))
  /\ let out := deleteMovie fieldClause uid id (mkWorld d []) in
     out.1 = inr (mkResponse 200 (Some tt))
     /\ movies (db out.2) !! id = None
     /\ exists u', users (db out.2) !! reader = Some u' /\ id ∈ watchlist u'.
Proof.
  intros Hm Hown Hu Hid. split.
  { intros. apply movie_handlers_keep_watchlists. }
  destruct (movie_handlers_keep_watchlists uid id id [] m (fun x => x) 0 0 d [])
    as (_ & _ & Hkeep & _).
  specialize (Hkeep reader). rewrite Hu in Hkeep. simpl in Hkeep.
  revert Hkeep.
  unfold deleteMovie, tryCatch, bindM, Movie_findOneAndDelete,
    User_findByIdAndUpdate_inc, storage. simpl.
  rewrite (head_matching_owned fieldClause uid id d m Hm Hown). simpl.
  intros Hkeep. split; [done |]. split; [apply lookup_delete_eq |].
  destruct (alter _ uid (users d) !! reader) as [u'|]; [| done].
  exists u'. split; [done |]. simpl in Hkeep. by injection Hkeep as ->.
Qed.

End Watchlists.

Lemma X21_delete_leaves_watchlist_entries_witness :
  (forall newId errors body update now stamp fs,
     keepsWatchlists sampleDb
       (db (createMovie "u1" errors body newId (mkWorld sampleDb fs)).2)
     /\ keepsWatchlists sampleDb
          (db (updateMovie plainClause "u1" "m03" errors update
                 (mkWorld sampleDb fs)).2)
     /\ keepsWatchlists sampleDb
          (db (deleteMovie plainClause "u1" "m03" (mkWorld sampleDb fs)).2)
     /\ keepsWatchlists sampleDb
          (db (toggleWatchStatus plainClause "u1" "m03" now stamp
                 (mkWorld sampleDb fs)).2))
  /\ let out := deleteMovie plainClause "u1" "m03" (mkWorld sampleDb []) in
     out.1 = inr (mkResponse 200 (Some tt))
     /\ movies (db out.2) !! "m03" = None
     /\ exists u', users (db out.2) !! "u1" = Some u' /\ "m03" ∈ watchlist u'.
Proof.
  apply (X21_delete_leaves_watchlist_entries plainClause "u1" "u1" "m03"
           (sampleMovie "u1" 3) (mkUser 15 1500 ["m03"]) sampleDb).
  - vm_compute. reflexivity.
  - reflexivity.
  - vm_compute. reflexivity.
  - simpl. by left.
Defined.

(** *** The formatted duration *)

Lemma pretty_N_char_digit (x : N) : isDigit (pretty_N_char x) = true.
Proof. unfold pretty_N_char. by repeat case_match. Qed.

Lemma pretty_N_go_digits (x : N) (s : string) :
  allDigits s = true -> allDigits (pretty_N_go x s) = true.
Proof.
  revert s. induction (N.lt_wf_0 x) as [x _ IH]; intros s Hs.
  assert (x = 0 \/ 0 < x)%N as [-> | ?] by lia.
  - by rewrite pretty_N_go_0.
  - rewrite pretty_N_go_step by done. apply IH; [by apply N.div_lt |].
    simpl. by rewrite pretty_N_char_digit.
Qed.

Lemma pretty_Z_digits (z : Z) : (0 <= z)%Z -> allDigits (pretty z) = true.
Proof.
  destruct z as [|q|q]; [done | | lia]. intros _.
  unfold pretty, pretty_Z, pretty, pretty_positive, pretty, pretty_N.
  case_decide; [done |]. by apply pretty_N_go_digits.
Qed.

(** A run of digits ends where the first other character stands. *)
Lemma digits_prefix_inj (a b s s' : string) (c c' : ascii) :
  allDigits a = true -> allDigits b = true ->
  isDigit c = false -> isDigit c' = false ->
  a +:+ String c s = b +:+ String c' s' ->
  a = b /\ String c s = String c' s'.
Proof.
  intros Ha Hb Hc Hc'. revert b Ha Hb.
  induction a as [|x a IH]; intros [|y b] Ha Hb; simpl in *.
  - done.
  - intros [= -> _]. apply andb_true_iff in Hb as [Hy _]. congruence.
  - intros [= <- _]. apply andb_true_iff in Ha as [Hx _]. congruence.
  - intros [= -> H]. apply andb_true_iff in Ha as [_ Ha].
    apply andb_true_iff in Hb as [_ Hb].
    destruct (IH b Ha Hb H) as [-> ?]. done.
Qed.

(** X23. For whole durations from 0 up to 2^32 (where the arithmetic of
    the code is exact) the formatted duration tells durations apart: two
    movies with the same text have the same duration.  The hours are shown
    from 60 minutes on. *)
Theorem X23_formatted_duration_is_faithful (m m' : Movie) :
  (0 <= duration m < 4294967296)%Z -> (0 <= duration m' < 4294967296)%Z ->
  formattedDuration m = formattedDuration m' ->
  duration m = duration m'
  /\ formattedDuration m
     = (if (duration m <? 60)%Z then pretty (duration m) +:+ "m"
        else pretty (duration m / 60)%Z +:+ "h "
             +:+ pretty (duration m `mod` 60)%Z +:+ "m").
Proof.
  intros [Hd _] [Hd' _]. unfold formattedDuration.
  rewrite !Z.rem_mod_nonneg by lia.
  pose proof (Z.div_mod (duration m) 60 ltac:(lia)) as Hsplit.
  pose proof (Z.div_mod (duration m') 60 ltac:(lia)) as Hsplit'.
  pose proof (Z.mod_pos_bound (duration m) 60 ltac:(lia)) as Hmin.
  pose proof (Z.mod_pos_bound (duration m') 60 ltac:(lia)) as Hmin'.
  pose proof (Z.div_pos (duration m) 60 Hd ltac:(lia)) as Hh.
  pose proof (Z.div_pos (duration m') 60 Hd' ltac:(lia)) as Hh'.
  set (h := (duration m / 60)%Z) in *. set (mi := (duration m `mod` 60)%Z) in *.
  set (h' := (duration m' / 60)%Z) in *. set (mi' := (duration m' `mod` 60)%Z) in *.
  assert (allDigits (pretty h) = true) as Dh by (by apply pretty_Z_digits).
  assert (allDigits (pretty h') = true) as Dh' by (by apply pretty_Z_digits).
  assert (allDigits (pretty mi) = true) as Dm by (apply pretty_Z_digits; lia).
  assert (allDigits (pretty mi') = true) as Dm' by (apply pretty_Z_digits; lia).
  intros Htext. split.
  - destruct (Z.ltb_spec 0 h), (Z.ltb_spec 0 h'); simpl in Htext.
    + apply digits_prefix_inj in Htext as [Hhh [= Hmm]]; try done.
      apply digits_prefix_inj in Hmm as [Hmm _]; try done.
      apply (inj pretty) in Hhh, Hmm. lia.
    + apply digits_prefix_inj in Htext as [_ [=]]; done.
    + apply digits_prefix_inj in Htext as [_ [=]]; done.
    + apply digits_prefix_inj in Htext as [Hmm _]; try done.
      apply (inj pretty) in Hmm. lia.
  - destruct (Z.ltb_spec 0 h), (Z.ltb_spec (duration m) 60); try done; try lia.
    replace (duration m) with mi by lia. done.
Qed.

Lemma X23_formatted_duration_is_faithful_witness :
  duration (sampleMovie "u1" 3) = duration (sampleMovie "u2" 16)
  /\ formattedDuration (sampleMovie "u1" 3)
     = (if (duration (sampleMovie "u1" 3) <? 60)%Z
        then pretty (duration (sampleMovie "u1" 3)) +:+ "m"
        else pretty (duration (sampleMovie "u1" 3) / 60)%Z +:+ "h "
             +:+ pretty (duration (sampleMovie "u1" 3) `mod` 60)%Z +:+ "m").
Proof.
  apply (X23_formatted_duration_is_faithful (sampleMovie "u1" 3)
           (sampleMovie "u2" 16)).
  - simpl. lia.
  - simpl. lia.
  - vm_compute. reflexivity.
Defined.

Example formattedDuration_examples :
  formattedDuration (sampleMovie "u1" 3) = "1h 40m"
  /\ formattedDuration (mkMovie "Short" "" "" 2000 [] 45 0 "u1" false None 0 0 ∅)
     = "45m".
Proof. split; vm_compute; reflexivity. Qed.

(** *** After a delete, and a watchlist without its user *)

Section Gone.

Variable fieldClause : string -> Value -> Movie -> bool.

(** X24. A delete answered with 200 removes the movie for everyone: after
    it, reading, updating, toggling and deleting that identifier answer
    404 for every user, and none of these calls writes anything. *)
Theorem X24_deleted_movie_is_gone
    (uid who id : Id) (now stamp : Z) (update : Movie -> Movie)
    (d : Db) (fs : list bool) (r : Response unit) (w : World) :
  deleteMovie fieldClause uid id (mkWorld d fs) = (inr r, w) ->
  status r = 200%Z ->
  movies (db w) !! id = None
  /\ getMovie fieldClause who id (mkWorld (db w) [])
     = (inr (mkResponse 404 None), mkWorld (db w) [])
  /\ updateMovie fieldClause who id [] update (mkWorld (db w) [])
     = (inr (mkResponse 404 None), mkWorld (db w) [])
  /\ toggleWatchStatus fieldClause who id now stamp (mkWorld (db w) [])
     = (inr (mkResponse 404 None), mkWorld (db w) [])
  /\ deleteMovie fieldClause who id (mkWorld (db w) [])
     = (inr (mkResponse 404 None), mkWorld (db w) []).
Proof.
  intros Hrun Hstatus.
  destruct (deleteMovie_success _ _ _ _ _ _ _ Hrun Hstatus) as (m & _ & _ & Hdb).
  assert (movies (db w) !! id = None) as Hgone
    by (rewrite Hdb; apply lookup_delete_eq).
  split; [done |].
  assert (head (matching fieldClause (ownedQuery who id) (db w)) = None) as Hnone.
  { apply head_matching_owned_None. intros m' Hm'. congruence. }
  unfold getMovie, updateMovie, deleteMovie, toggleWatchStatus, tryCatch, bindM,
    Movie_findOne, Movie_findOneAndUpdate, Movie_findOneAndDelete, storage.
  simpl. rewrite Hnone. simpl. by destruct (db w).
Qed.

End Gone.

Lemma X24_deleted_movie_is_gone_witness :
  let w := (deleteMovie plainClause "u1" "m03" (mkWorld sampleDb [])).2 in
  movies (db w) !! "m03" = None
  /\ getMovie plainClause "u1" "m03" (mkWorld (db w) [])
     = (inr (mkResponse 404 None), mkWorld (db w) [])
  /\ updateMovie plainClause "u1" "m03" [] id (mkWorld (db w) [])
     = (inr (mkResponse 404 None), mkWorld (db w) [])
  /\ toggleWatchStatus plainClause "u1" "m03" 7 8 (mkWorld (db w) [])
     = (inr (mkResponse 404 None), mkWorld (db w) [])
  /\ deleteMovie plainClause "u1" "m03" (mkWorld (db w) [])
     = (inr (mkResponse 404 None), mkWorld (db w) []).
Proof.
  intros w.
  apply (X24_deleted_movie_is_gone plainClause "u1" "u1" "m03" 7 8 id sampleDb []
           (mkResponse 200 (Some tt)) w).
  - vm_compute. reflexivity.
  - reflexivity.
Defined.

(** X25. [addToWatchlist] for a requester that is not among the users
    answers 500 whatever the movie: the handler reads [watchlist] of
    [null], which raises, and nothing is written, whichever storage calls
    fail. *)
Theorem X25_watchlist_of_unknown_user (uid id : Id) (d : Db) (fs : list bool) :
  users d !! uid = None ->
  (addToWatchlist uid id (mkWorld d fs)).1 = inr (mkResponse 500 None)
  /\ db (addToWatchlist uid id (mkWorld d fs)).2 = d.
Proof.
  intros Hu. unfold addToWatchlist, tryCatch, bindM, User_findById, storage.
  destruct fs as [|[] fs]; simpl; rewrite ?Hu; simpl; by destruct d.
Qed.

Lemma X25_watchlist_of_unknown_user_witness :
  (addToWatchlist "nobody" "m03" (mkWorld sampleDb [false])).1
  = inr (mkResponse 500 None)
  /\ db (addToWatchlist "nobody" "m03" (mkWorld sampleDb [false])).2 = sampleDb.
Proof.
  apply (X25_watchlist_of_unknown_user "nobody" "m03" sampleDb [false]).
  vm_compute. reflexivity.
Defined.

End ServerMoreFacts.
